(** * The [toolkit] package and the upload application

    A shallow embedding of [toolkit/tools.go]: [RandomString],
    [UploadOneFile], [UploadFiles], [CreateDirIfNotExist], [Slugify],
    [WriteJSON] and [ErrorJSON], of the handlers of [app-upload/main.go],
    and of the parts of the Go standard library these functions call.

    The Go functions are methods on [*Tools] that read and write the file
    system, draw random numbers and may panic.  They are embedded as pure
    functions that pass a [World] (file system and random source) and the
    receiver explicitly, and that return Go's [(value, error)] pairs as
    pairs with an [option error].

    The standard library is not part of the repository.  Each function of
    it that the package calls is given a definition after its
    documentation, under the heading of its Go package, and the
    simplifications made there are stated with the definition.  Failures
    of the storage behind an uploaded part are part of the input
    ([Fault]). *)

From Stdlib Require Import ZArith Znumtheory Zpow_facts Lia List Ascii String Bool.
From Stdlib Require Import Strings.Byte Zmod.ZmodInv DecimalString.
From stdpp Require Import base option list strings gmap.

Open Scope string_scope.
Open Scope Z_scope.
Open Scope list_scope.

(** ** Errors *)

(** [syscall.Errno] values that the modelled system calls can return. *)
Inductive Errno := ENOENT | ENOTDIR | EISDIR | EACCES.

(** Go [error] values.  [errors_New msg] is [errors.New(msg)]; [io_EOF] is
    [io.EOF]; [PathError] is [*fs.PathError]; [ErrMessageTooLarge] is
    [multipart.ErrMessageTooLarge]. *)
Inductive error :=
| errors_New (msg : string)
| io_EOF
| PathError (op : string) (path : string) (errno : Errno)
| ErrMessageTooLarge.

(** [os.IsNotExist(err)], on a possibly nil error. *)
Definition os_IsNotExist (err : option error) : bool :=
  match err with
  | Some (PathError _ _ ENOENT) => true
  | _ => false
  end.

(** A Go call either returns or panics. *)
Inductive outcome (A : Type) :=
| Returns (a : A)
| Panics (msg : string).
Arguments Returns {A} a.
Arguments Panics {A} msg.

(** ** package strings *)

(** ASCII lower-casing of one byte of a string. *)
Definition to_lower (c : ascii) : ascii :=
  let n := N_of_ascii c in
  if ((65 <=? n) && (n <=? 90))%N then ascii_of_N (n + 32) else c.

(** [strings.EqualFold(s, t)] on ASCII strings: equality up to the case of
    the letters [A-Z].  The simple case folding of code points outside
    ASCII is not modelled; the library also folds the Kelvin sign to [k]
    and the long s to [s], letters that none of the types of
    [known_types] holds. *)
Fixpoint strings_EqualFold (s t : string) : bool :=
  match s, t with
  | EmptyString, EmptyString => true
  | String a s', String b t' =>
      Ascii.eqb (to_lower a) (to_lower b) && strings_EqualFold s' t'
  | _, _ => false
  end.

(** ** package path/filepath *)

(** The scan of [filepath.Ext]: [rpath] is [path[0..i]] reversed and [acc]
    is [path[i+1..]]; the loop walks [i] down from the last byte, stops at
    a path separator and returns [path[i:]] at the first dot it meets. *)
Fixpoint Ext_scan (rpath : list ascii) (acc : list ascii) : list ascii :=
  match rpath with
  | [] => []
  | c :: rest =>
      if Ascii.eqb c "/" then []
      else if Ascii.eqb c "." then c :: acc
      else Ext_scan rest (c :: acc)
  end.

(** [filepath.Ext(path)]: the suffix starting at the last dot of the last
    element of [path], or the empty string. *)
Definition filepath_Ext (path : string) : string :=
  string_of_list_ascii (Ext_scan (rev (list_ascii_of_string path)) []).

(** [filepath.Join(dir, name)] for two elements.  Empty elements are
    ignored.  [filepath.Clean] is not applied to the joined string: the
    result is only handed to [os_Create], which resolves it with
    [resolve] below, and [resolve] cleans the path the same way.  The
    path inside an error of [os_Create] is therefore the joined string
    before cleaning, and no statement depends on the path such an error
    names. *)
Definition filepath_Join (dir name : string) : string :=
  if String.eqb dir "" then name
  else if String.eqb name "" then dir
  else dir +:+ "/" +:+ name.

(** ** The toolkit type *)

Definition randomStringSource : string :=
  "abcdefghijklmnopqrstuvwxyzABCDEFGHIJKLMNOPQRSTUVWXYZ0123456789_+".

(** [Tools] is the receiver of every method of the package. *)
Record Tools := mkTools {
  MaxFileSize : Z;
  AllowedFileTypes : list string;
  MaxJSONSize : Z;
  AllowUnknownFields : bool
}.

(** [UploadedFile] holds what is reported about one stored file. *)
Record UploadedFile := mkUploadedFile {
  NewFileName : string;
  OriginalFileName : string;
  FileSize : Z
}.

(** ** package os: the file system

    The file system is a finite map from resolved paths (the list of path
    elements from the root) to nodes.  The root is always a directory.
    There are no symbolic links, and relative paths are taken from the
    root (the working directory is [/]).  The process owns every node; the
    only permission that is checked is the owner's write bit on the
    directory in which an entry is created.  The umask is 0.

    Three simplifications bound what the statements below can say.  [..]
    is resolved lexically, where the system goes through the directory
    named before it, which has to exist: on a path with a [..] element
    the two can differ, and the statements that depend on it are made for
    paths without one ([no_dotdot]).  A lookup fails here only on what
    the tree holds, while the system also refuses a NUL byte, a name that
    is too long, and a directory that cannot be searched: the statements
    that depend on it are made for a [plain_path] and for
    [dirs_searchable] trees.  The root, which stands for the working
    directory, is a directory its owner can write to
    ([root_writable]). *)

Inductive node :=
| Dir (perm : Z)
| RegularFile (data : list byte).

(** The state the package reads and writes: the file system, and the
    numbers [crypto/rand.Prime] is going to return, with the count of
    those already drawn. *)
Record World := mkWorld {
  fs : gmap (list string) node;
  primes : nat -> Z;
  drawn : nat
}.

Definition set_fs (w : World) (fs' : gmap (list string) node) : World :=
  {| fs := fs'; primes := primes w; drawn := drawn w |}.

(** Splitting a path at its separators; [cur] is the element being read. *)
Fixpoint split_slash (s : string) (cur : string) : list string :=
  match s with
  | EmptyString => [cur]
  | String c s' =>
      if Ascii.eqb c "/" then cur :: split_slash s' ""
      else split_slash s' (cur +:+ String c "")
  end.

(** One step of path resolution; [racc] is the reversed resolved prefix. *)
Definition enter (racc : list string) (e : string) : list string :=
  if String.eqb e "" || String.eqb e "." then racc
  else if String.eqb e ".." then tail racc
  else e :: racc.

(** The elements of the cleaned path, from the root.  A [..] element
    drops the element before it without a look at the tree, as
    [filepath.Clean] does; the system looks the element before it up. *)
Definition resolve (path : string) : list string :=
  rev (fold_left enter (split_slash path "") []).

(** Directory permissions 0755: owner rwx, group and others r-x. *)
Definition perm_0755 : Z := 7 * 64 + 5 * 8 + 5.

Definition owner_writable (perm : Z) : bool := Z.testbit perm 7.

(** The node at a resolved path.  The root is a directory with mode 0755
    whatever the map holds: the working directory is there, and its owner
    can write to it. *)
Definition node_at (fs : gmap (list string) node) (p : list string) : option node :=
  match p with
  | [] => Some (Dir perm_0755)
  | _ => fs !! p
  end.

(** Path lookup: from the directory [cur], follow the elements [rest]. *)
Fixpoint walk (fs : gmap (list string) node) (cur rest : list string) : node + Errno :=
  match rest with
  | [] =>
      match node_at fs cur with
      | Some n => inl n
      | None => inr ENOENT
      end
  | e :: rest' =>
      match node_at fs cur with
      | Some (Dir _) => walk fs (cur ++ [e]) rest'
      | Some (RegularFile _) => inr ENOTDIR
      | None => inr ENOENT
      end
  end.

(** [os.Stat(name)]. *)
Definition os_Stat (fs : gmap (list string) node) (name : string) : option node * option error :=
  if String.eqb name "" then (None, Some (PathError "stat" name ENOENT))
  else match walk fs [] (resolve name) with
       | inl n => (Some n, None)
       | inr e => (None, Some (PathError "stat" name e))
       end.

(** The directories [os.MkdirAll] creates below [cur] for the elements
    [rest].  The file system is returned as it is when the call ends,
    also when it ends in an error. *)
Fixpoint mkdirs (perm : Z) (fs : gmap (list string) node) (cur rest : list string)
  : gmap (list string) node * option Errno :=
  match rest with
  | [] =>
      match node_at fs cur with
      | Some (Dir _) => (fs, None)
      | Some (RegularFile _) => (fs, Some ENOTDIR)
      | None => (fs, Some ENOENT)
      end
  | e :: rest' =>
      match node_at fs cur with
      | Some (Dir pm) =>
          match fs !! (cur ++ [e]) with
          | Some _ => mkdirs perm fs (cur ++ [e]) rest'
          | None =>
              if owner_writable pm
              then mkdirs perm (<[cur ++ [e] := Dir perm]> fs) (cur ++ [e]) rest'
              else (fs, Some EACCES)
          end
      | Some (RegularFile _) => (fs, Some ENOTDIR)
      | None => (fs, Some ENOENT)
      end
  end.

(** [os.MkdirAll(path, perm)]: creates the directory [path] and any
    missing parents with permission bits [perm]; does nothing when [path]
    is already a directory.  Go reports a failure under the path of the
    component it could not create; here the error carries the whole
    [path], and no statement depends on the path an error of [MkdirAll]
    names. *)
Definition os_MkdirAll (fs : gmap (list string) node) (path : string) (perm : Z)
  : gmap (list string) node * option error :=
  if String.eqb path "" then (fs, Some (PathError "mkdir" path ENOENT))
  else match mkdirs perm fs [] (resolve path) with
       | (fs', None) => (fs', None)
       | (fs', Some e) => (fs', Some (PathError "mkdir" path e))
       end.

(** [os.Create(name)]: creates or truncates the named file.  The returned
    handle is the resolved path of the file. *)
Definition os_Create (fs : gmap (list string) node) (name : string)
  : gmap (list string) node * (list string + error) :=
  if String.eqb name "" then (fs, inr (PathError "open" name ENOENT))
  else
    let p := resolve name in
    match p with
    | [] => (fs, inr (PathError "open" name EISDIR))
    | _ =>
        match walk fs [] (removelast p) with
        | inl (Dir pm) =>
            match fs !! p with
            | Some (Dir _) => (fs, inr (PathError "open" name EISDIR))
            | Some (RegularFile _) => (<[p := RegularFile []]> fs, inl p)
            | None =>
                if owner_writable pm then (<[p := RegularFile []]> fs, inl p)
                else (fs, inr (PathError "open" name EACCES))
            end
        | inl (RegularFile _) => (fs, inr (PathError "open" name ENOTDIR))
        | inr e => (fs, inr (PathError "open" name e))
        end
    end.

(** Appending to an open file; in this package a file is only written
    from its start, right after [os_Create]. *)
Definition file_Write (fs : gmap (list string) node) (handle : list string) (bs : list byte)
  : gmap (list string) node :=
  match fs !! handle with
  | Some (RegularFile old) => <[handle := RegularFile (old ++ bs)]> fs
  | _ => fs
  end.

(** [os.ReadFile(name)], used to state what has been stored. *)
Definition os_ReadFile (fs : gmap (list string) node) (name : string) : option (list byte) :=
  if String.eqb name "" then None
  else match walk fs [] (resolve name) with
       | inl (RegularFile data) => Some data
       | _ => None
       end.

(** ** package mime/multipart *)

(** What can go wrong with the storage behind one uploaded part: the
    failure of [Open], of [Read], of [Seek], or of the reads made by
    [io.Copy] after [k] bytes. *)
Inductive Fault :=
| OpenFails (e : error)
| ReadFails (e : error)
| SeekFails (e : error)
| CopyFails (k : nat) (e : error).

(** One part of a multipart body as the client sent it: the form field
    name, the file name and the MIME header it declares (with the
    declared [Content-Type] and any declared length), and its bytes. *)
Record Part := mkPart {
  FormName : string;
  FileName : string;
  PartHeader : list (string * string);
  body : list byte;
  storage_fault : option Fault
}.

(** [multipart.FileHeader].  [content] is the part's data, held in memory
    or, when [tmpfile] is set, in a temporary file. *)
Record FileHeader := mkFileHeader {
  Filename : string;
  Header : list (string * string);
  content : list byte;
  tmpfile : bool;
  fault : option Fault
}.

(** [multipart.Form]; the maps are association lists in insertion order. *)
Record Form := mkForm {
  Value : list (string * list (list byte));
  File : list (string * list FileHeader)
}.

(** [m[name] = append(m[name], x)]. *)
Fixpoint form_append {A : Type} (m : list (string * list A)) (name : string) (x : A)
  : list (string * list A) :=
  match m with
  | [] => [(name, [x])]
  | (k, xs) :: m' =>
      if String.eqb k name then (k, xs ++ [x]) :: m'
      else (k, xs) :: form_append m' name x
  end.

Definition MaxInt64 : Z := 2 ^ 63 - 1.

(** Conversion to [int64], with wrap-around. *)
Definition int64 (z : Z) : Z := (z + 2 ^ 63) mod 2 ^ 64 - 2 ^ 63.

(** The loop of [multipart.Reader.ReadForm] over the parts of the body.
    A part without a file name is a value, kept in memory and counted
    against [maxValueBytes].  A file part of more than [maxMemory] bytes is
    written to a temporary file; a smaller one is kept in memory and
    counted against both budgets.  No size of a file part is an error. *)
Fixpoint readForm_loop (parts : list Part) (maxMemory maxValueBytes : Z) (form : Form)
  : Form + error :=
  match parts with
  | [] => inl form
  | p :: ps =>
      if String.eqb (FormName p) "" then readForm_loop ps maxMemory maxValueBytes form
      else if String.eqb (FileName p) "" then
        let n := Z.min (Z.of_nat (length (body p))) (maxValueBytes + 1) in
        let maxValueBytes := maxValueBytes - n in
        if maxValueBytes <? 0 then inr ErrMessageTooLarge
        else readForm_loop ps maxMemory maxValueBytes
               {| Value := form_append (Value form) (FormName p) (body p);
                  File := File form |}
      else
        let n := Z.min (Z.of_nat (length (body p))) (maxMemory + 1) in
        if maxMemory <? n then
          let fh := {| Filename := FileName p; Header := PartHeader p;
                       content := body p; tmpfile := true;
                       fault := storage_fault p |} in
          readForm_loop ps maxMemory maxValueBytes
            {| Value := Value form; File := form_append (File form) (FormName p) fh |}
        else
          let fh := {| Filename := FileName p; Header := PartHeader p;
                       content := body p; tmpfile := false;
                       fault := storage_fault p |} in
          readForm_loop ps (maxMemory - n) (maxValueBytes - n)
            {| Value := Value form; File := form_append (File form) (FormName p) fh |}
  end.

(** [multipart.Reader.ReadForm(maxMemory)]: 10 MB are reserved for the
    parts that are not files. *)
Definition readForm (parts : list Part) (maxMemory : Z) : Form + error :=
  let maxValueBytes := int64 (maxMemory + 10 * 2 ^ 20) in
  let maxValueBytes :=
    if maxValueBytes <=? 0
    then (if maxMemory <? 0 then 0 else MaxInt64)
    else maxValueBytes in
  readForm_loop parts maxMemory maxValueBytes {| Value := []; File := [] |}.

(** [multipart.File]: an open part, with the read offset. *)
Record OpenFile := mkOpenFile {
  data : list byte;
  off : nat;
  open_fault : option Fault
}.

(** [FileHeader.Open()]. *)
Definition FileHeader_Open (fh : FileHeader) : OpenFile + error :=
  match fault fh with
  | Some (OpenFails e) => inr e
  | _ => inl {| data := content fh; off := 0%nat; open_fault := fault fh |}
  end.

(** [f.Read(buff)]: copies up to [len(buff)] bytes from the read offset
    into the front of [buff] and advances the offset; at the end of the
    data it reads nothing and returns [io.EOF]. *)
Definition File_Read (f : OpenFile) (buff : list byte)
  : (list byte * Z * option error) * OpenFile :=
  match open_fault f with
  | Some (ReadFails e) => ((buff, 0, Some e), f)
  | _ =>
      match drop (off f) (data f) with
      | [] => ((buff, 0, Some io_EOF), f)
      | rest =>
          let got := take (length buff) rest in
          ((got ++ drop (length got) buff, Z.of_nat (length got), None),
           {| data := data f; off := (off f + length got)%nat;
              open_fault := open_fault f |})
      end
  end.

(** [f.Seek(offset, whence)]. *)
Definition File_Seek (f : OpenFile) (offset : Z) (whence : Z) : (Z * option error) * OpenFile :=
  match open_fault f with
  | Some (SeekFails e) => ((0, Some e), f)
  | _ =>
      let base :=
        if whence =? 0 then 0
        else if whence =? 1 then Z.of_nat (off f)
        else Z.of_nat (length (data f)) in
      let pos := base + offset in
      if pos <? 0 then ((0, Some (errors_New "negative position")), f)
      else ((pos, None),
            {| data := data f; off := Z.to_nat pos; open_fault := open_fault f |})
  end.

(** ** package io *)

(** [io.Copy(dst, src)] from an open part to an open destination file:
    copies from the read offset of [src] to its end and returns the number
    of bytes written. *)
Definition io_Copy (fs : gmap (list string) node) (dst : list string) (src : OpenFile)
  : (Z * option error) * gmap (list string) node :=
  let rest := drop (off src) (data src) in
  match open_fault src with
  | Some (CopyFails k e) =>
      let written := take k rest in
      ((Z.of_nat (length written), Some e), file_Write fs dst written)
  | _ => ((Z.of_nat (length rest), None), file_Write fs dst rest)
  end.

(** ** package net/http *)

(** A request that has not been parsed yet: the length the client
    declares, an error when the body is not a readable
    [multipart/form-data] message, and the parts of the body in order. *)
Record Request := mkRequest {
  ContentLength : Z;
  BodyError : option error;
  Parts : list Part
}.

(** [r.ParseMultipartForm(maxMemory)]: the whole body is parsed; up to
    [maxMemory] bytes of its file parts are kept in memory and the rest
    goes to temporary files.  The temporary files are not entries of the
    modelled file system: a header whose [tmpfile] is set stands for a
    file in [os.TempDir()] that is still there when [UploadFiles]
    returns. *)
Definition ParseMultipartForm (r : Request) (maxMemory : Z) : Form + error :=
  match BodyError r with
  | Some e => inr e
  | None => readForm (Parts r) maxMemory
  end.

(** The bytes a request body carries in its parts; the body itself is
    longer, by the boundaries and the part headers. *)
Definition payload_size (r : Request) : Z :=
  Z.of_nat (list_sum (map (fun p => length (body p)) (Parts r))).

Definition byte_val (b : byte) : Z := Z.of_N (Byte.to_N b).

Definition bytes (s : string) : list byte := list_byte_of_string s.

Fixpoint hasPrefix (data sig : list byte) : bool :=
  match sig, data with
  | [], _ => true
  | s :: sig', d :: data' => Byte.eqb s d && hasPrefix data' sig'
  | _ :: _, [] => false
  end.

Definition isWS (b : byte) : bool :=
  let v := byte_val b in
  (v =? 9) || (v =? 10) || (v =? 12) || (v =? 13) || (v =? 32).

Fixpoint skipWS (data : list byte) : list byte :=
  match data with
  | b :: data' => if isWS b then skipWS data' else data
  | [] => []
  end.

(** The bytes that make the sniffer call data binary. *)
Definition isBinaryByte (b : byte) : bool :=
  let v := byte_val b in
  (v <=? 8) || (v =? 11) || ((14 <=? v) && (v <=? 26)) || ((28 <=? v) && (v <=? 31)).

Definition sniffLen : nat := 512.

(** [http.DetectContentType(data)], with the signature table cut down to
    PDF, GIF, PNG and JPEG, followed as in the library by the test for
    text and the fallback.  It looks at no more than [sniffLen] bytes.
    The other types the library knows (HTML, XML, the byte order marks,
    other images, audio, video, fonts, archives) come out here as plain
    text or as [application/octet-stream].  Whether data is a PDF, a GIF,
    a PNG or a JPEG is answered as the library does, and this is all that
    a policy asks which names no other type ([known_policy]). *)
Definition http_DetectContentType (data : list byte) : string :=
  let data := take sniffLen data in
  if hasPrefix data (bytes "%PDF-") then "application/pdf"
  else if hasPrefix data (bytes "GIF87a") then "image/gif"
  else if hasPrefix data (bytes "GIF89a") then "image/gif"
  else if hasPrefix data [x89; x50; x4e; x47; x0d; x0a; x1a; x0a]%byte then "image/png"
  else if hasPrefix data [xff; xd8; xff]%byte then "image/jpeg"
  else if forallb (fun b => negb (isBinaryByte b)) (skipWS data)
       then "text/plain; charset=utf-8"
  else "application/octet-stream".

(** ** package crypto/rand *)

(** What [rand.Prime(rand.Reader, bits)] promises about its result: a
    prime number of exactly [bits] bits. *)
Definition is_Prime_of (bits : nat) (p : Z) : Prop :=
  Z.prime p /\ 2 ^ (Z.of_nat bits - 1) <= p < 2 ^ Z.of_nat bits.

(** [rand.Prime(rand.Reader, bits)]: the next number of the random
    source.  The reader is assumed not to fail. *)
Definition rand_Prime (bits : nat) (w : World) : Z * World :=
  (primes w (drawn w),
   {| fs := fs w; primes := primes w; drawn := S (drawn w) |}).

(** [p.Uint64()]: the low 64 bits of a non-negative [p]. *)
Definition Uint64 (p : Z) : Z := p mod 2 ^ 64.

(** ** RandomString *)

(** The loop [for i := range s] of [RandomString], filling [s] from its
    first position; [r] is the rune slice of the source and [n] the
    number of positions left. *)
Fixpoint RandomString_loop (r : list ascii) (n : nat) (w : World) : list ascii * World :=
  match n with
  | O => ([], w)
  | S n' =>
      let '(p, w1) := rand_Prime (length r) w in
      let x := Uint64 p in
      let y := Z.of_nat (length r) in
      let c := nth (Z.to_nat (x mod y)) r "000"%char in
      let '(s, w2) := RandomString_loop r n' w1 in
      (c :: s, w2)
  end.

(** [t.RandomString(n)].  The source is ASCII, so its runes are its
    bytes. *)
Definition RandomString (n : nat) (w : World) : string * World :=
  let r := list_ascii_of_string randomStringSource in
  let '(s, w') := RandomString_loop r n w in
  (string_of_list_ascii s, w').

(** ** CreateDirIfNotExist *)

Definition mode : Z := perm_0755.

Definition CreateDirIfNotExist (path : string) (w : World) : option error * World :=
  let '(_, err) := os_Stat (fs w) path in
  if os_IsNotExist err then
    let '(fs', err) := os_MkdirAll (fs w) path mode in
    match err with
    | Some e => (Some e, set_fs w fs')
    | None => (None, set_fs w fs')
    end
  else (None, w).

(** ** UploadFiles *)

(** The optional argument [rename ...bool]. *)
Definition renameFile_of (rename : list bool) : bool :=
  match rename with
  | [] => true
  | b :: _ => b
  end.

(** The loop over [t.AllowedFileTypes] that sets [allowed]. *)
Fixpoint allowed_loop (fileType : string) (types : list string) (allowed : bool) : bool :=
  match types with
  | [] => allowed
  | x :: types' =>
      allowed_loop fileType types'
        (if strings_EqualFold fileType x then true else allowed)
  end.

(** The function literal that [UploadFiles] calls for each file header:
    it returns the extended slice, or [nil] and an error.  The deferred
    [Close] of the two files has no effect on the world. *)
Definition upload_one (t : Tools) (renameFile : bool) (uploadDir : string)
    (hdr : FileHeader) (uploadedFiles : list UploadedFile) (w : World)
  : (list UploadedFile * option error) * World :=
  match FileHeader_Open hdr with
  | inr err => (([], Some err), w)
  | inl infile =>
      let buff := replicate 512 x00 in
      let '((buff, _, err), infile) := File_Read infile buff in
      match err with
      | Some e => (([], Some e), w)
      | None =>
          let fileType := http_DetectContentType buff in
          let allowed :=
            if (0 <? length (AllowedFileTypes t))%nat
            then allowed_loop fileType (AllowedFileTypes t) false
            else true in
          if negb allowed
          then (([], Some (errors_New "the uploaded file type is not permitted")), w)
          else
            let '((_, err), infile) := File_Seek infile 0 0 in
            match err with
            | Some e => (([], Some e), w)
            | None =>
                let '(newFileName, w) :=
                  if renameFile
                  then let '(rs, w') := RandomString 25 w in
                       (rs +:+ filepath_Ext (Filename hdr), w')
                  else (Filename hdr, w) in
                let '(fs1, outfile) :=
                  os_Create (fs w) (filepath_Join uploadDir newFileName) in
                match outfile with
                | inr e => (([], Some e), set_fs w fs1)
                | inl outfile =>
                    let '((fileSize, err), fs2) := io_Copy fs1 outfile infile in
                    match err with
                    | Some e => (([], Some e), set_fs w fs2)
                    | None =>
                        let uploadedFile :=
                          {| NewFileName := newFileName;
                             OriginalFileName := Filename hdr;
                             FileSize := fileSize |} in
                        ((uploadedFiles ++ [uploadedFile], None), set_fs w fs2)
                    end
                end
            end
      end
  end.

(** The inner loop [for _, hdr := range fHeaders]; with an error in the
    result, [UploadFiles] returns from inside the loop. *)
Fixpoint headers_loop (t : Tools) (renameFile : bool) (uploadDir : string)
    (fHeaders : list FileHeader) (uploadedFiles : list UploadedFile) (w : World)
  : (list UploadedFile * option error) * World :=
  match fHeaders with
  | [] => ((uploadedFiles, None), w)
  | hdr :: rest =>
      let '((uploadedFiles, err), w) :=
        upload_one t renameFile uploadDir hdr uploadedFiles w in
      match err with
      | Some e => ((uploadedFiles, Some e), w)
      | None => headers_loop t renameFile uploadDir rest uploadedFiles w
      end
  end.

(** The outer loop [for _, fHeaders := range r.MultipartForm.File].  Go
    does not fix the order in which a map is ranged over; the form is
    visited in the order of its association list. *)
Fixpoint form_loop (t : Tools) (renameFile : bool) (uploadDir : string)
    (files : list (string * list FileHeader)) (uploadedFiles : list UploadedFile)
    (w : World)
  : (list UploadedFile * option error) * World :=
  match files with
  | [] => ((uploadedFiles, None), w)
  | (_, fHeaders) :: rest =>
      let '((uploadedFiles, err), w) :=
        headers_loop t renameFile uploadDir fHeaders uploadedFiles w in
      match err with
      | Some e => ((uploadedFiles, Some e), w)
      | None => form_loop t renameFile uploadDir rest uploadedFiles w
      end
  end.

(** [t.UploadFiles(r, uploadDir, rename...)].  The receiver is a
    pointer, so the value of [*t] after the call is returned as well. *)
Definition UploadFiles (t : Tools) (r : Request) (uploadDir : string)
    (rename : list bool) (w : World)
  : (list UploadedFile * option error) * Tools * World :=
  let renameFile := renameFile_of rename in
  let uploadedFiles : list UploadedFile := [] in
  let t :=
    if MaxFileSize t =? 0
    then {| MaxFileSize := 1024 * 1024 * 1024;
            AllowedFileTypes := AllowedFileTypes t;
            MaxJSONSize := MaxJSONSize t;
            AllowUnknownFields := AllowUnknownFields t |}
    else t in
  let '(err, w) := CreateDirIfNotExist uploadDir w in
  match err with
  | Some e => (([], Some e), t, w)
  | None =>
      match ParseMultipartForm r (int64 (MaxFileSize t)) with
      | inr _ => (([], Some (errors_New "the uploaded file is too big")), t, w)
      | inl form =>
          let '(res, w) := form_loop t renameFile uploadDir (File form) uploadedFiles w in
          (res, t, w)
      end
  end.

(** [t.UploadOneFile(r, uploadDir, rename...)]: [files[0]] panics when
    [files] is empty. *)
Definition UploadOneFile (t : Tools) (r : Request) (uploadDir : string)
    (rename : list bool) (w : World)
  : outcome (option UploadedFile * option error) * Tools * World :=
  let renameFile := renameFile_of rename in
  let '((files, err), t, w) := UploadFiles t r uploadDir [renameFile] w in
  match err with
  | Some e => (Returns (None, Some e), t, w)
  | None =>
      match files with
      | [] => (Panics "runtime error: index out of range [0] with length 0", t, w)
      | f :: _ => (Returns (Some f, None), t, w)
      end
  end.

(** ** Slugify *)

(** Whether every byte of [s] is below [utf8.RuneSelf]. *)
Definition isASCII (s : string) : bool :=
  forallb (fun c => (N_of_ascii c <? 128)%N) (list_ascii_of_string s).

(** Lower-casing byte by byte, the path [strings.ToLower] takes for a
    string of ASCII bytes. *)
Fixpoint ToLower_bytes (s : string) : string :=
  match s with
  | EmptyString => EmptyString
  | String c s' => String (to_lower c) (ToLower_bytes s')
  end.

(** The character class [[a-z\d]]. *)
Definition in_a_z_or_digit (c : ascii) : bool :=
  let n := N_of_ascii c in
  (((97 <=? n) && (n <=? 122)) || ((48 <=? n) && (n <=? 57)))%N.

(** The scan of [re.ReplaceAllString(src, repl)] for the expression
    [[^a-z\d]+]: every maximal run of characters outside the class is one
    match and is replaced by [repl]; [in_match] tells whether the
    character before belongs to a match.  The scan goes byte by byte: the
    bytes of a code point outside ASCII are all outside the class, so
    they fall into one run, as the code point does. *)
Fixpoint ReplaceAllString_scan (src repl : string) (in_match : bool) : string :=
  match src with
  | EmptyString => EmptyString
  | String c src' =>
      if in_a_z_or_digit c then String c (ReplaceAllString_scan src' repl false)
      else if in_match then ReplaceAllString_scan src' repl true
      else repl +:+ ReplaceAllString_scan src' repl true
  end.

Definition re_ReplaceAllString (src repl : string) : string :=
  ReplaceAllString_scan src repl false.

Definition in_cutset (c : ascii) (cutset : string) : bool :=
  existsb (Ascii.eqb c) (list_ascii_of_string cutset).

(** [strings.TrimLeft(s, cutset)]. *)
Fixpoint strings_TrimLeft (s cutset : string) : string :=
  match s with
  | EmptyString => EmptyString
  | String c s' => if in_cutset c cutset then strings_TrimLeft s' cutset else s
  end.

(** [strings.TrimRight(s, cutset)]. *)
Fixpoint strings_TrimRight (s cutset : string) : string :=
  match s with
  | EmptyString => EmptyString
  | String c s' =>
      match strings_TrimRight s' cutset with
      | EmptyString => if in_cutset c cutset then EmptyString else String c EmptyString
      | r => String c r
      end
  end.

(** [strings.Trim(s, cutset)]: [s] without the leading and trailing
    characters that are in [cutset]. *)
Definition strings_Trim (s cutset : string) : string :=
  strings_TrimLeft (strings_TrimRight s cutset) cutset.

(** [strings.ToLower] hands a string with a byte outside ASCII to
    [strings.Map(unicode.ToLower, s)].  The Unicode tables are not
    modelled: that path is the parameter [unicode_ToLower], about which
    nothing is assumed. *)
Section Slugify.

Variable unicode_ToLower : string -> string.

(** [strings.ToLower(s)]. *)
Definition strings_ToLower (s : string) : string :=
  if isASCII s then ToLower_bytes s else unicode_ToLower s.

(** [t.Slugify(s)].  The receiver is not used. *)
Definition Slugify (s : string) : string * option error :=
  if String.eqb s "" then ("", Some (errors_New "empty string not permitted"))
  else
    let slug := strings_Trim (re_ReplaceAllString (strings_ToLower s) "-") "-" in
    if (String.length slug =? 0)%nat
    then ("", Some (errors_New "after removing characters, slug is zero length"))
    else (slug, None).

End Slugify.

(** ** package net/http: the response *)

Definition newline : string := String "010"%char "".

(** [err.Error()].  The texts of the system errors are those of Linux. *)
Definition Errno_Error (errno : Errno) : string :=
  match errno with
  | ENOENT => "no such file or directory"
  | ENOTDIR => "not a directory"
  | EISDIR => "is a directory"
  | EACCES => "permission denied"
  end.

Definition error_Error (e : error) : string :=
  match e with
  | errors_New msg => msg
  | io_EOF => "EOF"
  | PathError op path errno => op +:+ " " +:+ path +:+ ": " +:+ Errno_Error errno
  | ErrMessageTooLarge => "multipart: message too large"
  end.

(** An [http.ResponseWriter]: the header map, the status code once the
    header has been written, the bytes the handler has written to the
    body, and the error of the connection, if it is broken.  The keys the
    package uses are in canonical form already.  The headers a server
    adds when it sends the response (the date, the length, a sniffed
    content type) are not modelled. *)
Record ResponseWriter := mkResponseWriter {
  HeaderMap : gmap string (list string);
  Code : option Z;
  Body : string;
  broken : option error
}.

(** [w.Header().Set(key, value)] and [w.Header().Del(key)]. *)
Definition Header_Set (w : ResponseWriter) (key value : string) : ResponseWriter :=
  {| HeaderMap := <[key := [value]]> (HeaderMap w); Code := Code w; Body := Body w;
     broken := broken w |}.

Definition Header_Del (w : ResponseWriter) (key : string) : ResponseWriter :=
  {| HeaderMap := delete key (HeaderMap w); Code := Code w; Body := Body w;
     broken := broken w |}.

(** The status codes a response with a body can have: [WriteHeader]
    panics on a code outside 100..999, an informational code (1xx) does
    not end the header, and [Write] refuses a body after 204 and 304
    with [http.ErrBodyNotAllowed]. *)
Definition allows_body (code : Z) : bool :=
  (200 <=? code) && (code <=? 999) && negb (code =? 204) && negb (code =? 304).

(** [w.WriteHeader(code)], for a [code] that [allows_body]: a second call
    is ignored.  What the library does with the other codes is not
    modelled; the statements about a status that is not a constant of the
    program require [allows_body] of it. *)
Definition WriteHeader (w : ResponseWriter) (code : Z) : ResponseWriter :=
  match Code w with
  | Some _ => w
  | None =>
      {| HeaderMap := HeaderMap w; Code := Some code; Body := Body w; broken := broken w |}
  end.

Definition StatusOK : Z := 200.
Definition StatusBadRequest : Z := 400.
Definition StatusMethodNotAllowed : Z := 405.

(** [w.Write(b)]: writes the header with [StatusOK] if it has not been
    written, then the bytes; the status written is one that
    [allows_body]. *)
Definition Write (w : ResponseWriter) (b : string) : option error * ResponseWriter :=
  let w := WriteHeader w StatusOK in
  match broken w with
  | Some e => (Some e, w)
  | None =>
      (None,
       {| HeaderMap := HeaderMap w; Code := Code w; Body := Body w +:+ b;
          broken := broken w |})
  end.

(** [http.Error(w, error, code)], as of Go 1.23: the length of some other
    content is taken back before the error is written. *)
Definition http_Error (w : ResponseWriter) (error : string) (code : Z) : ResponseWriter :=
  let w := Header_Del w "Content-Length" in
  let w := Header_Set w "Content-Type" "text/plain; charset=utf-8" in
  let w := Header_Set w "X-Content-Type-Options" "nosniff" in
  let w := WriteHeader w code in
  (Write w (error +:+ newline)).2.

(** ** The handlers of [app-upload] *)

(** The request a handler receives: its method, and the rest of it as
    [UploadFiles] reads it. *)
Record Incoming := mkIncoming {
  Method : string;
  request : Request
}.

(** What a handler leaves behind: whether it returned, the response, the
    standard output of the process, and the world. *)
Record Served := mkServed {
  result : outcome unit;
  response : ResponseWriter;
  stdout : string;
  after : World
}.

(** [strconv.Itoa] on a length. *)
Definition Itoa (n : nat) : string := NilEmpty.string_of_uint (Nat.to_uint n).

(** The policy both handlers work with. *)
Definition handler_tools : Tools :=
  {| MaxFileSize := 1024 * 1024 * 1024;
     AllowedFileTypes := ["image/jpeg"; "image/png"; "image/gif"];
     MaxJSONSize := 0; AllowUnknownFields := false |}.

(** The line [uploadFiles] writes for a file. *)
Definition uploaded_line (item : UploadedFile) : string :=
  "Uploaded " +:+ OriginalFileName item +:+ " to the uploads folder, renamed to "
  +:+ NewFileName item +:+ newline.

(** [uploadFiles(w, r)]. *)
Definition uploadFiles (w : ResponseWriter) (r : Incoming) (out0 : string) (world : World)
  : Served :=
  if negb (String.eqb (Method r) "POST")
  then {| result := Returns tt;
          response := http_Error w "Method not allowed" StatusMethodNotAllowed;
          stdout := out0; after := world |}
  else
    let t := handler_tools in
    let '((files, err), _, world) := UploadFiles t (request r) "./uploads" [] world in
    match err with
    | Some e =>
        {| result := Returns tt;
           response := http_Error w (error_Error e) StatusBadRequest;
           stdout := out0; after := world |}
    | None =>
        let out := "" in
        let out0 := out0 +:+ Itoa (length files) +:+ newline in
        let out := fold_left (fun out item => out +:+ uploaded_line item) files out in
        {| result := Returns tt; response := (Write w out).2;
           stdout := out0; after := world |}
    end.

(** [uploadOneFile(w, r)]; a panic of [UploadOneFile] ends the handler,
    and so would [f.OriginalFileName] on a [nil] record. *)
Definition uploadOneFile (w : ResponseWriter) (r : Incoming) (out0 : string) (world : World)
  : Served :=
  if negb (String.eqb (Method r) "POST")
  then {| result := Returns tt;
          response := http_Error w "Method not allowed" StatusMethodNotAllowed;
          stdout := out0; after := world |}
  else
    let t := handler_tools in
    let '(res, _, world) := UploadOneFile t (request r) "./uploads" [] world in
    match res with
    | Panics msg =>
        {| result := Panics msg; response := w; stdout := out0; after := world |}
    | Returns (_, Some e) =>
        {| result := Returns tt;
           response := http_Error w (error_Error e) StatusBadRequest;
           stdout := out0; after := world |}
    | Returns (None, None) =>
        {| result := Panics "invalid memory address or nil pointer dereference";
           response := w; stdout := out0; after := world |}
    | Returns (Some f, None) =>
        {| result := Returns tt;
           response :=
             (Write w ("Uploaded 1 file, " +:+ OriginalFileName f
                       +:+ ", to the uploads folder")).2;
           stdout := out0; after := world |}
    end.

(** ** WriteJSON and ErrorJSON

    [encoding/json] is not modelled: [any] stands for the values of type
    [interface{}], [json_Marshal] for [json.Marshal], and [to_any] for the
    conversion of a [JSONResponse] to [interface{}].  Nothing is assumed
    of them. *)
Section JSON.

Variable any : Type.
Variable json_Marshal : any -> string + error.

(** [JSONResponse]; [Data] is [nil] or a value. *)
Record JSONResponse := mkJSONResponse {
  Error : bool;
  Message : string;
  Data : option any
}.

Variable to_any : JSONResponse -> any.

(** [t.WriteJSON(w, status, data, headers...)].  The loop over
    [headers[0]] assigns to one key of the header map after the other. *)
Definition WriteJSON (w : ResponseWriter) (status : Z) (data : any)
    (headers : list (gmap string (list string))) : option error * ResponseWriter :=
  match json_Marshal data with
  | inr err => (Some err, w)
  | inl out =>
      let w :=
        match headers with
        | h0 :: _ =>
            {| HeaderMap := map_fold (fun key value hm => <[key := value]> hm)
                              (HeaderMap w) h0;
               Code := Code w; Body := Body w; broken := broken w |}
        | [] => w
        end in
      let w := Header_Set w "Content-Type" "application/json" in
      let w := WriteHeader w status in
      let '(err, w) := Write w out in
      match err with
      | Some e => (Some e, w)
      | None => (None, w)
      end
  end.

(** [t.ErrorJSON(w, err, status...)]. *)
Definition ErrorJSON (w : ResponseWriter) (err : error) (status : list Z)
  : option error * ResponseWriter :=
  let statusCode :=
    match status with
    | s :: _ => s
    | [] => StatusBadRequest
    end in
  let payload :=
    {| Error := true; Message := error_Error err; Data := None |} in
  WriteJSON w statusCode (to_any payload) [].

End JSON.

(** ** Certificates for the primes of the random source

    To run [RandomString] on a concrete random source, the numbers of the
    source have to be shown prime.  Small numbers are checked by trial
    division; a 64-bit number [N] is checked against a divisor [q] of
    [N - 1] that is prime and larger than the square root of [N], with a
    base [a] of the right order (Pocklington's criterion). *)

Fixpoint no_divisor_from (fuel : nat) (d n : Z) : bool :=
  match fuel with
  | O => false
  | S fuel' =>
      if n <? d * d then true
      else if n mod d =? 0 then false
      else no_divisor_from fuel' (d + 1) n
  end.

Definition prime_by_trial (n : Z) : bool :=
  (1 <? n) && no_divisor_from (S (Z.to_nat (Z.sqrt n))) 2 n.

Definition pocklington (N q R a : Z) : bool :=
  (N =? q * R + 1) && (0 <? R) && (N <? (q + 1) * (q + 1))
  && (Zpow_mod a (N - 1) N =? 1)
  && (Z.gcd (Zpow_mod a R N - 1) N =? 1).

(** ** Notions used in the statements *)

(** The buffer [UploadFiles] hands to the sniffer: 512 zero bytes whose
    front has been overwritten by the first bytes of the content. *)
Definition sniff_buffer (content : list byte) : list byte :=
  take 512 content ++ drop (length (take 512 content)) (replicate 512 x00).

(** The value of [allowed] after the check against [t.AllowedFileTypes]. *)
Definition type_allowed (t : Tools) (fileType : string) : bool :=
  if (0 <? length (AllowedFileTypes t))%nat
  then allowed_loop fileType (AllowedFileTypes t) false
  else true.

(** The name a file is stored under, and the world after it is chosen. *)
Definition stored_name (renameFile : bool) (hdr : FileHeader) (w : World) : string * World :=
  if renameFile
  then ((RandomString 25 w).1 +:+ filepath_Ext (Filename hdr), (RandomString 25 w).2)
  else (Filename hdr, w).

(** The record reported for a part stored under [name]. *)
Definition record_of (hdr : FileHeader) (name : string) : UploadedFile :=
  {| NewFileName := name;
     OriginalFileName := Filename hdr;
     FileSize := Z.of_nat (length (content hdr)) |}.

Definition ErrTypeNotPermitted : error :=
  errors_New "the uploaded file type is not permitted".

Definition ErrTooBig : error := errors_New "the uploaded file is too big".

(** What [upload_one] does, stage by stage, with the calls on the opened
    part worked out: the part is opened and its first bytes are read into a
    buffer of 512 zero bytes; the type sniffed from that buffer is checked;
    after the rewind the whole content is copied to the created file. *)
Definition upload_one_stages (t : Tools) (renameFile : bool) (uploadDir : string)
    (hdr : FileHeader) (uploadedFiles : list UploadedFile) (w : World)
  : (list UploadedFile * option error) * World :=
  match fault hdr with
  | Some (OpenFails e) => (([], Some e), w)
  | Some (ReadFails e) => (([], Some e), w)
  | _ =>
      match content hdr with
      | [] => (([], Some io_EOF), w)
      | _ =>
          if negb (type_allowed t (http_DetectContentType (sniff_buffer (content hdr))))
          then (([], Some ErrTypeNotPermitted), w)
          else
            match fault hdr with
            | Some (SeekFails e) => (([], Some e), w)
            | _ =>
                let '(name, w1) := stored_name renameFile hdr w in
                match os_Create (fs w1) (filepath_Join uploadDir name) with
                | (fs1, inr e) => (([], Some e), set_fs w1 fs1)
                | (fs1, inl outfile) =>
                    match fault hdr with
                    | Some (CopyFails k e) =>
                        (([], Some e),
                         set_fs w1 (file_Write fs1 outfile (take k (content hdr))))
                    | _ =>
                        ((uploadedFiles ++ [record_of hdr name], None),
                         set_fs w1 (file_Write fs1 outfile (content hdr)))
                    end
                end
            end
      end
  end.

(** The policy [UploadFiles] works with and leaves behind: a
    [MaxFileSize] of 0 is replaced by 1 GiB. *)
Definition effective_policy (t : Tools) : Tools :=
  if MaxFileSize t =? 0
  then {| MaxFileSize := 1024 * 1024 * 1024;
          AllowedFileTypes := AllowedFileTypes t;
          MaxJSONSize := MaxJSONSize t;
          AllowUnknownFields := AllowUnknownFields t |}
  else t.

(** What holds of the name in a record: with renaming, 25 characters of
    the source followed by the extension of the original name, and a name
    other than the original one at least when the original name is not 25
    characters longer than its extension; without renaming, the original
    name. *)
Definition name_as_designed (renameFile : bool) (rec : UploadedFile) : Prop :=
  if renameFile
  then exists id,
         NewFileName rec = id +:+ filepath_Ext (OriginalFileName rec) /\
         String.length id = 25%nat /\
         (forall i c, String.get i id = Some c ->
                      exists k, String.get k randomStringSource = Some c) /\
         (String.length (OriginalFileName rec)
            <> (25 + String.length (filepath_Ext (OriginalFileName rec)))%nat ->
          NewFileName rec <> OriginalFileName rec)
  else NewFileName rec = OriginalFileName rec.

(** A well-formed tree: every entry has a name and lies in a directory. *)
Definition wf_fs (fs : gmap (list string) node) : Prop :=
  forall key n, fs !! key = Some n ->
    key <> [] /\ exists pm, node_at fs (removelast key) = Some (Dir pm).

(** Every directory can be written to by its owner. *)
Definition dirs_writable (fs : gmap (list string) node) : Prop :=
  forall key pm, fs !! key = Some (Dir pm) -> owner_writable pm = true.

(** The parts of a body that become file headers: those with a field
    name and a file name. *)
Definition is_file_part (p : Part) : bool :=
  negb (String.eqb (FormName p) "") && negb (String.eqb (FileName p) "").

(** A file header holds what its part carries. *)
Definition header_of_part (hdr : FileHeader) (p : Part) : Prop :=
  Filename hdr = FileName p /\ Header hdr = PartHeader p /\
  content hdr = body p /\ fault hdr = storage_fault p.

(** The file headers of a form, in the order [UploadFiles] visits them. *)
Definition headers_of (form : Form) : list FileHeader :=
  concat (map snd (File form)).

(** *** Notions for paths *)

(** A path without a [..] element: on such a path the lexical resolution
    of the model is the one of the system. *)
Definition no_dotdot (path : string) : bool :=
  forallb (fun e => negb (String.eqb e "..")) (split_slash path "").

(** A path the system takes as it is written: it has no [..] element, no
    NUL byte, no element of more than 255 bytes, and fewer than 4096
    bytes in all, so that a lookup fails only on what the tree holds. *)
Definition plain_path (path : string) : bool :=
  no_dotdot path
  && forallb (fun e => (String.length e <=? 255)%nat) (split_slash path "")
  && forallb (fun c => negb (Ascii.eqb c Ascii.zero)) (list_ascii_of_string path)
  && (String.length path <? 4096)%nat.

(** Every directory of the tree can be searched by its owner, so that a
    lookup fails only where an entry is missing or is not a directory. *)
Definition dirs_searchable (fs : gmap (list string) node) : Prop :=
  forall key pm, fs !! key = Some (Dir pm) -> Z.testbit pm 6 = true.

(** The working directory can be written to by its owner.  This holds of
    every tree of the model; the statements that rest on it name it. *)
Definition root_writable (fs : gmap (list string) node) : Prop :=
  forall pm, node_at fs [] = Some (Dir pm) -> owner_writable pm = true.

(** *** Notions for Slugify *)

(** A well-formed slug: not empty, made of lower-case letters, digits and
    hyphens, with no hyphen at either end and no two hyphens in a row. *)
Definition well_formed_slug (s : string) : Prop :=
  s <> "" /\
  (forall i c, String.get i s = Some c -> in_a_z_or_digit c = true \/ c = "-"%char) /\
  String.get 0 s <> Some "-"%char /\
  String.get (String.length s - 1) s <> Some "-"%char /\
  (forall i, String.get i s = Some "-"%char -> String.get (S i) s <> Some "-"%char).

(** The letters and digits of a string, in order. *)
Fixpoint letters_and_digits (s : string) : string :=
  match s with
  | EmptyString => EmptyString
  | String c s' =>
      if in_a_z_or_digit c then String c (letters_and_digits s')
      else letters_and_digits s'
  end.

(** An ASCII letter or digit, of either case. *)
Definition is_alnum (c : ascii) : bool :=
  let n := N_of_ascii c in
  (((97 <=? n) && (n <=? 122)) || ((65 <=? n) && (n <=? 90))
   || ((48 <=? n) && (n <=? 57)))%N.

Fixpoint has_alnum (s : string) : bool :=
  match s with
  | EmptyString => false
  | String c s' => is_alnum c || has_alnum s'
  end.

(** The shape of a slug as recursive tests: its characters, its ends and
    its hyphens. *)
Fixpoint slug_chars (s : string) : bool :=
  match s with
  | EmptyString => true
  | String c s' => (in_a_z_or_digit c || Ascii.eqb c "-") && slug_chars s'
  end.

Definition starts_with_dash (s : string) : bool :=
  match s with
  | String c _ => Ascii.eqb c "-"
  | EmptyString => false
  end.

Fixpoint ends_with_dash (s : string) : bool :=
  match s with
  | EmptyString => false
  | String c EmptyString => Ascii.eqb c "-"
  | String _ s' => ends_with_dash s'
  end.

Fixpoint no_double_dash (s : string) : bool :=
  match s with
  | EmptyString => true
  | String c s' => negb (Ascii.eqb c "-" && starts_with_dash s') && no_double_dash s'
  end.

(** Whether a string is made of characters of the class only. *)
Fixpoint all_in_class (s : string) : bool :=
  match s with
  | EmptyString => true
  | String c s' => in_a_z_or_digit c && all_in_class s'
  end.

(** The ASCII letters and digits of a string, in order. *)
Fixpoint alnums (s : string) : string :=
  match s with
  | EmptyString => EmptyString
  | String c s' => if is_alnum c then String c (alnums s') else alnums s'
  end.

(** The words of a string: its maximal runs of characters of the class
    [[a-z\d]]; [cur] is the word being read. *)
Fixpoint split_words (s : string) (cur : string) : list string :=
  match s with
  | EmptyString => if String.eqb cur "" then [] else [cur]
  | String c s' =>
      if in_a_z_or_digit c then split_words s' (cur +:+ String c "")
      else if String.eqb cur "" then split_words s' ""
      else cur :: split_words s' ""
  end.

Definition words (s : string) : list string := split_words s "".

(** [strings.Join(elems, sep)]. *)
Fixpoint strings_Join (elems : list string) (sep : string) : string :=
  match elems with
  | [] => ""
  | [x] => x
  | x :: rest => x +:+ sep +:+ strings_Join rest sep
  end.

(** *** Notions for the uploads *)

(** A name that is a single path element: not empty, without a
    separator, and neither [.] nor [..]. *)
Definition plain_name (s : string) : bool :=
  forallb (fun c => negb (Ascii.eqb c "/")) (list_ascii_of_string s)
  && negb (String.eqb s "") && negb (String.eqb s ".") && negb (String.eqb s "..").

(** An entry that has kept its kind: a directory is the same directory,
    a regular file is a regular file. *)
Definition same_kind (n n' : node) : Prop :=
  match n with
  | Dir pm => n' = Dir pm
  | RegularFile _ => exists d, n' = RegularFile d
  end.

(** The places of the tree an upload to [uploadDir] is meant to write to:
    the directories on the way to [uploadDir], and the entries of
    [uploadDir] itself. *)
Definition upload_place (uploadDir : string) (key : list string) : Prop :=
  key `prefix_of` resolve uploadDir \/ exists x, key = resolve uploadDir ++ [x].

(** The file parts of a request. *)
Definition file_parts (r : Request) : list Part := List.filter is_file_part (Parts r).

(** Whether every file part of the request is kept in memory by
    [ParseMultipartForm] under the policy [t], so that no temporary file
    is made (a body that does not parse makes none either). *)
Definition no_temporary_file (t : Tools) (r : Request) : bool :=
  match ParseMultipartForm r (int64 (MaxFileSize (effective_policy t))) with
  | inl form => forallb (fun hdr => negb (tmpfile hdr)) (headers_of form)
  | inr _ => true
  end.

(** The errors the processing of a part can end in: a failure of the
    storage behind the part, [io.EOF] for a part without content, the
    refusal of the type of a part with content under a policy that names
    types, or an [open] error for the destination file. *)
Definition part_error (t : Tools) (p : Part) (e : error) : Prop :=
  storage_fault p = Some (OpenFails e) \/
  storage_fault p = Some (ReadFails e) \/
  storage_fault p = Some (SeekFails e) \/
  (exists k, storage_fault p = Some (CopyFails k e)) \/
  (body p = [] /\ e = io_EOF) \/
  (body p <> [] /\ AllowedFileTypes t <> [] /\ e = ErrTypeNotPermitted) \/
  (exists path errno, e = PathError "open" path errno).

(** What the processing of one part can do to the world, [dst] being the
    resolved destination and [k] the count of numbers its name takes:
    nothing; or the numbers are drawn and, at most, the regular file at
    [dst] is created in an existing directory or replaced. *)
Definition part_effect (dst : list string) (k : nat) (w w' : World) : Prop :=
  w' = w \/
  (primes w' = primes w /\ drawn w' = (drawn w + k)%nat /\
   (fs w' = fs w \/
    exists bs pm,
      fs w' = <[dst := RegularFile bs]> (fs w) /\ dst <> [] /\
      walk (fs w) [] (removelast dst) = inl (Dir pm) /\
      (fs w !! dst = None \/ exists d, fs w !! dst = Some (RegularFile d)))).

(** What is reported about a file: its original name and its size. *)
Definition record_summary (rec : UploadedFile) : string * Z :=
  (OriginalFileName rec, FileSize rec).

Definition part_summary (p : Part) : string * Z :=
  (FileName p, Z.of_nat (length (body p))).

Definition header_summary (hdr : FileHeader) : string * Z :=
  (Filename hdr, Z.of_nat (length (content hdr))).

(** What the processing of a file depends on: its name, its content and
    the faults of its storage. *)
Definition header_core (hdr : FileHeader) : string * list byte * option Fault :=
  (Filename hdr, content hdr, fault hdr).

Definition part_core (p : Part) : string * list byte * option Fault :=
  (FileName p, body p, storage_fault p).

(** The content types the table of [http_DetectContentType] holds a
    signature for. *)
Definition known_types : list string :=
  ["application/pdf"; "image/gif"; "image/png"; "image/jpeg"].

(** A policy that names known types only, in any case of the letters.
    For such a policy the decision on a part is the one made with the
    full table of Go: a part begins with the signature of an allowed type
    or it does not. *)
Definition known_policy (t : Tools) : Prop :=
  Forall (fun x => existsb (fun k => strings_EqualFold k x) known_types = true)
         (AllowedFileTypes t).

(** A part that [UploadFiles] accepts under the policy [t]: its storage
    works, it has content, and the type sniffed from the buffer is
    allowed. *)
Definition accepted (t : Tools) (c : string * list byte * option Fault) : Prop :=
  c.2 = None /\ c.1.2 <> [] /\
  type_allowed t (http_DetectContentType (sniff_buffer c.1.2)) = true.

(** Whether data begins with the signature of a GIF, PNG or JPEG
    image. *)
Definition has_image_signature (data : list byte) : bool :=
  hasPrefix data (bytes "GIF87a") || hasPrefix data (bytes "GIF89a")
  || hasPrefix data [x89; x50; x4e; x47; x0d; x0a; x1a; x0a]%byte
  || hasPrefix data [xff; xd8; xff]%byte.

(** The lines [uploadFiles] answers with, one for each record. *)
Fixpoint uploaded_lines (files : list UploadedFile) : string :=
  match files with
  | [] => ""
  | item :: rest => uploaded_line item +:+ uploaded_lines rest
  end.

(** ** Sample inputs

    Six 64-bit primes, one for each of the residues 1, 7, 27, 45, 53 and
    63 modulo 64, and a random source that returns them in turn. *)

Definition prime_r1 : Z := 17830683241228110401.
Definition prime_r7 : Z := 10874517245770311559.
Definition prime_r27 : Z := 18326747826202368859.
Definition prime_r45 : Z := 14021020353665103853.
Definition prime_r53 : Z := 10121462283972398389.
Definition prime_r63 : Z := 17593926186228925823.

Definition sample_primes : list Z :=
  [prime_r7; prime_r27; prime_r1; prime_r53; prime_r63; prime_r45].

Definition sample_source (i : nat) : Z := nth (i mod 6) sample_primes prime_r1.

(** An empty file system with the sample random source. *)
Definition sample_world : World :=
  {| fs := ∅; primes := sample_source; drawn := 0 |}.

(** A policy with every field left at its zero value. *)
Definition zero_tools : Tools :=
  {| MaxFileSize := 0; AllowedFileTypes := []; MaxJSONSize := 0;
     AllowUnknownFields := false |}.

(** The policy of the demo application, which accepts images. *)
Definition image_tools : Tools :=
  {| MaxFileSize := 1024 * 1024 * 1024;
     AllowedFileTypes := ["image/jpeg"; "image/png"; "image/gif"];
     MaxJSONSize := 0; AllowUnknownFields := false |}.

Definition request_of (parts : list Part) : Request :=
  {| ContentLength := 0; BodyError := None; Parts := parts |}.

(** A form field that is not a file. *)
Definition name_field : Part :=
  {| FormName := "name"; FileName := ""; PartHeader := [];
     body := bytes "holiday"; storage_fault := None |}.

(** A PNG file: the signature and an IHDR chunk header. *)
Definition png_bytes : list byte :=
  [x89; x50; x4e; x47; x0d; x0a; x1a; x0a; x00; x00; x00; x0d; x49; x48; x44; x52]%byte.

Definition png_part : Part :=
  {| FormName := "file"; FileName := "a.png";
     PartHeader := [("Content-Type", "image/png")];
     body := png_bytes; storage_fault := None |}.

(** A five-byte text file. *)
Definition hello_part : Part :=
  {| FormName := "file"; FileName := "hello.txt";
     PartHeader := [("Content-Type", "text/plain")];
     body := bytes "hello"; storage_fault := None |}.

(** A file without content. *)
Definition empty_part : Part :=
  {| FormName := "file"; FileName := "empty.txt";
     PartHeader := [("Content-Type", "text/plain")];
     body := []; storage_fault := None |}.

(** A policy that accepts plain text only. *)
Definition text_tools : Tools :=
  {| MaxFileSize := 1024 * 1024 * 1024;
     AllowedFileTypes := ["text/plain; charset=utf-8"];
     MaxJSONSize := 0; AllowUnknownFields := false |}.

(** A policy with a limit of four bytes. *)
Definition tiny_tools : Tools :=
  {| MaxFileSize := 4; AllowedFileTypes := []; MaxJSONSize := 0;
     AllowUnknownFields := false |}.

(** A random source that always returns the same prime, and a file
    whose name is the identifier that source leads to. *)
Definition constant_world : World :=
  {| fs := ∅; primes := fun _ => prime_r1; drawn := 0 |}.

Definition b_png_part : Part :=
  {| FormName := "file"; FileName := "bbbbbbbbbbbbbbbbbbbbbbbbb.png";
     PartHeader := [("Content-Type", "image/png")];
     body := png_bytes; storage_fault := None |}.

(** A world in which [uploads] is a regular file. *)
Definition file_world : World :=
  {| fs := {[ ["uploads"] := RegularFile (bytes "not a directory") ]};
     primes := sample_source; drawn := 0 |}.

(** A request part that carries a file with the given content. *)
Definition one_file (name : string) (cnt : list byte) : Part :=
  {| FormName := "file"; FileName := name; PartHeader := [];
     body := cnt; storage_fault := None |}.

(** A stand-in for the Unicode path of [strings.ToLower], which a string
    of ASCII bytes never takes. *)
Definition ascii_only (s : string) : string := s.

(** A world whose only entry is a directory that its owner cannot write
    to (mode 0555). *)
Definition read_only_world : World :=
  {| fs := {[ ["ro"] := Dir (5 * 64 + 5 * 8 + 5) ]};
     primes := sample_source; drawn := 0 |}.

(** Three PNG files under two form fields. *)
Definition three_files : list Part :=
  [ {| FormName := "file"; FileName := "a.png"; PartHeader := [];
       body := png_bytes; storage_fault := None |};
    {| FormName := "other"; FileName := "b.png"; PartHeader := [];
       body := png_bytes; storage_fault := None |};
    {| FormName := "file"; FileName := "c.png"; PartHeader := [];
       body := png_bytes; storage_fault := None |} ].

(** A response writer nothing has been written to. *)
Definition fresh_writer : ResponseWriter :=
  {| HeaderMap := ∅; Code := None; Body := ""; broken := None |}.

(** A stand-in for [json.Marshal] that writes an empty object for every
    value, for the samples. *)
Definition marshal_empty_object (_ : unit) : string + error := inl "{}".

(** * Properties *)

(** ** Primality certificates *)

Section Certificates.

Lemma no_divisor_from_sound fuel : forall d n,
  2 <= d -> no_divisor_from fuel d n = true ->
  forall k, d <= k -> k * k <= n -> ~ (k | n).
Proof.
  induction fuel as [|fuel IH]; intros d n Hd Hrun k Hk Hkk; simpl in Hrun.
  - discriminate.
  - destruct (n <? d * d) eqn:Hsq.
    + apply Z.ltb_lt in Hsq. nia.
    + destruct (n mod d =? 0) eqn:Hmod; [discriminate|].
      apply Z.eqb_neq in Hmod.
      destruct (Z.eq_dec k d) as [->|Hne].
      * intros Hdiv. apply Hmod. apply Z.mod_divide; [lia|exact Hdiv].
      * apply (IH (d + 1) n); [lia|exact Hrun|lia|exact Hkk].
Qed.

Lemma prime_by_trial_sound n : prime_by_trial n = true -> Z.prime n.
Proof.
  unfold prime_by_trial. intros H. apply andb_prop in H as [H1 H2].
  apply Z.ltb_lt in H1. split; [exact H1|].
  intros m Hm [c Hc].
  pose proof (no_divisor_from_sound _ _ _ (Z.le_refl 2) H2) as Hno.
  assert (Hcpos : 1 < c < n) by nia.
  destruct (Z_le_gt_dec (m * m) n) as [Hle|Hgt].
  - apply (Hno m); [lia|exact Hle|]. exists c. exact Hc.
  - apply (Hno c); [lia|nia|]. exists m. lia.
Qed.

Lemma exists_prime_divisor n : 1 < n -> exists p, Z.prime p /\ (p | n).
Proof.
  intros Hn. assert (H0 : 0 <= n) by lia. revert Hn.
  pattern n. apply Zlt_0_ind; [|exact H0].
  clear n H0. intros n IH _ Hn.
  destruct (prime_dec n) as [Hp|Hnp].
  - exists n. split; [apply prime_alt; exact Hp|apply Z.divide_refl].
  - destruct (not_prime_divide n Hn Hnp) as [m [Hm Hdiv]].
    destruct (IH m ltac:(lia) ltac:(lia)) as [p [Hp Hpm]].
    exists p. split; [exact Hp|]. eapply Z.divide_trans; eassumption.
Qed.

(** The exponents [e] with [a ^ e = 1] modulo [p] are closed under sums,
    multiples and, through Bezout's identity, greatest common divisors. *)

Lemma pow_mod_one_mul a p e k :
  1 < p -> 0 <= e -> 0 <= k -> a ^ e mod p = 1 -> a ^ (e * k) mod p = 1.
Proof.
  intros Hp He Hk E.
  rewrite Z.pow_mul_r by lia.
  rewrite <- Z.mod_pow_l. rewrite E. rewrite Z.pow_1_l by lia.
  apply Z.mod_small. lia.
Qed.

Lemma pow_mod_one_cancel a p v g :
  1 < p -> 0 <= v -> 0 <= g ->
  a ^ (v + g) mod p = 1 -> a ^ v mod p = 1 -> a ^ g mod p = 1.
Proof.
  intros Hp Hv Hg E1 E2.
  rewrite Z.pow_add_r in E1 by lia. rewrite Z.mul_mod in E1 by lia.
  rewrite E2, Z.mul_1_l, Z.mod_mod in E1 by lia. exact E1.
Qed.

Lemma bezout_nonneg e1 e2 :
  0 < e1 -> 0 < e2 ->
  exists u v, 0 <= u /\ 0 <= v /\ u * e1 = v * e2 + Z.gcd e1 e2.
Proof.
  intros H1 H2.
  destruct (Z.gcd_bezout e1 e2 (Z.gcd e1 e2) eq_refl) as [u0 [v0 Huv]].
  set (t := Z.abs u0 + Z.abs v0).
  exists (u0 + t * e2), (t * e1 - v0).
  repeat split; [nia|nia|lia].
Qed.

Lemma pow_mod_one_gcd a p e1 e2 :
  1 < p -> 0 < e1 -> 0 < e2 ->
  a ^ e1 mod p = 1 -> a ^ e2 mod p = 1 -> a ^ Z.gcd e1 e2 mod p = 1.
Proof.
  intros Hp H1 H2 E1 E2.
  destruct (bezout_nonneg e1 e2 H1 H2) as [u [v [Hu [Hv Huv]]]].
  pose proof (Z.gcd_nonneg e1 e2) as Hg.
  apply (pow_mod_one_cancel a p (v * e2)); [lia|nia|lia| |].
  - rewrite <- Huv. rewrite Z.mul_comm. apply pow_mod_one_mul; [lia|lia|lia|exact E1].
  - rewrite Z.mul_comm. apply pow_mod_one_mul; [lia|lia|lia|exact E2].
Qed.

Lemma mod_one_divisor x N p :
  1 < p -> 0 < N -> (p | N) -> x mod N = 1 -> x mod p = 1.
Proof.
  intros Hp HN Hdiv Hx.
  rewrite <- (Z.mod_mod_divide x N p Hdiv).
  rewrite Hx. apply Z.mod_small. lia.
Qed.

(** Every prime divisor of a number that passes the criterion is larger
    than [q]. *)
Lemma prime_divisor_large N q R a p :
  N = q * R + 1 -> Z.prime q -> 0 < R ->
  a ^ (N - 1) mod N = 1 ->
  Z.gcd (a ^ R mod N - 1) N = 1 ->
  Z.prime p -> (p | N) -> q < p.
Proof.
  intros HN Hq HR Hfer Hgcd Hp Hdiv.
  pose proof (Z.prime_ge_2 _ Hp) as Hp2.
  pose proof (Z.prime_ge_2 _ Hq) as Hq2.
  assert (HNpos : 0 < N) by nia.
  assert (E1 : a ^ (q * R) mod p = 1).
  { replace (q * R) with (N - 1) by lia.
    apply (mod_one_divisor _ N); [lia|lia|exact Hdiv|exact Hfer]. }
  assert (Hne : a ^ R mod p <> 1).
  { intros E. assert (Hd : (p | a ^ R mod N - 1)).
    { apply Z.mod_divide; [lia|].
      rewrite Zminus_mod. rewrite (Z.mod_mod_divide _ N p Hdiv).
      rewrite E. rewrite (Z.mod_small 1) by lia. reflexivity. }
    pose proof (Z.gcd_greatest _ _ _ Hd Hdiv) as Hg. rewrite Hgcd in Hg.
    apply Z.divide_1_r_nonneg in Hg; lia. }
  assert (Ha : a mod p <> 0).
  { intros Ha0. rewrite <- Z.mod_pow_l in E1. rewrite Ha0 in E1.
    rewrite Z.pow_0_l in E1 by nia. rewrite Z.mod_0_l in E1 by lia. discriminate. }
  pose proof (Z.fermat_nz p a Hp Ha) as E2.
  destruct (Z.eq_dec p 2) as [->|Hp3].
  { exfalso. apply Hne.
    assert (Hodd : a mod 2 = 1) by (pose proof (Z.mod_pos_bound a 2); lia).
    rewrite <- Z.mod_pow_l. rewrite Hodd. rewrite Z.pow_1_l by lia. reflexivity. }
  assert (Hg : a ^ Z.gcd (q * R) (p - 1) mod p = 1).
  { apply pow_mod_one_gcd; [lia|nia|lia|exact E1|exact E2]. }
  destruct (Z.BoolSpec_divide q (p - 1)) as [Hqd|Hnqd].
  - apply Z.divide_pos_le in Hqd; lia.
  - exfalso. apply Hne.
    assert (Hcop : Z.gcd q (p - 1) = 1) by (apply Z.coprime_prime_l; assumption).
    set (g := Z.gcd (q * R) (p - 1)) in *.
    assert (Hgq : Z.gcd g q = 1).
    { apply Z.gcd_unique; [lia|apply Z.divide_1_l|apply Z.divide_1_l|].
      intros d Hd1 Hd2. rewrite <- Hcop. apply Z.gcd_greatest; [exact Hd2|].
      eapply Z.divide_trans; [exact Hd1|]. apply Z.gcd_divide_r. }
    assert (HgR : (g | R)).
    { apply (Z.gauss g q R); [apply Z.gcd_divide_l|exact Hgq]. }
    destruct HgR as [m Hm].
    assert (Hgpos : 0 <= g) by apply Z.gcd_nonneg.
    assert (0 <= m) by nia.
    rewrite Hm, Z.mul_comm. apply pow_mod_one_mul; [lia|lia|lia|exact Hg].
Qed.

Theorem pocklington_sound N q R a :
  Z.prime q -> pocklington N q R a = true -> Z.prime N.
Proof.
  unfold pocklington. intros Hq H.
  repeat (apply andb_prop in H as [H ?]).
  apply Z.eqb_eq in H. apply Z.ltb_lt in H2, H3. apply Z.eqb_eq in H0, H1.
  pose proof (Z.prime_ge_2 _ Hq) as Hq2.
  assert (HN : 1 < N) by nia.
  rewrite Zpow_mod_correct in H0, H1 by lia.
  split; [exact HN|].
  intros n Hn [c Hc].
  assert (Hc1 : 1 < c) by nia.
  destruct (exists_prime_divisor n ltac:(lia)) as [p1 [Hp1 Hd1]].
  destruct (exists_prime_divisor c Hc1) as [p2 [Hp2 Hd2]].
  assert (q < p1).
  { apply (prime_divisor_large N q R a p1); try assumption.
    eapply Z.divide_trans; [exact Hd1|]. exists c. exact Hc. }
  assert (q < p2).
  { apply (prime_divisor_large N q R a p2); try assumption.
    eapply Z.divide_trans; [exact Hd2|]. exists n. lia. }
  apply Z.divide_pos_le in Hd1; [|lia].
  apply Z.divide_pos_le in Hd2; [|lia].
  nia.
Qed.

End Certificates.

(** ** The sample random source *)

Lemma prime_r1_prime : Z.prime prime_r1.
Proof.
  apply (pocklington_sound _ 6032752511 2955646400 2); [|vm_compute; reflexivity].
  apply (pocklington_sound _ 738403 8170 2); [|vm_compute; reflexivity].
  apply prime_by_trial_sound. vm_compute. reflexivity.
Qed.

Lemma prime_r7_prime : Z.prime prime_r7.
Proof.
  apply (pocklington_sound _ 6002183027 1811760354 2); [|vm_compute; reflexivity].
  apply (pocklington_sound _ 252341 23786 2); [|vm_compute; reflexivity].
  apply prime_by_trial_sound. vm_compute. reflexivity.
Qed.

Lemma prime_r27_prime : Z.prime prime_r27.
Proof.
  apply (pocklington_sound _ 5174828521 3541517898 2); [|vm_compute; reflexivity].
  apply (pocklington_sound _ 138661 37320 2); [|vm_compute; reflexivity].
  apply prime_by_trial_sound. vm_compute. reflexivity.
Qed.

Lemma prime_r45_prime : Z.prime prime_r45.
Proof.
  apply (pocklington_sound _ 8416442387 1665908196 2); [|vm_compute; reflexivity].
  apply (pocklington_sound _ 289603 29062 2); [|vm_compute; reflexivity].
  apply prime_by_trial_sound. vm_compute. reflexivity.
Qed.

Lemma prime_r53_prime : Z.prime prime_r53.
Proof.
  apply (pocklington_sound _ 5783830607 1749958284 2); [|vm_compute; reflexivity].
  apply (pocklington_sound _ 400931 14426 2); [|vm_compute; reflexivity].
  apply prime_by_trial_sound. vm_compute. reflexivity.
Qed.

Lemma prime_r63_prime : Z.prime prime_r63.
Proof.
  apply (pocklington_sound _ 5662422719 3107137538 2); [|vm_compute; reflexivity].
  apply (pocklington_sound _ 334619 16922 2); [|vm_compute; reflexivity].
  apply prime_by_trial_sound. vm_compute. reflexivity.
Qed.

Lemma sample_primes_ok : Forall (is_Prime_of 64) sample_primes.
Proof.
  assert (Hbits : forall p, (2 ^ 63 <=? p) && (p <? 2 ^ 64) = true ->
                            2 ^ (Z.of_nat 64 - 1) <= p < 2 ^ Z.of_nat 64).
  { intros p Hp. apply andb_prop in Hp as [H1 H2].
    apply Z.leb_le in H1. apply Z.ltb_lt in H2.
    change (Z.of_nat 64 - 1) with 63. change (Z.of_nat 64) with 64. lia. }
  unfold sample_primes.
  repeat apply Forall_cons_2; [| | | | | |apply Forall_nil_2];
    (split; [|apply Hbits; vm_compute; reflexivity]).
  - exact prime_r7_prime.
  - exact prime_r27_prime.
  - exact prime_r1_prime.
  - exact prime_r53_prime.
  - exact prime_r63_prime.
  - exact prime_r45_prime.
Qed.

Lemma sample_source_ok i : is_Prime_of 64 (sample_source i).
Proof.
  unfold sample_source.
  assert (Hlt : (i mod 6 < length sample_primes)%nat)
    by (change (length sample_primes) with 6%nat; apply Nat.mod_upper_bound; discriminate).
  destruct (nth_lookup_or_length sample_primes (i mod 6) prime_r1) as [Hl|Hl]; [|lia].
  eapply Forall_lookup_1; [exact sample_primes_ok|exact Hl].
Qed.

(** ** RandomString *)

Lemma get_string_of_list_ascii (l : list ascii) (i : nat) :
  String.get i (string_of_list_ascii l) = l !! i.
Proof.
  revert i. induction l as [|c l IH]; intros [|i]; simpl; try reflexivity.
  apply IH.
Qed.

Lemma get_list_ascii_of_string (s : string) (i : nat) :
  String.get i s = list_ascii_of_string s !! i.
Proof.
  rewrite <- (string_of_list_ascii_of_string s) at 1.
  apply get_string_of_list_ascii.
Qed.

(** What the loop of [RandomString] leaves behind: [n] characters, the
    [i]-th of them picked by the [i]-th number drawn, and a world that
    differs only in the count of numbers drawn. *)
Lemma RandomString_loop_spec (r : list ascii) (n : nat) : forall w,
  let res := RandomString_loop r n w in
  length res.1 = n /\
  fs res.2 = fs w /\ primes res.2 = primes w /\ drawn res.2 = (drawn w + n)%nat /\
  forall i, (i < n)%nat ->
    res.1 !! i =
    Some (nth (Z.to_nat (Uint64 (primes w (drawn w + i)%nat) mod Z.of_nat (length r)))
              r "000"%char).
Proof.
  induction n as [|n IH]; intros w; simpl.
  - repeat split; try lia; intros i Hi; lia.
  - specialize (IH {| fs := fs w; primes := primes w; drawn := S (drawn w) |}).
    destruct (RandomString_loop r n _) as [s w2]. simpl in *.
    destruct IH as (Hlen & Hfs & Hpr & Hdr & Hnth).
    repeat split; try (simpl; congruence); try (simpl; lia).
    intros [|i] Hi; simpl.
    + rewrite Nat.add_0_r. reflexivity.
    + rewrite Hnth by lia. repeat f_equal. lia.
Qed.

Lemma RandomString_world (n : nat) (w : World) :
  (RandomString n w).2 = {| fs := fs w; primes := primes w; drawn := (drawn w + n)%nat |}.
Proof.
  unfold RandomString.
  pose proof (RandomString_loop_spec (list_ascii_of_string randomStringSource) n w) as H.
  destruct (RandomString_loop _ n w) as [s [f p d]]. simpl in *.
  destruct H as (_ & -> & -> & -> & _). reflexivity.
Qed.

Lemma RandomString_length (n : nat) (w : World) :
  String.length (RandomString n w).1 = n.
Proof.
  unfold RandomString.
  pose proof (RandomString_loop_spec (list_ascii_of_string randomStringSource) n w) as H.
  destruct (RandomString_loop _ n w) as [s w']. simpl in *.
  destruct H as (Hlen & _).
  rewrite <- Hlen. clear. induction s; simpl; congruence.
Qed.

(** Every character of the result is read from the source, at the index
    given by the number drawn for its position. *)
Lemma RandomString_get (n : nat) (w : World) (i : nat) :
  (i < n)%nat ->
  String.get i (RandomString n w).1 =
  String.get (Z.to_nat (Uint64 (primes w (drawn w + i)%nat) mod 64)) randomStringSource.
Proof.
  intros Hi. unfold RandomString.
  pose proof (RandomString_loop_spec (list_ascii_of_string randomStringSource) n w) as H.
  destruct (RandomString_loop _ n w) as [s w']. simpl fst in *.
  destruct H as (_ & _ & _ & _ & Hnth).
  rewrite get_string_of_list_ascii, (Hnth i Hi), get_list_ascii_of_string.
  change (Z.of_nat (length (list_ascii_of_string randomStringSource))) with 64.
  set (k := Z.to_nat _).
  assert (Hk : (k < 64)%nat).
  { subst k. pose proof (Z.mod_pos_bound (Uint64 (primes w (drawn w + i)%nat)) 64). lia. }
  symmetry.
  destruct (nth_lookup_or_length (list_ascii_of_string randomStringSource) k "000"%char)
    as [Hl|Hl]; [exact Hl|].
  change (length (list_ascii_of_string randomStringSource)) with 64%nat in Hl. lia.
Qed.

Lemma prime_of_64_bits_odd (p : Z) :
  is_Prime_of 64 p -> Z.odd (Uint64 p mod 64) = true.
Proof.
  intros [Hp Hr].
  assert (Hr' : 9223372036854775808 <= p < 18446744073709551616) by exact Hr.
  unfold Uint64. change (2 ^ 64) with 18446744073709551616.
  rewrite (Z.mod_small p) by lia.
  rewrite Zodd_mod. apply Z.eqb_eq.
  rewrite (Z.mod_mod_divide p 64 2) by (exists 32; reflexivity).
  destruct Hp as [_ Hnd].
  pose proof (Z.mod_pos_bound p 2 ltac:(lia)) as Hb.
  destruct (Z.eq_dec (p mod 2) 0) as [H0|H0]; [|lia].
  exfalso. apply (Hnd 2); [lia|]. apply Z.mod_divide; [lia|exact H0].
Qed.

Lemma randomStringSource_NoDup : NoDup (list_ascii_of_string randomStringSource).
Proof. apply (bool_decide_unpack _). vm_compute. exact I. Qed.

Lemma Z_odd_of_nat (n : nat) : Z.odd (Z.of_nat n) = Nat.odd n.
Proof.
  induction n as [|n IH]; [reflexivity|].
  rewrite Nat2Z.inj_succ, Z.odd_succ, Nat.odd_succ.
  rewrite <- Z.negb_odd, <- Nat.negb_odd. congruence.
Qed.

(** The index read for a position: below 64 and odd. *)
Lemma RandomString_index_odd (w : World) (i : nat) :
  is_Prime_of 64 (primes w (drawn w + i)%nat) ->
  let k := Z.to_nat (Uint64 (primes w (drawn w + i)%nat) mod 64) in
  (k < 64)%nat /\ Nat.odd k = true.
Proof.
  intros Hp. cbv zeta.
  pose proof (prime_of_64_bits_odd _ Hp) as Hodd.
  set (x := Uint64 (primes w (drawn w + i)%nat) mod 64) in *.
  assert (Hx : 0 <= x < 64) by (apply Z.mod_pos_bound; lia).
  split; [lia|].
  rewrite <- Z_odd_of_nat. rewrite Z2Nat.id by lia. exact Hodd.
Qed.

(** No position holds a character of an even index of the source. *)
Lemma RandomString_no_even (n : nat) (w : World) (i j : nat) :
  is_Prime_of 64 (primes w (drawn w + i)%nat) ->
  (i < n)%nat -> Nat.even j = true ->
  String.get i (RandomString n w).1 <> String.get j randomStringSource.
Proof.
  intros Hp Hi Hj Heq.
  destruct (RandomString_index_odd w i Hp) as [Hk Hkodd].
  rewrite (RandomString_get n w i Hi), !get_list_ascii_of_string in Heq.
  set (k := Z.to_nat _) in *.
  destruct (lookup_lt_is_Some_2 (list_ascii_of_string randomStringSource) k) as [c Hc].
  { change (length (list_ascii_of_string randomStringSource)) with 64%nat. exact Hk. }
  rewrite Hc in Heq. symmetry in Heq.
  pose proof (NoDup_lookup _ _ _ _ randomStringSource_NoDup Hc Heq) as Hkj.
  subst j. rewrite <- Nat.negb_odd, Hkodd in Hj. discriminate.
Qed.

(** C10: when the random source returns 64-bit primes, the character at each
    position of [RandomString n] sits at an odd index of
    [randomStringSource]; no character of an even index appears, so [a],
    [c], [0] and [_] are never produced. *)
Theorem RandomString_odd_index (n : nat) (w : World) :
  (forall i, is_Prime_of 64 (primes w i)) ->
  forall i, (i < n)%nat ->
    (exists k, (k < 64)%nat /\ Nat.odd k = true /\
       String.get i (RandomString n w).1 = String.get k randomStringSource) /\
    (forall j, Nat.even j = true ->
       String.get i (RandomString n w).1 <> String.get j randomStringSource) /\
    (forall c, In c ["a"; "c"; "0"; "_"]%char ->
       String.get i (RandomString n w).1 <> Some c).
Proof.
  intros Hsrc i Hi.
  destruct (RandomString_index_odd w i (Hsrc _)) as [Hk Hkodd].
  pose proof (fun j => RandomString_no_even n w i j (Hsrc _) Hi) as Heven.
  split; [|split; [exact Heven|]].
  - eexists. split; [exact Hk|]. split; [exact Hkodd|]. apply RandomString_get. exact Hi.
  - intros c Hc. simpl in Hc. destruct Hc as [<-|[<-|[<-|[<-|[]]]]].
    + apply (Heven 0%nat). reflexivity.
    + apply (Heven 2%nat). reflexivity.
    + apply (Heven 52%nat). reflexivity.
    + apply (Heven 62%nat). reflexivity.
Qed.

Lemma RandomString_odd_index_witness :
  (5 < 25)%nat /\
  RandomString 25 sample_world = ("hBb1+ThBb1+ThBb1+ThBb1+Th",
     {| fs := ∅; primes := sample_source; drawn := 25 |}) /\
  String.get 5 (RandomString 25 sample_world).1 <> Some "a"%char.
Proof.
  split; [lia|]. split; [vm_compute; reflexivity|].
  apply (RandomString_odd_index 25 sample_world sample_source_ok 5%nat); [lia|].
  left. reflexivity.
Defined.

(** The same holds of the identifier at the head of a name chosen with
    renaming on; the extension that follows it is the client's. *)
Lemma stored_name_no_even (hdr : FileHeader) (w : World) (i j : nat) :
  (forall i, is_Prime_of 64 (primes w i)) ->
  (i < 25)%nat -> Nat.even j = true ->
  String.get i (stored_name true hdr w).1 <> String.get j randomStringSource.
Proof.
  intros Hsrc Hi Hj. unfold stored_name. cbn [fst].
  rewrite <- append_correct1 by (rewrite RandomString_length; exact Hi).
  apply RandomString_no_even; auto.
Qed.

(** ** The function called for each file *)

Lemma stored_name_eq (rn : bool) (hdr : FileHeader) (w : World) :
  (if rn
   then let '(rs, w') := RandomString 25 w in (rs +:+ filepath_Ext (Filename hdr), w')
   else (Filename hdr, w)) = stored_name rn hdr w.
Proof.
  unfold stored_name. destruct rn; [|reflexivity].
  destruct (RandomString 25 w); reflexivity.
Qed.

Lemma File_Read_first (content : list byte) (flt : option Fault) :
  File_Read {| data := content; off := 0; open_fault := flt |} (replicate 512 x00) =
  match flt with
  | Some (ReadFails e) =>
      ((replicate 512 x00, 0, Some e), {| data := content; off := 0; open_fault := flt |})
  | _ =>
      match content with
      | [] => ((replicate 512 x00, 0, Some io_EOF),
               {| data := content; off := 0; open_fault := flt |})
      | _ => ((sniff_buffer content, Z.of_nat (length (take 512 content)), None),
              {| data := content; off := length (take 512 content); open_fault := flt |})
      end
  end.
Proof.
  unfold File_Read, sniff_buffer. cbn [data off open_fault].
  rewrite drop_0, length_replicate.
  destruct flt as [[]|]; destruct content; reflexivity.
Qed.

Lemma File_Seek_start (f : OpenFile) :
  File_Seek f 0 0 =
  match open_fault f with
  | Some (SeekFails e) => ((0, Some e), f)
  | _ => ((0, None), {| data := data f; off := 0; open_fault := open_fault f |})
  end.
Proof. unfold File_Seek. destruct (open_fault f) as [[]|]; reflexivity. Qed.

Lemma io_Copy_start fs dst (content : list byte) (flt : option Fault) :
  io_Copy fs dst {| data := content; off := 0; open_fault := flt |} =
  match flt with
  | Some (CopyFails k e) =>
      ((Z.of_nat (length (take k content)), Some e), file_Write fs dst (take k content))
  | _ => ((Z.of_nat (length content), None), file_Write fs dst content)
  end.
Proof.
  unfold io_Copy. cbn [data off open_fault]. rewrite drop_0.
  destruct flt as [[]|]; reflexivity.
Qed.

Ltac same_sides :=
  lazymatch goal with |- ?a = ?b => constr_eq a b; exact (eq_refl a) end.

Ltac upload_one_tail rn hdr w dir :=
  rewrite File_Seek_start; cbn [open_fault data off]; cbv beta iota zeta;
  first
    [ same_sides
    | rewrite stored_name_eq; destruct (stored_name rn hdr w) as [name w1];
      destruct (os_Create (fs w1) (filepath_Join dir name)) as [fs1 [h|e]];
      cbv beta iota zeta;
      first [ same_sides | rewrite io_Copy_start; cbv beta iota zeta; same_sides ] ].

(** The function literal of [UploadFiles] goes through the stages of
    [upload_one_stages]. *)
Lemma upload_one_eq t rn dir hdr acc w :
  upload_one t rn dir hdr acc w = upload_one_stages t rn dir hdr acc w.
Proof.
  unfold upload_one, upload_one_stages, FileHeader_Open, ErrTypeNotPermitted, record_of.
  destruct (fault hdr) as [flt|] eqn:Hf; [destruct flt as [eo|er|es|k ec]|];
    cbv beta iota zeta;
    first
      [ same_sides
      | rewrite File_Read_first; cbv beta iota zeta;
        first
          [ same_sides
          | destruct (content hdr) as [|b0 bs] eqn:Hc; cbv beta iota zeta;
            [same_sides|];
            fold (type_allowed t (http_DetectContentType (sniff_buffer (b0 :: bs))));
            (destruct (type_allowed t _); cbn [negb]; cbv beta iota zeta;
             [|same_sides]);
            upload_one_tail rn hdr w dir ] ].
Qed.

(** A failed call returns [nil]; a successful one appends the record of
    the part, which had content of an allowed type. *)
Lemma upload_one_result t rn dir hdr acc w :
  match (upload_one t rn dir hdr acc w).1.2 with
  | Some _ => (upload_one t rn dir hdr acc w).1.1 = []
  | None =>
      (upload_one t rn dir hdr acc w).1.1 = acc ++ [record_of hdr (stored_name rn hdr w).1]
      /\ content hdr <> []
      /\ type_allowed t (http_DetectContentType (sniff_buffer (content hdr))) = true
  end.
Proof.
  rewrite upload_one_eq. unfold upload_one_stages.
  destruct (fault hdr) as [[eo|er|es|k ec]|];
    try reflexivity;
    (destruct (content hdr) as [|b0 bs] eqn:Hc; [reflexivity|]);
    (destruct (type_allowed t _) eqn:Ha; cbn [negb]; [|reflexivity]);
    try reflexivity;
    destruct (stored_name rn hdr w) as [name w1];
    destruct (os_Create (fs w1) (filepath_Join dir name)) as [fs1 [h|e]];
    cbn [fst snd]; auto.
Qed.

Section Loops.

Variables (t : Tools) (rn : bool) (dir : string).

(** [P] is any property that the record of a stored part has. *)
Variable P : FileHeader -> UploadedFile -> Prop.
Hypothesis P_stored : forall hdr acc w,
  (upload_one t rn dir hdr acc w).1.2 = None ->
  P hdr (record_of hdr (stored_name rn hdr w).1).

Lemma headers_loop_result hdrs : forall acc w res e w',
  headers_loop t rn dir hdrs acc w = ((res, e), w') ->
  match e with
  | Some _ => res = []
  | None => exists recs, res = acc ++ recs /\ Forall2 P hdrs recs
  end.
Proof.
  induction hdrs as [|hdr hdrs IH]; intros acc w res e w' H; simpl in H.
  - injection H as <- <- <-. exists []. split; [symmetry; apply app_nil_r|constructor].
  - pose proof (upload_one_result t rn dir hdr acc w) as Hone.
    pose proof (P_stored hdr acc w) as HP.
    destruct (upload_one t rn dir hdr acc w) as [[res1 [e1|]] w1]; cbn [fst snd] in *.
    + injection H as <- <- <-. exact Hone.
    + destruct Hone as (-> & _ & _). specialize (HP eq_refl).
      specialize (IH _ _ _ _ _ H). destruct e as [e|]; [exact IH|].
      destruct IH as (recs & -> & Hrecs).
      exists (record_of hdr (stored_name rn hdr w).1 :: recs).
      split; [rewrite <- app_assoc; reflexivity|constructor; assumption].
Qed.

Lemma form_loop_result files : forall acc w res e w',
  form_loop t rn dir files acc w = ((res, e), w') ->
  match e with
  | Some _ => res = []
  | None => exists recs, res = acc ++ recs /\ Forall2 P (concat (map snd files)) recs
  end.
Proof.
  induction files as [|[name hdrs] files IH]; intros acc w res e w' H; simpl in H.
  - injection H as <- <- <-. exists []. split; [symmetry; apply app_nil_r|constructor].
  - destruct (headers_loop t rn dir hdrs acc w) as [[res1 [e1|]] w1] eqn:Hh.
    + injection H as <- <- <-. exact (headers_loop_result _ _ _ _ _ _ Hh).
    + pose proof (headers_loop_result _ _ _ _ _ _ Hh) as (recs1 & -> & Hrecs1).
      specialize (IH _ _ _ _ _ H). destruct e as [e|]; [exact IH|].
      destruct IH as (recs & -> & Hrecs).
      exists (recs1 ++ recs). split; [rewrite <- app_assoc; reflexivity|].
      simpl. apply Forall2_app; assumption.
Qed.

End Loops.

(** The shape of every result of [UploadFiles]: with an error the slice
    is [nil]; without one the form was parsed and the slice holds a record
    for each of its file headers, in order. *)
Lemma UploadFiles_result (P : FileHeader -> UploadedFile -> Prop) t r dir rename w :
  (forall t' hdr acc w0,
      (upload_one t' (renameFile_of rename) dir hdr acc w0).1.2 = None ->
      P hdr (record_of hdr (stored_name (renameFile_of rename) hdr w0).1)) ->
  let out := UploadFiles t r dir rename w in
  match out.1.1.2 with
  | Some _ => out.1.1.1 = []
  | None =>
      exists form,
        ParseMultipartForm r (int64 (MaxFileSize out.1.2)) = inl form /\
        Forall2 P (headers_of form) out.1.1.1
  end.
Proof.
  intros HP. unfold UploadFiles.
  set (t1 := if MaxFileSize t =? 0 then _ else t).
  destruct (CreateDirIfNotExist dir w) as [[e|] w1]; [reflexivity|].
  destruct (ParseMultipartForm r (int64 (MaxFileSize t1))) as [form|e] eqn:Hparse;
    [|reflexivity].
  destruct (form_loop t1 (renameFile_of rename) dir (File form) [] w1)
    as [[res e] w2] eqn:Hloop.
  cbn [fst snd].
  pose proof (form_loop_result t1 (renameFile_of rename) dir P (HP t1) _ _ _ _ _ _ Hloop) as H.
  destruct e as [e|]; [exact H|].
  destruct H as (recs & -> & Hrecs). exists form. split; [exact Hparse|exact Hrecs].
Qed.

(** ** The policy across a call *)

(** C9, as stated, fails: a call on a policy whose [MaxFileSize] is 0
    leaves a different policy behind. *)
Lemma UploadFiles_changes_zero_MaxFileSize :
  (UploadFiles zero_tools (request_of []) "uploads" [] sample_world).1.2 <> zero_tools /\
  MaxFileSize (UploadFiles zero_tools (request_of []) "uploads" [] sample_world).1.2
  = 1073741824.
Proof. split; [vm_compute; discriminate|vm_compute; reflexivity]. Qed.

(** C9, amended: [UploadFiles] never changes [AllowedFileTypes],
    [MaxJSONSize] and [AllowUnknownFields]; it leaves [MaxFileSize] as it
    is unless it is 0, and then sets it to 1 GiB. *)
Theorem UploadFiles_policy_after t r dir rename w :
  let t' := (UploadFiles t r dir rename w).1.2 in
  AllowedFileTypes t' = AllowedFileTypes t /\
  MaxJSONSize t' = MaxJSONSize t /\
  AllowUnknownFields t' = AllowUnknownFields t /\
  MaxFileSize t' = (if MaxFileSize t =? 0 then 1024 * 1024 * 1024 else MaxFileSize t).
Proof.
  unfold UploadFiles.
  destruct (CreateDirIfNotExist dir w) as [[e|] w1];
    [|destruct (ParseMultipartForm r _) as [form|e];
      [destruct (form_loop _ _ _ _ _ _) as [res w2]|]];
    cbn [fst snd]; destruct (MaxFileSize t =? 0) eqn:H0; auto.
Qed.

(** ** The slice returned with an error *)

(** C3, as stated, fails: the first part alone is stored and reported,
    but when a second part of a type that is not permitted follows, the
    slice returned with the error is empty although the first file has
    been written. *)
Lemma UploadFiles_drops_records_on_error :
  (UploadFiles image_tools (request_of [png_part]) "uploads" [false] sample_world).1.1
  = ([ {| NewFileName := "a.png"; OriginalFileName := "a.png"; FileSize := 16 |} ], None)
  /\
  (UploadFiles image_tools (request_of [png_part; hello_part]) "uploads" [false]
     sample_world).1.1
  = ([], Some ErrTypeNotPermitted)
  /\
  os_ReadFile
    (fs (UploadFiles image_tools (request_of [png_part; hello_part]) "uploads" [false]
           sample_world).2)
    "uploads/a.png" = Some png_bytes.
Proof. repeat split; vm_compute; reflexivity. Qed.

(** C3, amended: whenever [UploadFiles] returns an error, the slice it
    returns with it is [nil]. *)
Theorem UploadFiles_error_nil t r dir rename w e :
  (UploadFiles t r dir rename w).1.1.2 = Some e ->
  (UploadFiles t r dir rename w).1.1.1 = [].
Proof.
  intros He.
  pose proof (UploadFiles_result (fun _ _ => True) t r dir rename w
                (fun _ _ _ _ _ => I)) as H.
  cbv zeta in H. rewrite He in H. exact H.
Qed.

Lemma UploadFiles_error_nil_witness :
  (UploadFiles image_tools (request_of [png_part; hello_part]) "uploads" [false]
     sample_world).1.1.1 = [].
Proof.
  apply (UploadFiles_error_nil image_tools (request_of [png_part; hello_part])
           "uploads" [false] sample_world ErrTypeNotPermitted).
  vm_compute. reflexivity.
Defined.

(** ** UploadOneFile *)

(** [UploadOneFile] in terms of the result of [UploadFiles]. *)
Lemma UploadOneFile_eq t r dir rename w :
  UploadOneFile t r dir rename w =
  let out := UploadFiles t r dir [renameFile_of rename] w in
  (match out.1.1.2 with
   | Some e => Returns (None, Some e)
   | None =>
       match out.1.1.1 with
       | [] => Panics "runtime error: index out of range [0] with length 0"
       | f :: _ => Returns (Some f, None)
       end
   end, out.1.2, out.2).
Proof.
  unfold UploadOneFile.
  destruct (UploadFiles t r dir [renameFile_of rename] w) as [[[files [e|]] t1] w1];
    [reflexivity|destruct files; reflexivity].
Qed.

(** With at least one record and no error, the first record is returned. *)
Lemma UploadOneFile_first t r dir rename w f files :
  (UploadFiles t r dir [renameFile_of rename] w).1.1 = (f :: files, None) ->
  (UploadOneFile t r dir rename w).1.1 = Returns (Some f, None).
Proof. intros H. rewrite UploadOneFile_eq. cbn zeta. rewrite H. reflexivity. Qed.

(** Without records and without an error, indexing [files[0]] panics. *)
Lemma UploadOneFile_no_record t r dir rename w :
  (UploadFiles t r dir [renameFile_of rename] w).1.1 = ([], None) ->
  (UploadOneFile t r dir rename w).1.1 =
  Panics "runtime error: index out of range [0] with length 0".
Proof. intros H. rewrite UploadOneFile_eq. cbn zeta. rewrite H. reflexivity. Qed.

(** C2: on a well-formed request that carries a form field but no file,
    [UploadFiles] returns no record and no error, and [UploadOneFile]
    panics on [files[0]] where the claim asks for an error. *)
Theorem UploadOneFile_panics_without_file :
  (UploadFiles image_tools (request_of [name_field]) "uploads" [true] sample_world).1.1
  = ([], None) /\
  (UploadOneFile image_tools (request_of [name_field]) "uploads" [] sample_world).1.1
  = Panics "runtime error: index out of range [0] with length 0".
Proof. split; vm_compute; reflexivity. Qed.

(** ** The file system *)

Lemma node_at_insert_ne (fs : gmap (list string) node) (p q : list string) (n : node) :
  p <> q -> node_at (<[p := n]> fs) q = node_at fs q.
Proof.
  intros Hne. destruct q as [|e q]; [reflexivity|].
  unfold node_at. apply lookup_insert_ne. exact Hne.
Qed.

Lemma node_at_insert_eq (fs : gmap (list string) node) (p : list string) (n : node) :
  p <> [] -> node_at (<[p := n]> fs) p = Some n.
Proof.
  intros Hne. destruct p as [|e p]; [congruence|].
  unfold node_at. apply lookup_insert_eq.
Qed.

(** A lookup ends at the last element of the path. *)
Lemma walk_snoc fs (q : list string) (e : string) : forall cur,
  walk fs cur (q ++ [e]) =
  match walk fs cur q with
  | inl (Dir _) =>
      match node_at fs (cur ++ q ++ [e]) with
      | Some n => inl n
      | None => inr ENOENT
      end
  | inl (RegularFile _) => inr ENOTDIR
  | inr err => inr err
  end.
Proof.
  induction q as [|a q IH]; intros cur; simpl.
  - destruct (node_at fs cur) as [[pm|d]|]; reflexivity.
  - destruct (node_at fs cur) as [[pm|d]|]; try reflexivity.
    rewrite IH. rewrite <- app_assoc. reflexivity.
Qed.

(** A lookup does not see entries deeper than its path. *)
Lemma walk_insert_deeper fs (p : list string) (n : node) (rest : list string) : forall cur,
  (length (cur ++ rest) < length p)%nat ->
  walk (<[p := n]> fs) cur rest = walk fs cur rest.
Proof.
  induction rest as [|e rest IH]; intros cur Hlen; simpl.
  - rewrite node_at_insert_ne; [reflexivity|].
    intros ->. rewrite app_nil_r in Hlen. lia.
  - rewrite node_at_insert_ne.
    + destruct (node_at fs cur) as [[pm|d]|]; try reflexivity.
      apply IH. rewrite <- app_assoc. exact Hlen.
    + intros ->. rewrite length_app in Hlen. lia.
Qed.

(** The node stored at a path whose parent is a directory is found. *)
Lemma walk_insert_found fs (p : list string) (n : node) (pm : Z) :
  p <> [] ->
  walk fs [] (removelast p) = inl (Dir pm) ->
  walk (<[p := n]> fs) [] p = inl n.
Proof.
  intros Hne Hparent.
  rewrite (app_removelast_last "" Hne) at 2.
  rewrite walk_snoc.
  rewrite walk_insert_deeper, Hparent.
  - simpl app. rewrite <- (app_removelast_last "" Hne).
    rewrite node_at_insert_eq by exact Hne. reflexivity.
  - simpl app. rewrite (app_removelast_last "" Hne) at 2.
    rewrite length_app. simpl. lia.
Qed.

(** What a successful [os.Create] has done. *)
Lemma os_Create_ok fs name fs1 handle :
  os_Create fs name = (fs1, inl handle) ->
  name <> "" /\ handle = resolve name /\ handle <> [] /\
  fs1 = <[handle := RegularFile []]> fs /\
  exists pm, walk fs [] (removelast handle) = inl (Dir pm).
Proof.
  unfold os_Create.
  destruct (String.eqb name "") eqn:Hname; [congruence|].
  apply String.eqb_neq in Hname.
  destruct (resolve name) as [|e p] eqn:Hres; [congruence|].
  destruct (walk fs [] (removelast (e :: p))) as [[pm|d]|err] eqn:Hwalk; try congruence.
  destruct (fs !! (e :: p)) as [[pm'|d]|] eqn:Hlook; try congruence.
  - intros H. injection H as <- <-. repeat split; try congruence. eauto.
  - destruct (owner_writable pm); [|congruence].
    intros H. injection H as <- <-. repeat split; try congruence. eauto.
Qed.

Lemma file_Write_created (fs : gmap (list string) node) (handle : list string) (bs : list byte) :
  file_Write (<[handle := RegularFile []]> fs) handle bs = <[handle := RegularFile bs]> fs.
Proof.
  unfold file_Write. rewrite lookup_insert_eq. simpl app.
  apply insert_insert_eq.
Qed.

(** Reading back a file that has just been created and written. *)
Lemma os_ReadFile_written fs name fs1 handle (bs : list byte) :
  os_Create fs name = (fs1, inl handle) ->
  os_ReadFile (file_Write fs1 handle bs) name = Some bs.
Proof.
  intros Hc. apply os_Create_ok in Hc as (Hname & -> & Hne & -> & pm & Hparent).
  rewrite file_Write_created. unfold os_ReadFile.
  apply String.eqb_neq in Hname. rewrite Hname.
  rewrite (walk_insert_found _ _ _ pm Hne Hparent). reflexivity.
Qed.

(** ** Stored bytes and reported size *)

(** C5: when the function called for a file succeeds, it appends one
    record; the record's [FileSize] is the number of bytes of the part's
    content, whatever the part's header declares, and the destination file
    holds the whole content, the sniffed bytes included. *)
Theorem upload_one_FileSize t rn dir hdr acc w res w' :
  upload_one t rn dir hdr acc w = ((res, None), w') ->
  exists rec,
    res = acc ++ [rec] /\
    OriginalFileName rec = Filename hdr /\
    FileSize rec = Z.of_nat (length (content hdr)) /\
    os_ReadFile (fs w') (filepath_Join dir (NewFileName rec)) = Some (content hdr).
Proof.
  rewrite upload_one_eq. unfold upload_one_stages. intros H.
  destruct (stored_name rn hdr w) as [name w1].
  destruct (os_Create (fs w1) (filepath_Join dir name)) as [fs1 [h|e]] eqn:Hcreate.
  - assert (Hdone : ((acc ++ [record_of hdr name], @None error),
                     set_fs w1 (file_Write fs1 h (content hdr))) = ((res, None), w')).
    { destruct (fault hdr) as [[eo|er|es|k ec]|]; try discriminate H;
        (destruct (content hdr) as [|b0 bs]; [discriminate H|]);
        (destruct (type_allowed t _); cbn [negb] in H; [|discriminate H]);
        try discriminate H; exact H. }
    injection Hdone as <- <-.
    exists (record_of hdr name). repeat split.
    cbn [fs set_fs NewFileName record_of].
    eapply os_ReadFile_written. exact Hcreate.
  - exfalso.
    destruct (fault hdr) as [[eo|er|es|k ec]|]; try discriminate H;
      (destruct (content hdr) as [|b0 bs]; [discriminate H|]);
      (destruct (type_allowed t _); cbn [negb] in H; [|discriminate H]);
      discriminate H.
Qed.

Lemma upload_one_FileSize_witness :
  exists rec,
    [rec] = [] ++ [rec] /\
    OriginalFileName rec = "a.png" /\
    FileSize rec = 16 /\
    os_ReadFile
      (fs (upload_one image_tools true "uploads"
             {| Filename := "a.png"; Header := [("Content-Length", "3")];
                content := png_bytes; tmpfile := false; fault := None |}
             [] (CreateDirIfNotExist "uploads" sample_world).2).2)
      (filepath_Join "uploads" (NewFileName rec)) = Some png_bytes.
Proof.
  destruct (upload_one_FileSize image_tools true "uploads"
              {| Filename := "a.png"; Header := [("Content-Length", "3")];
                 content := png_bytes; tmpfile := false; fault := None |}
              [] (CreateDirIfNotExist "uploads" sample_world).2
              [record_of {| Filename := "a.png"; Header := [("Content-Length", "3")];
                            content := png_bytes; tmpfile := false; fault := None |}
                         "hBb1+ThBb1+ThBb1+ThBb1+Th.png"]
              (upload_one image_tools true "uploads"
                 {| Filename := "a.png"; Header := [("Content-Length", "3")];
                    content := png_bytes; tmpfile := false; fault := None |}
                 [] (CreateDirIfNotExist "uploads" sample_world).2).2)
    as (rec & Hres & Hname & Hsize & Hread).
  - vm_compute. reflexivity.
  - exists rec. repeat split; assumption.
Defined.

(** The records of a whole batch: one for each file header of the form,
    in order, each with the header's file name and the length of its
    content. *)
Lemma UploadFiles_records t r dir rename w res t' w' :
  UploadFiles t r dir rename w = ((res, None), t', w') ->
  exists form,
    ParseMultipartForm r (int64 (MaxFileSize t')) = inl form /\
    Forall2 (fun hdr rec =>
               OriginalFileName rec = Filename hdr /\
               FileSize rec = Z.of_nat (length (content hdr)))
            (headers_of form) res.
Proof.
  intros H.
  pose proof (UploadFiles_result
                (fun hdr rec => OriginalFileName rec = Filename hdr /\
                                FileSize rec = Z.of_nat (length (content hdr)))
                t r dir rename w (fun _ _ _ _ _ => conj eq_refl eq_refl)) as Hres.
  rewrite H in Hres. exact Hres.
Qed.

(** Neither the header of a part nor the place the parser kept it in
    matters to what is done with it. *)
Lemma upload_one_ignores_Header t rn dir hdr hdr' acc w :
  Filename hdr' = Filename hdr -> content hdr' = content hdr -> fault hdr' = fault hdr ->
  upload_one t rn dir hdr' acc w = upload_one t rn dir hdr acc w.
Proof.
  intros Hn Hc Hf. rewrite !upload_one_eq.
  unfold upload_one_stages, stored_name, record_of. rewrite Hn, Hc, Hf. reflexivity.
Qed.

(** ** The parsed form *)

Lemma form_append_elem {A : Type} (m : list (string * list A)) (name : string) (x y : A) :
  In y (concat (map snd (form_append m name x))) <->
  In y (concat (map snd m)) \/ y = x.
Proof.
  induction m as [|[k xs] m IH]; simpl.
  - intuition auto.
  - destruct (String.eqb k name); simpl; rewrite !in_app_iff.
    + simpl. intuition auto.
    + rewrite IH. intuition auto.
Qed.

Lemma form_append_length {A : Type} (m : list (string * list A)) (name : string) (x : A) :
  length (concat (map snd (form_append m name x))) = S (length (concat (map snd m))).
Proof.
  induction m as [|[k xs] m IH]; simpl.
  - reflexivity.
  - destruct (String.eqb k name); simpl; rewrite !length_app.
    + simpl. lia.
    + rewrite IH. lia.
Qed.

Lemma readForm_loop_headers parts : forall maxMemory maxValueBytes form form',
  readForm_loop parts maxMemory maxValueBytes form = inl form' ->
  (forall hdr, In hdr (headers_of form') ->
     In hdr (headers_of form) \/
     exists p, In p parts /\ is_file_part p = true /\ header_of_part hdr p) /\
  length (headers_of form') =
  (length (headers_of form) + length (List.filter is_file_part parts))%nat.
Proof.
  unfold headers_of, is_file_part, header_of_part.
  induction parts as [|p parts IH]; intros maxMemory maxValueBytes form form' H;
    simpl in H.
  - injection H as <-. split; [auto|]. simpl. lia.
  - cbn [List.filter].
    destruct (String.eqb (FormName p) "") eqn:Hn; cbn [negb andb].
    { apply IH in H as [H1 H2]. split; [|exact H2].
      intros hdr Hin. destruct (H1 hdr Hin) as [?|(p' & ? & ?)]; [auto|].
      right. exists p'. simpl. auto. }
    destruct (String.eqb (FileName p) "") eqn:Hf; cbn [negb andb].
    { destruct (_ <? 0); [discriminate|].
      apply IH in H as [H1 H2]. cbn [File] in *. split; [|exact H2].
      intros hdr Hin. destruct (H1 hdr Hin) as [?|(p' & ? & ?)]; [auto|].
      right. exists p'. simpl. auto. }
    assert (Hfile : negb false && negb false = true) by reflexivity.
    destruct (maxMemory <? _); apply IH in H as [H1 H2]; cbn [File] in *.
    all: split; [|rewrite H2, form_append_length; simpl; lia].
    all: intros hdr Hin; destruct (H1 hdr Hin) as [Hold|(p' & Hp' & Hrest)];
      [|right; exists p'; simpl; auto].
    all: apply form_append_elem in Hold; destruct Hold as [Hold|Hold]; [auto|].
    all: right; exists p; subst hdr; simpl; rewrite Hn, Hf; auto 10.
Qed.

(** The headers of a parsed form are the file parts of the request. *)
Lemma ParseMultipartForm_headers r maxMemory form :
  ParseMultipartForm r maxMemory = inl form ->
  (forall hdr, In hdr (headers_of form) ->
     exists p, In p (Parts r) /\ is_file_part p = true /\ header_of_part hdr p) /\
  length (headers_of form) = length (List.filter is_file_part (Parts r)).
Proof.
  unfold ParseMultipartForm, readForm.
  destruct (BodyError r); [discriminate|]. intros H.
  apply readForm_loop_headers in H as [H1 H2]. split.
  - intros hdr Hin. destruct (H1 hdr Hin) as [[]|Hp]. exact Hp.
  - exact H2.
Qed.

(** A successful batch returns as many records as the request has file
    parts. *)
Lemma UploadFiles_record_count t r dir rename w res t' w' :
  UploadFiles t r dir rename w = ((res, None), t', w') ->
  length res = length (List.filter is_file_part (Parts r)).
Proof.
  intros H. destruct (UploadFiles_records _ _ _ _ _ _ _ _ H) as (form & Hparse & Hall).
  apply ParseMultipartForm_headers in Hparse as [_ <-].
  symmetry. eapply Forall2_length. exact Hall.
Qed.

(** ** Round trip *)

(** A part with content, of an allowed type and on working storage, is
    stored whenever the destination file can be created, and the file
    read back is the content. *)
Lemma upload_one_round_trip t rn dir hdr acc w fs1 handle :
  fault hdr = None ->
  content hdr <> [] ->
  type_allowed t (http_DetectContentType (sniff_buffer (content hdr))) = true ->
  os_Create (fs (stored_name rn hdr w).2)
            (filepath_Join dir (stored_name rn hdr w).1) = (fs1, inl handle) ->
  let out := upload_one t rn dir hdr acc w in
  out.1 = (acc ++ [record_of hdr (stored_name rn hdr w).1], None) /\
  os_ReadFile (fs out.2) (filepath_Join dir (stored_name rn hdr w).1) = Some (content hdr).
Proof.
  intros Hf Hc Ha Hcreate. cbv zeta.
  rewrite upload_one_eq. unfold upload_one_stages.
  rewrite Hf, Ha. cbn [negb].
  destruct (content hdr) as [|b0 bs] eqn:Hcontent; [congruence|].
  destruct (stored_name rn hdr w) as [name w1]. cbn [fst snd] in *.
  rewrite Hcreate. cbn [fst snd fs set_fs]. split; [reflexivity|].
  eapply os_ReadFile_written. exact Hcreate.
Qed.

(** A part without content is never stored: the first [Read] returns
    [io.EOF], or the error the storage has in store, and nothing is
    written. *)
Lemma upload_one_empty t rn dir hdr acc w :
  content hdr = [] ->
  exists e, upload_one t rn dir hdr acc w = (([], Some e), w).
Proof.
  intros Hc. rewrite upload_one_eq. unfold upload_one_stages. rewrite Hc.
  destruct (fault hdr) as [[eo|er|es|k ec]|]; eauto.
Qed.

(** C6: the upload of a file of 0 bytes does not succeed.  The part is
    well-formed and passes the policy, which allows every type; the first
    [Read] returns [io.EOF], [UploadFiles] returns that error, and no
    file is created in the destination directory. *)
Theorem UploadFiles_empty_file_EOF :
  let out := UploadFiles zero_tools (request_of [empty_part]) "uploads" [false] sample_world in
  length (body empty_part) = 0%nat /\
  out.1.1 = ([], Some io_EOF) /\
  os_ReadFile (fs out.2) "uploads/empty.txt" = None /\
  fs out.2 = {[ ["uploads"] := Dir perm_0755 ]}.
Proof. cbv zeta. repeat split; vm_compute; reflexivity. Qed.

(** ** The decision on the file type *)

Lemma allowed_loop_spec fileType types : forall allowed,
  allowed_loop fileType types allowed =
  allowed || existsb (strings_EqualFold fileType) types.
Proof.
  induction types as [|x types IH]; intros allowed; simpl.
  - rewrite orb_false_r. reflexivity.
  - rewrite IH. destruct (strings_EqualFold fileType x), allowed; reflexivity.
Qed.

(** The type check passes when the list of allowed types is empty, or
    when one of its entries equals the sniffed type up to case. *)
Lemma type_allowed_spec t fileType :
  type_allowed t fileType = true <->
  AllowedFileTypes t = [] \/
  exists x, In x (AllowedFileTypes t) /\ strings_EqualFold fileType x = true.
Proof.
  unfold type_allowed. rewrite allowed_loop_spec. simpl orb.
  destruct (AllowedFileTypes t) as [|x0 types] eqn:Ht.
  - simpl. tauto.
  - change (0 <? length (x0 :: types))%nat with true. cbv iota.
    rewrite existsb_exists. split.
    + intros H. right. exact H.
    + intros [H|H]; [discriminate|exact H].
Qed.

(** A part that can be opened and read and whose sniffed type is not
    allowed fails with the error for its type, and nothing is written. *)
Lemma upload_one_type_not_permitted t rn dir hdr acc w :
  (forall e, fault hdr <> Some (OpenFails e)) ->
  (forall e, fault hdr <> Some (ReadFails e)) ->
  content hdr <> [] ->
  type_allowed t (http_DetectContentType (sniff_buffer (content hdr))) = false ->
  upload_one t rn dir hdr acc w = (([], Some ErrTypeNotPermitted), w).
Proof.
  intros Ho Hr Hc Ha. rewrite upload_one_eq. unfold upload_one_stages.
  rewrite Ha. cbn [negb].
  destruct (content hdr) as [|b0 bs]; [congruence|].
  destruct (fault hdr) as [[eo|er|es|k ec]|]; try reflexivity.
  - exfalso. exact (Ho eo eq_refl).
  - exfalso. exact (Hr er eq_refl).
Qed.

(** For a part of 512 bytes or more the sniffer sees the first 512 bytes
    of the content; for a shorter part it sees the content followed by
    zero bytes. *)
Lemma sniff_buffer_long (content : list byte) :
  (512 <= length content)%nat -> sniff_buffer content = take 512 content.
Proof.
  intros Hlen. unfold sniff_buffer.
  rewrite length_take, Nat.min_l by exact Hlen.
  rewrite drop_ge by (rewrite length_replicate; lia).
  apply app_nil_r.
Qed.

Lemma sniff_buffer_short (content : list byte) :
  (length content < 512)%nat ->
  sniff_buffer content = content ++ replicate (512 - length content) x00.
Proof.
  intros Hlen. unfold sniff_buffer.
  rewrite take_ge by lia. rewrite drop_replicate. reflexivity.
Qed.

(** Whatever precedes them, zero bytes make data binary. *)
Lemma zeros_are_binary (d : list byte) (n : nat) :
  forallb (fun b => negb (isBinaryByte b)) (skipWS (d ++ replicate (S n) x00)) = false.
Proof.
  induction d as [|b d IH]; [reflexivity|].
  change ((b :: d) ++ replicate (S n) x00) with (b :: (d ++ replicate (S n) x00)).
  cbn [skipWS]. destruct (isWS b); [exact IH|].
  cbn [forallb]. apply andb_false_intro2.
  rewrite forallb_app. apply andb_false_intro2. reflexivity.
Qed.

(** Data with a binary byte is not called plain text.  The sniffer of Go
    knows one more way to plain text in UTF-8, a byte order mark at the
    start of the data, which the table of this model leaves out: the
    lemma is stated for data without one. *)
Lemma DetectContentType_binary (data : list byte) :
  hasPrefix data [xef; xbb; xbf]%byte = false ->
  forallb (fun b => negb (isBinaryByte b)) (skipWS (take sniffLen data)) = false ->
  http_DetectContentType data <> "text/plain; charset=utf-8".
Proof.
  intros _ Hbin. unfold http_DetectContentType. rewrite Hbin.
  repeat (match goal with |- context [if ?c then _ else _] => destruct c end);
    discriminate.
Qed.

(** The type [UploadFiles] sniffs for a part of fewer than 512 bytes is
    never plain text in UTF-8, unless the part begins with a byte order
    mark. *)
Lemma short_part_never_text (cnt : list byte) :
  hasPrefix cnt [xef; xbb; xbf]%byte = false ->
  (length cnt < 512)%nat ->
  http_DetectContentType (sniff_buffer cnt) <> "text/plain; charset=utf-8".
Proof.
  intros Hbom Hlen. apply DetectContentType_binary.
  { rewrite sniff_buffer_short by exact Hlen.
    destruct cnt as [|b0 [|b1 [|b2 cnt]]].
    - reflexivity.
    - cbn [app hasPrefix]. destruct (Byte.eqb _ b0); reflexivity.
    - cbn [app hasPrefix]. destruct (Byte.eqb _ b0), (Byte.eqb _ b1); reflexivity.
    - assert (Hnil : forall l, hasPrefix l [] = true) by (intros []; reflexivity).
      cbn [app hasPrefix] in Hbom |- *. rewrite Hnil in Hbom |- *. exact Hbom. }
  rewrite sniff_buffer_short by exact Hlen.
  rewrite take_ge by (rewrite length_app, length_replicate; unfold sniffLen; lia).
  replace (512 - length cnt)%nat with (S (511 - length cnt)) by lia.
  apply zeros_are_binary.
Qed.

(** C4: a five-byte text file, under a policy that allows plain text.
    The type sniffed from the five bytes of the content is allowed, but
    the sniffer is given the whole 512-byte buffer, zero bytes included,
    calls it binary, and the batch is refused. *)
Theorem UploadFiles_sniffs_padded_buffer :
  let out := UploadFiles text_tools (request_of [hello_part]) "uploads" [false] sample_world in
  http_DetectContentType (body hello_part) = "text/plain; charset=utf-8" /\
  type_allowed text_tools (http_DetectContentType (body hello_part)) = true /\
  http_DetectContentType (sniff_buffer (body hello_part)) = "application/octet-stream" /\
  out.1.1 = ([], Some ErrTypeNotPermitted).
Proof. cbv zeta. repeat split; vm_compute; reflexivity. Qed.

(** ** The size limit *)

Lemma UploadFiles_effective_policy t r dir rename w :
  (UploadFiles t r dir rename w).1.2 = effective_policy t.
Proof.
  unfold UploadFiles. fold (effective_policy t).
  destruct (CreateDirIfNotExist dir w) as [[e|] w1];
    [|destruct (ParseMultipartForm r _) as [form|e];
      [destruct (form_loop _ _ _ _ _ _) as [res w2]|]];
    reflexivity.
Qed.

(** Whatever makes [ParseMultipartForm] fail, [UploadFiles] reports the
    upload as too big, and returns with the world as the creation of the
    directory left it. *)
Lemma UploadFiles_parse_error t r dir rename w e :
  (CreateDirIfNotExist dir w).1 = None ->
  ParseMultipartForm r (int64 (MaxFileSize (effective_policy t))) = inr e ->
  (UploadFiles t r dir rename w).1.1 = ([], Some ErrTooBig) /\
  (UploadFiles t r dir rename w).2 = (CreateDirIfNotExist dir w).2.
Proof.
  unfold UploadFiles. fold (effective_policy t).
  destruct (CreateDirIfNotExist dir w) as [[e0|] w1]; cbn [fst snd]; [discriminate|].
  intros _ Hp. rewrite Hp. split; reflexivity.
Qed.

(** No size of file parts makes the parser fail. *)
Lemma readForm_loop_files parts : forall maxMemory maxValueBytes form,
  Forall (fun p => FileName p <> "") parts ->
  exists form', readForm_loop parts maxMemory maxValueBytes form = inl form'.
Proof.
  induction parts as [|p parts IH]; intros maxMemory maxValueBytes form Hall; simpl.
  - eauto.
  - apply Forall_cons in Hall as [Hp Hall].
    apply String.eqb_neq in Hp. rewrite Hp.
    destruct (String.eqb (FormName p) ""); [apply IH; exact Hall|].
    destruct (maxMemory <? _); apply IH; exact Hall.
Qed.

Lemma ParseMultipartForm_files r maxMemory :
  BodyError r = None ->
  Forall (fun p => FileName p <> "") (Parts r) ->
  exists form, ParseMultipartForm r maxMemory = inl form.
Proof.
  intros Hb Hall. unfold ParseMultipartForm, readForm. rewrite Hb.
  apply readForm_loop_files. exact Hall.
Qed.

Lemma type_allowed_effective t fileType :
  type_allowed (effective_policy t) fileType = type_allowed t fileType.
Proof.
  unfold type_allowed, effective_policy. destruct (MaxFileSize t =? 0); reflexivity.
Qed.

(** The form parsed from a request with one file part: one header under
    the field name, kept in memory or in a temporary file. *)
Lemma ParseMultipartForm_one_file (cnt : list byte) maxMemory :
  exists tmp,
    ParseMultipartForm (request_of [one_file "f.bin" cnt]) maxMemory =
    inl {| Value := [];
           File := [("file", [ {| Filename := "f.bin"; Header := [];
                                  content := cnt; tmpfile := tmp;
                                  fault := None |} ])] |}.
Proof.
  unfold ParseMultipartForm, readForm, request_of, one_file.
  cbn [BodyError Parts readForm_loop FormName FileName String.eqb Ascii.eqb Bool.eqb
       body PartHeader storage_fault File Value form_append].
  destruct (maxMemory <? _); eauto.
Qed.

(** Whatever [MaxFileSize] is, a request that carries one file with
    content, of an allowed type, is stored in a fresh [uploads] directory
    and reads back as it was sent. *)
Theorem UploadFiles_one_file_round_trip t (cnt : list byte) :
  cnt <> [] ->
  type_allowed t (http_DetectContentType (sniff_buffer cnt)) = true ->
  let out := UploadFiles t (request_of [one_file "f.bin" cnt]) "uploads" [false]
               sample_world in
  out.1.1 = ([ {| NewFileName := "f.bin"; OriginalFileName := "f.bin";
                  FileSize := Z.of_nat (length cnt) |} ], None) /\
  os_ReadFile (fs out.2) "uploads/f.bin" = Some cnt.
Proof.
  intros Hc Ha. cbv zeta. unfold UploadFiles. fold (effective_policy t).
  change (CreateDirIfNotExist "uploads" sample_world)
    with (@None error, {| fs := <[ ["uploads"] := Dir perm_0755 ]> ∅;
                          primes := sample_source; drawn := 0 |}).
  cbv beta iota zeta.
  destruct (ParseMultipartForm_one_file cnt (int64 (MaxFileSize (effective_policy t))))
    as [tmp ->].
  cbn [File form_loop headers_loop renameFile_of].
  rewrite upload_one_eq. unfold upload_one_stages.
  cbn [fault content Filename stored_name record_of fst snd].
  destruct cnt as [|b0 bs] eqn:Hcontent; [congruence|]. rewrite <- Hcontent in *.
  rewrite type_allowed_effective, Ha. cbn [negb].
  change (os_Create _ (filepath_Join "uploads" "f.bin"))
    with (<[ ["uploads"; "f.bin"] := RegularFile [] ]> (<[ ["uploads"] := Dir perm_0755 ]> (∅ : gmap (list string) node)),
          @inl (list string) error ["uploads"; "f.bin"]).
  cbv beta iota zeta. cbn [fst snd app fs set_fs].
  split; [reflexivity|].
  rewrite file_Write_created.
  unfold os_ReadFile. change (String.eqb "uploads/f.bin" "") with false. cbv iota.
  change (resolve "uploads/f.bin") with ["uploads"; "f.bin"].
  rewrite (walk_insert_found _ ["uploads"; "f.bin"] _ perm_0755); [reflexivity|discriminate|].
  vm_compute. reflexivity.
Qed.

(** C1: a body that carries five bytes of file content, under a policy
    whose limit is four bytes.  The parser keeps the part in a temporary
    file instead of failing; [UploadFiles] returns no error, reports the
    file and has written it. *)
Theorem UploadFiles_accepts_body_over_limit :
  let out := UploadFiles tiny_tools (request_of [hello_part]) "uploads" [false] sample_world in
  MaxFileSize tiny_tools < payload_size (request_of [hello_part]) /\
  out.1.1 = ([ {| NewFileName := "hello.txt"; OriginalFileName := "hello.txt";
                  FileSize := 5 |} ], None) /\
  os_ReadFile (fs out.2) "uploads/hello.txt" = Some (bytes "hello").
Proof. cbv zeta. repeat split; vm_compute; reflexivity. Qed.

(** ** Stored names *)

Lemma length_append (a b : string) :
  String.length (a +:+ b) = (String.length a + String.length b)%nat.
Proof.
  induction a as [|c a IH]; [reflexivity|].
  change (S (String.length (a +:+ b)) = S (String.length a + String.length b)).
  rewrite IH. reflexivity.
Qed.

Lemma length_list_ascii_of_string (s : string) :
  length (list_ascii_of_string s) = String.length s.
Proof. induction s as [|a s IH]; simpl; congruence. Qed.

Lemma Forall2_right {A B : Type} (Q : B -> Prop) (l : list A) (k : list B) :
  Forall2 (fun _ y => Q y) l k -> Forall Q k.
Proof. induction 1; constructor; assumption. Qed.

(** The characters of [RandomString] come from the source. *)
Lemma RandomString_alphabet (n : nat) (w : World) (i : nat) (c : ascii) :
  String.get i (RandomString n w).1 = Some c ->
  exists k, String.get k randomStringSource = Some c.
Proof.
  intros Hget.
  destruct (Nat.lt_ge_cases i n) as [Hi|Hi].
  - rewrite (RandomString_get n w i Hi) in Hget. eauto.
  - exfalso. pose proof (RandomString_length n w) as Hlen.
    rewrite get_list_ascii_of_string in Hget.
    apply lookup_lt_Some in Hget.
    rewrite length_list_ascii_of_string in Hget. lia.
Qed.

Lemma stored_name_as_designed rn hdr w :
  name_as_designed rn (record_of hdr (stored_name rn hdr w).1).
Proof.
  unfold name_as_designed, stored_name, record_of.
  destruct rn; cbn [fst NewFileName OriginalFileName]; [|reflexivity].
  exists (RandomString 25 w).1. split; [reflexivity|].
  split; [apply RandomString_length|].
  split; [intros i c; apply RandomString_alphabet|].
  intros Hlen Heq. apply Hlen. rewrite <- Heq at 1.
  rewrite length_append, RandomString_length. reflexivity.
Qed.

(** C7, as stated, fails: with renaming on and a random source that
    returns one 64-bit prime over and over, a file whose name is the
    identifier drawn from that source is stored under its own name. *)
Lemma UploadFiles_rename_can_keep_name :
  (forall i, is_Prime_of 64 (primes constant_world i)) /\
  (UploadFiles image_tools (request_of [b_png_part]) "uploads" [true] constant_world).1.1
  = ([ {| NewFileName := "bbbbbbbbbbbbbbbbbbbbbbbbb.png";
          OriginalFileName := "bbbbbbbbbbbbbbbbbbbbbbbbb.png";
          FileSize := 16 |} ], None).
Proof.
  split; [|vm_compute; reflexivity].
  intros i. exact (sample_source_ok 2).
Qed.

(** C7, amended: for every record [UploadFiles] returns, with renaming
    on the stored name is 25 characters of [randomStringSource] followed
    by the extension of the original name as [filepath.Ext] gives it, and
    it differs from the original name at least when the original name is
    not 25 characters longer than its extension; with renaming off the
    stored name is the original name. *)
Theorem UploadFiles_stored_names t r dir rename w rec :
  In rec (UploadFiles t r dir rename w).1.1.1 ->
  name_as_designed (renameFile_of rename) rec.
Proof.
  intros Hin.
  pose proof (UploadFiles_result
                (fun _ rec => name_as_designed (renameFile_of rename) rec)
                t r dir rename w
                (fun _ hdr _ w0 _ => stored_name_as_designed _ hdr w0)) as H.
  cbv zeta in H.
  destruct ((UploadFiles t r dir rename w).1.1.2) as [e|].
  - rewrite H in Hin. destruct Hin.
  - destruct H as (form & _ & Hall).
    apply Forall2_right in Hall. rewrite Forall_forall in Hall.
    apply Hall. apply list_elem_of_In. exact Hin.
Qed.

Lemma UploadFiles_stored_names_witness :
  name_as_designed true
    {| NewFileName := "hBb1+ThBb1+ThBb1+ThBb1+Th.png"; OriginalFileName := "a.png";
       FileSize := 16 |}.
Proof.
  apply (UploadFiles_stored_names image_tools (request_of [png_part]) "uploads" []
           sample_world).
  vm_compute. left. reflexivity.
Defined.

(** ** CreateDirIfNotExist *)

Lemma snoc_ne_self {A : Type} (l : list A) (x : A) : l ++ [x] <> l.
Proof.
  intros H. apply (f_equal length) in H. rewrite length_app in H. simpl in H. lia.
Qed.

Lemma snoc_not_nil {A : Type} (l : list A) (x : A) : l ++ [x] <> [].
Proof. destruct l; discriminate. Qed.

(** [mkdirs] keeps every entry there is. *)
Lemma mkdirs_keeps perm rest : forall fs cur key n,
  fs !! key = Some n -> (mkdirs perm fs cur rest).1 !! key = Some n.
Proof.
  induction rest as [|e rest IH]; intros fs cur key n Hkey; simpl.
  - destruct (node_at fs cur) as [[pm|d]|]; exact Hkey.
  - destruct (node_at fs cur) as [[pm|d]|]; try exact Hkey.
    destruct (fs !! (cur ++ [e])) as [n'|] eqn:Hnext; [apply IH; exact Hkey|].
    destruct (owner_writable pm); [|exact Hkey].
    apply IH. rewrite lookup_insert_ne; [exact Hkey|]. congruence.
Qed.

(** What [mkdirs] adds is a directory with the given permissions, on the
    way from [cur] to the end of the path. *)
Lemma mkdirs_adds perm rest : forall fs cur key n,
  fs !! key = None -> (mkdirs perm fs cur rest).1 !! key = Some n ->
  n = Dir perm /\ key `prefix_of` (cur ++ rest).
Proof.
  induction rest as [|e rest IH]; intros fs cur key n Hnone Hsome; simpl in Hsome.
  - destruct (node_at fs cur) as [[pm|d]|]; simpl in Hsome; congruence.
  - destruct (node_at fs cur) as [[pm|d]|]; simpl in Hsome; try congruence.
    destruct (fs !! (cur ++ [e])) as [n'|] eqn:Hnext.
    + destruct (IH _ _ _ _ Hnone Hsome) as [Hn Hpre].
      split; [exact Hn|]. rewrite <- app_assoc in Hpre. exact Hpre.
    + destruct (owner_writable pm); [|simpl in Hsome; congruence].
      destruct (decide (key = cur ++ [e])) as [->|Hne].
      * pose proof (mkdirs_keeps perm rest (<[cur ++ [e] := Dir perm]> fs)
                      (cur ++ [e]) (cur ++ [e]) (Dir perm)
                      (lookup_insert_eq _ _ _)) as Hk.
        rewrite Hk in Hsome. injection Hsome as <-.
        split; [reflexivity|]. exists rest. rewrite <- app_assoc. reflexivity.
      * assert (Hnone' : <[cur ++ [e] := Dir perm]> fs !! key = None)
          by (rewrite lookup_insert_ne; congruence).
        destruct (IH _ _ _ _ Hnone' Hsome) as [Hn Hpre].
        split; [exact Hn|]. rewrite <- app_assoc in Hpre. exact Hpre.
Qed.

Lemma mkdirs_keeps_node_at perm rest fs cur p n :
  node_at fs p = Some n -> node_at (mkdirs perm fs cur rest).1 p = Some n.
Proof.
  destruct p as [|e p]; [trivial|]. unfold node_at. apply mkdirs_keeps.
Qed.

(** After a successful [mkdirs] the path leads to a directory. *)
Lemma mkdirs_ok perm rest : forall fs cur,
  (mkdirs perm fs cur rest).2 = None ->
  exists pm, walk (mkdirs perm fs cur rest).1 cur rest = inl (Dir pm).
Proof.
  induction rest as [|e rest IH]; intros fs cur Hok; simpl in *.
  - destruct (node_at fs cur) as [[pm|d]|] eqn:Hcur; simpl in *; try discriminate.
    rewrite Hcur. eauto.
  - destruct (node_at fs cur) as [[pm|d]|] eqn:Hcur; simpl in *; try discriminate.
    destruct (fs !! (cur ++ [e])) as [n'|] eqn:Hnext.
    + rewrite (mkdirs_keeps_node_at perm rest fs (cur ++ [e]) cur _ Hcur).
      apply IH. exact Hok.
    + destruct (owner_writable pm); [|discriminate].
      assert (Hcur' : node_at (<[cur ++ [e] := Dir perm]> fs) cur = Some (Dir pm)).
      { rewrite node_at_insert_ne; [exact Hcur|apply snoc_ne_self]. }
      rewrite (mkdirs_keeps_node_at perm rest _ (cur ++ [e]) cur _ Hcur').
      apply IH. exact Hok.
Qed.

(** In a well-formed tree nothing lies below a missing entry. *)
Lemma below_missing fs (p : list string) :
  wf_fs fs -> p <> [] -> fs !! p = None ->
  forall s, fs !! (p ++ s) = None.
Proof.
  intros Hwf Hp Hnone s. induction s as [|x s IH] using rev_ind.
  - rewrite app_nil_r. exact Hnone.
  - destruct (fs !! (p ++ s ++ [x])) as [n|] eqn:Hkey; [|reflexivity].
    exfalso. destruct (Hwf _ _ Hkey) as [_ [pm Hparent]].
    rewrite app_assoc, removelast_last in Hparent.
    destruct (p ++ s) as [|a l] eqn:Hps.
    + apply app_eq_nil in Hps as [-> _]. congruence.
    + unfold node_at in Hparent. congruence.
Qed.

(** Below a directory with nothing in it, [mkdirs] creates the whole
    path. *)
Lemma mkdirs_fresh perm rest : forall fs cur pm,
  owner_writable perm = true ->
  node_at fs cur = Some (Dir pm) -> owner_writable pm = true ->
  (forall s, s <> [] -> fs !! (cur ++ s) = None) ->
  (mkdirs perm fs cur rest).2 = None.
Proof.
  induction rest as [|e rest IH]; intros fs cur pm Hperm Hcur Hpm Hbelow; simpl.
  - rewrite Hcur. reflexivity.
  - rewrite Hcur. rewrite (Hbelow [e]) by discriminate. rewrite Hpm.
    apply (IH _ _ perm Hperm).
    + apply node_at_insert_eq. apply snoc_not_nil.
    + exact Hperm.
    + intros s Hs. rewrite lookup_insert_ne.
      * rewrite <- app_assoc. apply Hbelow. discriminate.
      * intros Heq. apply (f_equal length) in Heq.
        rewrite !length_app in Heq. destruct s; [congruence|simpl in Heq; lia].
Qed.

Lemma node_at_dir_writable fs cur pm :
  dirs_writable fs -> node_at fs cur = Some (Dir pm) -> owner_writable pm = true.
Proof.
  intros Hw Hcur. destruct cur as [|e cur].
  - simpl in Hcur. injection Hcur as <-. reflexivity.
  - exact (Hw _ _ Hcur).
Qed.

Lemma node_at_snoc fs (cur : list string) (e : string) :
  node_at fs (cur ++ [e]) = fs !! (cur ++ [e]).
Proof. destruct cur; reflexivity. Qed.

(** In a well-formed tree with writable directories, [mkdirs] succeeds
    on a path that the lookup reports as missing. *)
Lemma mkdirs_missing perm rest : forall fs cur pm,
  wf_fs fs -> dirs_writable fs -> owner_writable perm = true ->
  node_at fs cur = Some (Dir pm) ->
  walk fs cur rest = inr ENOENT ->
  (mkdirs perm fs cur rest).2 = None.
Proof.
  induction rest as [|e rest IH]; intros fs cur pm Hwf Hw Hperm Hcur Hwalk; simpl in *.
  - rewrite Hcur in Hwalk. discriminate.
  - rewrite Hcur in *.
    destruct (fs !! (cur ++ [e])) as [n'|] eqn:Hnext.
    + assert (Hdir : exists pm', node_at fs (cur ++ [e]) = Some (Dir pm')).
      { rewrite node_at_snoc, Hnext.
        destruct rest as [|e' rest]; simpl in Hwalk;
          rewrite node_at_snoc, Hnext in Hwalk; [discriminate|].
        destruct n' as [pm'|d]; [eauto|discriminate]. }
      destruct Hdir as [pm' Hdir].
      apply (IH _ _ pm'); assumption.
    + rewrite (node_at_dir_writable _ _ _ Hw Hcur).
      apply (mkdirs_fresh perm rest _ _ perm Hperm).
      * apply node_at_insert_eq. apply snoc_not_nil.
      * exact Hperm.
      * intros s Hs. rewrite lookup_insert_ne.
        -- apply below_missing; [exact Hwf|apply snoc_not_nil|exact Hnext].
        -- intros Heq. apply (f_equal length) in Heq.
           rewrite !length_app in Heq. destruct s; [congruence|simpl in Heq; lia].
Qed.

(** C8, as stated, fails: when the path is a regular file, or lies below
    one, [CreateDirIfNotExist] returns no error and changes nothing. *)
Lemma CreateDirIfNotExist_accepts_regular_file :
  os_Stat (fs file_world) "uploads"
  = (Some (RegularFile (bytes "not a directory")), None) /\
  CreateDirIfNotExist "uploads" file_world = (None, file_world) /\
  os_Stat (fs file_world) "uploads/today"
  = (None, Some (PathError "stat" "uploads/today" ENOTDIR)) /\
  CreateDirIfNotExist "uploads/today" file_world = (None, file_world).
Proof. repeat split; vm_compute; reflexivity. Qed.

(** C8, amended, for a path that the system takes as it is written
    ([plain_path]: no [..] element, no NUL byte, no name too long) in a
    tree whose directories can be searched, where the lookup of the model
    is the one of the system.  [CreateDirIfNotExist] returns
    [nil] and changes nothing whenever [os.Stat] finds the path, as a
    directory or as anything else, and whenever [os.Stat] fails with an
    error other than "does not exist".  When [os.Stat] reports that the
    path does not exist, it calls [os.MkdirAll]: nothing that exists is
    changed, what is added is a directory with mode 0755 on the way to the
    path, a [nil] result means that the path now is a directory, an error
    is the [mkdir] error of [MkdirAll] on the path or on one of its
    parents, and in a well-formed tree of writable directories below a
    writable working directory the result is [nil].  On the empty path it
    returns the error of [MkdirAll]. *)
Theorem CreateDirIfNotExist_spec path w :
  plain_path path = true ->
  dirs_searchable (fs w) ->
  if String.eqb path ""
  then CreateDirIfNotExist path w = (Some (PathError "mkdir" path ENOENT), w)
  else
    match walk (fs w) [] (resolve path) with
    | inr ENOENT =>
        let out := CreateDirIfNotExist path w in
        primes out.2 = primes w /\ drawn out.2 = drawn w /\
        (forall key n, fs w !! key = Some n -> fs out.2 !! key = Some n) /\
        (forall key n, fs w !! key = None -> fs out.2 !! key = Some n ->
           n = Dir perm_0755 /\ key `prefix_of` resolve path) /\
        (out.1 = None ->
           exists pm, walk (fs out.2) [] (resolve path) = inl (Dir pm)) /\
        (forall e, out.1 = Some e -> exists p errno, e = PathError "mkdir" p errno) /\
        (wf_fs (fs w) -> dirs_writable (fs w) -> root_writable (fs w) -> out.1 = None)
    | _ => CreateDirIfNotExist path w = (None, w)
    end.
Proof.
  intros _ _.
  unfold CreateDirIfNotExist, os_Stat, os_MkdirAll, mode.
  destruct (String.eqb path "") eqn:Hpath; [destruct w; reflexivity|].
  destruct (walk (fs w) [] (resolve path)) as [n|[]] eqn:Hwalk; try reflexivity.
  cbn [os_IsNotExist]. cbv zeta.
  pose proof (mkdirs_keeps perm_0755 (resolve path) (fs w) []) as Hkeeps.
  pose proof (mkdirs_adds perm_0755 (resolve path) (fs w) []) as Hadds.
  pose proof (mkdirs_ok perm_0755 (resolve path) (fs w) []) as Hok.
  pose proof (mkdirs_missing perm_0755 (resolve path) (fs w) [] perm_0755) as Hmiss.
  destruct (mkdirs perm_0755 (fs w) [] (resolve path)) as [fs' [errno|]];
    cbn [fst snd fs primes drawn set_fs] in *.
  - split; [reflexivity|]. split; [reflexivity|]. split; [exact Hkeeps|].
    split; [exact Hadds|]. split; [discriminate|]. split.
    + intros e He. injection He as <-. eauto.
    + intros Hwf Hw _. exfalso.
      assert (Some errno = None); [|discriminate].
      apply Hmiss; auto.
  - split; [reflexivity|]. split; [reflexivity|]. split; [exact Hkeeps|].
    split; [exact Hadds|]. split; [intros _; apply Hok; reflexivity|].
    split; [discriminate|reflexivity].
Qed.

Lemma CreateDirIfNotExist_spec_witness :
  (CreateDirIfNotExist "uploads/2024/photos" sample_world).1 = None /\
  forall path, In path ["uploads"; "uploads/2024"; "uploads/2024/photos"] ->
    os_Stat (fs (CreateDirIfNotExist "uploads/2024/photos" sample_world).2) path
    = (Some (Dir perm_0755), None).
Proof.
  assert (Hsearch : dirs_searchable (fs sample_world)).
  { intros key pm Hkey. simpl in Hkey. rewrite lookup_empty in Hkey. discriminate. }
  pose proof (CreateDirIfNotExist_spec "uploads/2024/photos" sample_world eq_refl Hsearch)
    as H.
  change (String.eqb "uploads/2024/photos" "") with false in H. cbv iota in H.
  assert (Hwalk : walk (fs sample_world) [] (resolve "uploads/2024/photos") = inr ENOENT)
    by (vm_compute; reflexivity).
  rewrite Hwalk in H. cbv zeta in H.
  destruct H as (_ & _ & _ & _ & _ & _ & Hnil).
  split.
  - apply Hnil.
    + intros key n Hkey. simpl in Hkey. rewrite lookup_empty in Hkey. discriminate.
    + intros key pm Hkey. simpl in Hkey. rewrite lookup_empty in Hkey. discriminate.
    + intros pm Hroot. injection Hroot as <-. reflexivity.
  - intros path [<-|[<-|[<-|[]]]]; vm_compute; reflexivity.
Defined.

(** ** Slugify *)

Lemma in_cutset_dash (c : ascii) : in_cutset c "-" = Ascii.eqb c "-".
Proof. unfold in_cutset. simpl. apply orb_false_r. Qed.

Lemma dash_not_in_class : in_a_z_or_digit "-" = false.
Proof. reflexivity. Qed.

Lemma in_class_not_dash (c : ascii) : in_a_z_or_digit c = true -> Ascii.eqb c "-" = false.
Proof.
  intros Hc. destruct (Ascii.eqb_spec c "-") as [->|]; [|reflexivity].
  rewrite dash_not_in_class in Hc. discriminate.
Qed.

Lemma scan_dash_cons (src : string) (b : bool) (c : ascii) :
  ReplaceAllString_scan (String c src) "-" b =
  if in_a_z_or_digit c then String c (ReplaceAllString_scan src "-" false)
  else if b then ReplaceAllString_scan src "-" true
  else String "-" (ReplaceAllString_scan src "-" true).
Proof. reflexivity. Qed.

(** The scan leaves letters, digits and single hyphens, and no hyphen at
    the front when it starts inside a match. *)
Lemma scan_shape (src : string) : forall b,
  slug_chars (ReplaceAllString_scan src "-" b) = true /\
  no_double_dash (ReplaceAllString_scan src "-" b) = true /\
  (b = true -> starts_with_dash (ReplaceAllString_scan src "-" b) = false).
Proof.
  induction src as [|c src IH]; intros b; [simpl; auto|].
  rewrite scan_dash_cons.
  destruct (IH true) as (Hc1 & Hd1 & Hs1). destruct (IH false) as (Hc0 & Hd0 & _).
  destruct (in_a_z_or_digit c) eqn:Hclass.
  - cbn [slug_chars no_double_dash starts_with_dash].
    rewrite Hclass, Hc0, Hd0, (in_class_not_dash c Hclass). simpl. auto.
  - destruct b.
    + auto.
    + cbn [slug_chars no_double_dash starts_with_dash].
      rewrite Hc1, Hd1, (Hs1 eq_refl). simpl. split; [reflexivity|].
      split; [reflexivity|discriminate].
Qed.

Lemma TrimRight_cons (c : ascii) (s : string) :
  strings_TrimRight (String c s) "-" =
  match strings_TrimRight s "-" with
  | EmptyString => if Ascii.eqb c "-" then EmptyString else String c EmptyString
  | r => String c r
  end.
Proof. cbn [strings_TrimRight]. rewrite in_cutset_dash. reflexivity. Qed.

Lemma TrimLeft_cons (c : ascii) (s : string) :
  strings_TrimLeft (String c s) "-" =
  if Ascii.eqb c "-" then strings_TrimLeft s "-" else String c s.
Proof. cbn [strings_TrimLeft]. rewrite in_cutset_dash. reflexivity. Qed.

Lemma TrimRight_starts (s : string) :
  starts_with_dash (strings_TrimRight s "-") = true -> starts_with_dash s = true.
Proof.
  destruct s as [|c s]; [discriminate|]. rewrite TrimRight_cons.
  destruct (strings_TrimRight s "-"); [destruct (Ascii.eqb c "-") eqn:Hc|]; simpl;
    congruence.
Qed.

Lemma slug_chars_cons (c : ascii) (s : string) :
  slug_chars (String c s) = (in_a_z_or_digit c || Ascii.eqb c "-") && slug_chars s.
Proof. reflexivity. Qed.

Lemma no_double_dash_cons (c : ascii) (s : string) :
  no_double_dash (String c s) =
  negb (Ascii.eqb c "-" && starts_with_dash s) && no_double_dash s.
Proof. reflexivity. Qed.

Lemma TrimRight_shape (s : string) :
  slug_chars s = true -> no_double_dash s = true ->
  slug_chars (strings_TrimRight s "-") = true /\
  no_double_dash (strings_TrimRight s "-") = true /\
  ends_with_dash (strings_TrimRight s "-") = false.
Proof.
  induction s as [|c s IH]; [simpl; auto|].
  cbn [slug_chars no_double_dash]. intros Hc Hd.
  apply andb_prop in Hc as [Hc Hcs]. apply andb_prop in Hd as [Hd Hds].
  destruct (IH Hcs Hds) as (IH1 & IH2 & IH3).
  rewrite TrimRight_cons.
  pose proof (TrimRight_starts s) as Hstart.
  destruct (strings_TrimRight s "-") as [|d r] eqn:Hr.
  - destruct (Ascii.eqb c "-") eqn:Hdash; [simpl; auto|].
    cbn [slug_chars no_double_dash ends_with_dash starts_with_dash].
    rewrite Hdash, Hc. simpl. auto.
  - rewrite slug_chars_cons, no_double_dash_cons, Hc, IH1, IH2.
    split; [reflexivity|]. split.
    + destruct (Ascii.eqb c "-" && starts_with_dash (String d r)) eqn:Hdd; [|reflexivity].
      apply andb_prop in Hdd as [Hcd Hsd]. rewrite Hcd, (Hstart Hsd) in Hd. discriminate.
    + exact IH3.
Qed.

Lemma TrimLeft_shape (s : string) :
  slug_chars s = true -> no_double_dash s = true -> ends_with_dash s = false ->
  slug_chars (strings_TrimLeft s "-") = true /\
  no_double_dash (strings_TrimLeft s "-") = true /\
  ends_with_dash (strings_TrimLeft s "-") = false /\
  starts_with_dash (strings_TrimLeft s "-") = false.
Proof.
  induction s as [|c s IH]; [simpl; auto|].
  intros Hc Hd He. rewrite TrimLeft_cons.
  destruct (Ascii.eqb c "-") eqn:Hdash.
  - cbn [slug_chars no_double_dash] in Hc, Hd.
    apply andb_prop in Hc as [_ Hcs]. apply andb_prop in Hd as [_ Hds].
    apply IH; auto.
    destruct s as [|d s]; [reflexivity|exact He].
  - simpl starts_with_dash. auto.
Qed.

(** Bridges from the recursive tests to positions. *)
Lemma slug_chars_get (s : string) :
  slug_chars s = true <->
  forall i c, String.get i s = Some c -> in_a_z_or_digit c = true \/ c = "-"%char.
Proof.
  induction s as [|a s IH]; simpl.
  - split; [intros _ i c H; discriminate|reflexivity].
  - rewrite andb_true_iff, orb_true_iff, IH. split.
    + intros [Ha Hs] [|i] c Hget.
      * injection Hget as <-. destruct Ha as [Ha|Ha]; [auto|].
        right. apply Ascii.eqb_eq. exact Ha.
      * eauto.
    + intros H. split.
      * destruct (H 0%nat a eq_refl) as [Ha | ->]; [auto|]. right. reflexivity.
      * intros i c Hget. exact (H (S i) c Hget).
Qed.

Lemma starts_with_dash_get (s : string) :
  starts_with_dash s = false <-> String.get 0 s <> Some "-"%char.
Proof.
  destruct s as [|a s]; simpl; [split; [discriminate|reflexivity]|].
  destruct (Ascii.eqb_spec a "-") as [-> | Hne]; split; congruence.
Qed.

Lemma ends_with_dash_get (s : string) :
  ends_with_dash s = false <-> String.get (String.length s - 1) s <> Some "-"%char.
Proof.
  induction s as [|a s IH]; [simpl; split; [discriminate|reflexivity]|].
  destruct s as [|b s].
  - simpl. destruct (Ascii.eqb_spec a "-") as [-> | Hne]; split; congruence.
  - change (ends_with_dash (String a (String b s))) with (ends_with_dash (String b s)).
    rewrite IH. simpl. rewrite Nat.sub_0_r. reflexivity.
Qed.

Lemma no_double_dash_get (s : string) :
  no_double_dash s = true <->
  forall i, String.get i s = Some "-"%char -> String.get (S i) s <> Some "-"%char.
Proof.
  induction s as [|a s IH].
  - simpl. split; [intros _ i H; discriminate|reflexivity].
  - cbn [no_double_dash]. rewrite andb_true_iff, negb_true_iff, IH. split.
    + intros [Ha Hs] [|i] Hget.
      * simpl in Hget. injection Hget as ->. simpl in Ha.
        apply starts_with_dash_get in Ha. exact Ha.
      * simpl in Hget. simpl. apply Hs. exact Hget.
    + intros H. split.
      * destruct (Ascii.eqb_spec a "-") as [-> | Hne]; [|reflexivity].
        simpl. apply starts_with_dash_get. apply (H 0%nat). reflexivity.
      * intros i Hget. apply (H (S i)). exact Hget.
Qed.

Lemma well_formed_slug_tests (s : string) :
  well_formed_slug s <->
  s <> "" /\ slug_chars s = true /\ starts_with_dash s = false /\
  ends_with_dash s = false /\ no_double_dash s = true.
Proof.
  unfold well_formed_slug.
  rewrite slug_chars_get, starts_with_dash_get, ends_with_dash_get, no_double_dash_get.
  reflexivity.
Qed.

(** What [Slugify] computes before it checks the length. *)
Lemma Slugify_eq (U : string -> string) (s : string) :
  Slugify U s =
  if String.eqb s "" then ("", Some (errors_New "empty string not permitted"))
  else match strings_Trim (re_ReplaceAllString (strings_ToLower U s) "-") "-" with
       | EmptyString =>
           ("", Some (errors_New "after removing characters, slug is zero length"))
       | slug => (slug, None)
       end.
Proof.
  unfold Slugify. destruct (String.eqb s ""); [reflexivity|].
  destruct (strings_Trim _ _); reflexivity.
Qed.

Lemma Trim_scan_shape (src : string) :
  let slug := strings_Trim (re_ReplaceAllString src "-") "-" in
  slug_chars slug = true /\ no_double_dash slug = true /\
  ends_with_dash slug = false /\ starts_with_dash slug = false.
Proof.
  cbv zeta. unfold strings_Trim, re_ReplaceAllString.
  destruct (scan_shape src false) as (Hc & Hd & _).
  destruct (TrimRight_shape _ Hc Hd) as (Hc' & Hd' & He').
  apply TrimLeft_shape; assumption.
Qed.

(** Fixed points of the three steps. *)
Lemma to_lower_in_class (c : ascii) :
  in_a_z_or_digit c = true \/ c = "-"%char -> to_lower c = c.
Proof.
  intros [Hc | ->]; [|reflexivity].
  unfold to_lower, in_a_z_or_digit in *.
  destruct ((65 <=? N_of_ascii c)%N && (N_of_ascii c <=? 90)%N) eqn:Hup; [|reflexivity].
  exfalso. apply andb_prop in Hup as [H1 H2].
  apply N.leb_le in H1, H2.
  apply orb_prop in Hc as [Hc|Hc]; apply andb_prop in Hc as [H3 H4];
    apply N.leb_le in H3, H4; lia.
Qed.

Lemma ToLower_bytes_slug_chars (s : string) :
  slug_chars s = true -> ToLower_bytes s = s.
Proof.
  induction s as [|c s IH]; [reflexivity|].
  rewrite slug_chars_cons. intros H. apply andb_prop in H as [Hc Hs].
  simpl. rewrite (IH Hs). f_equal. apply to_lower_in_class.
  apply orb_prop in Hc as [Hc|Hc]; [auto|]. right. apply Ascii.eqb_eq. exact Hc.
Qed.

Lemma scan_fixed (s : string) : forall b,
  slug_chars s = true -> no_double_dash s = true ->
  (b = true -> starts_with_dash s = false) ->
  ReplaceAllString_scan s "-" b = s.
Proof.
  induction s as [|c s IH]; intros b Hc Hd Hb; [reflexivity|].
  rewrite slug_chars_cons in Hc. rewrite no_double_dash_cons in Hd.
  apply andb_prop in Hc as [Hc Hcs]. apply andb_prop in Hd as [Hd Hds].
  rewrite scan_dash_cons.
  destruct (in_a_z_or_digit c) eqn:Hclass.
  - f_equal. apply IH; auto. discriminate.
  - simpl in Hc. assert (c = "-"%char) as -> by (apply Ascii.eqb_eq; exact Hc).
    destruct b; [specialize (Hb eq_refl); discriminate|].
    f_equal. apply IH; auto. intros _.
    simpl in Hd. apply negb_true_iff in Hd. exact Hd.
Qed.

Lemma TrimRight_fixed (s : string) :
  ends_with_dash s = false -> strings_TrimRight s "-" = s.
Proof.
  induction s as [|c s IH]; [reflexivity|]. intros He.
  rewrite TrimRight_cons. destruct s as [|d s].
  - simpl in *. rewrite He. reflexivity.
  - rewrite IH by exact He. reflexivity.
Qed.

Lemma TrimLeft_fixed (s : string) :
  starts_with_dash s = false -> strings_TrimLeft s "-" = s.
Proof.
  destruct s as [|c s]; [reflexivity|]. simpl starts_with_dash. intros Hs.
  rewrite TrimLeft_cons, Hs. reflexivity.
Qed.

Lemma in_class_ASCII (c : ascii) :
  in_a_z_or_digit c = true \/ c = "-"%char -> (N_of_ascii c <? 128)%N = true.
Proof.
  intros [Hc | ->]; [|reflexivity]. unfold in_a_z_or_digit in Hc.
  apply N.ltb_lt.
  apply orb_prop in Hc as [Hc|Hc]; apply andb_prop in Hc as [H3 H4];
    apply N.leb_le in H3, H4; lia.
Qed.

Lemma slug_chars_isASCII (s : string) : slug_chars s = true -> isASCII s = true.
Proof.
  unfold isASCII. induction s as [|c s IH]; [reflexivity|].
  rewrite slug_chars_cons. intros H. apply andb_prop in H as [Hc Hs].
  simpl. rewrite (IH Hs), andb_true_r. apply in_class_ASCII.
  apply orb_prop in Hc as [Hc|Hc]; [auto|]. right. apply Ascii.eqb_eq. exact Hc.
Qed.

Lemma ToLower_slug_chars (U : string -> string) (s : string) :
  slug_chars s = true -> strings_ToLower U s = s.
Proof.
  intros H. unfold strings_ToLower. rewrite (slug_chars_isASCII s H).
  apply ToLower_bytes_slug_chars. exact H.
Qed.

Lemma ToLower_ASCII (U : string -> string) (s : string) :
  isASCII s = true -> strings_ToLower U s = ToLower_bytes s.
Proof. intros H. unfold strings_ToLower. rewrite H. reflexivity. Qed.

Lemma Slugify_fixed (U : string -> string) (s : string) :
  s <> "" -> slug_chars s = true -> starts_with_dash s = false ->
  ends_with_dash s = false -> no_double_dash s = true ->
  Slugify U s = (s, None).
Proof.
  intros Hne Hc Hs He Hd. rewrite Slugify_eq.
  apply String.eqb_neq in Hne. rewrite Hne.
  unfold strings_Trim, re_ReplaceAllString.
  rewrite (ToLower_slug_chars U s Hc).
  rewrite (scan_fixed s false Hc Hd) by discriminate.
  rewrite (TrimRight_fixed s He), (TrimLeft_fixed s Hs).
  destruct s; [discriminate|reflexivity].
Qed.

(** The letters and digits go through the three steps untouched. *)
Lemma letters_scan (s : string) : forall b,
  letters_and_digits (ReplaceAllString_scan s "-" b) = letters_and_digits s.
Proof.
  induction s as [|c s IH]; intros b; [reflexivity|].
  rewrite scan_dash_cons. simpl letters_and_digits at 2.
  destruct (in_a_z_or_digit c) eqn:Hclass.
  - simpl. rewrite Hclass, IH. reflexivity.
  - destruct b; [apply IH|]. simpl. rewrite IH. reflexivity.
Qed.

Lemma letters_TrimLeft (s : string) :
  letters_and_digits (strings_TrimLeft s "-") = letters_and_digits s.
Proof.
  induction s as [|c s IH]; [reflexivity|]. rewrite TrimLeft_cons.
  destruct (Ascii.eqb_spec c "-") as [-> | Hne]; [|reflexivity].
  rewrite IH. reflexivity.
Qed.

Lemma letters_TrimRight (s : string) :
  letters_and_digits (strings_TrimRight s "-") = letters_and_digits s.
Proof.
  induction s as [|c s IH]; [reflexivity|]. rewrite TrimRight_cons.
  simpl letters_and_digits at 2. rewrite <- IH.
  destruct (strings_TrimRight s "-") as [|d r]; [|reflexivity].
  destruct (Ascii.eqb_spec c "-") as [-> | Hne]; [reflexivity|].
  simpl. destruct (in_a_z_or_digit c); reflexivity.
Qed.

Lemma letters_Trim_scan (src : string) :
  letters_and_digits (strings_Trim (re_ReplaceAllString src "-") "-")
  = letters_and_digits src.
Proof.
  unfold strings_Trim, re_ReplaceAllString.
  rewrite letters_TrimLeft, letters_TrimRight, letters_scan. reflexivity.
Qed.

(** Lengths. *)
Lemma length_ToLower_bytes (s : string) :
  String.length (ToLower_bytes s) = String.length s.
Proof. induction s as [|c s IH]; simpl; congruence. Qed.

Lemma length_scan (s : string) : forall b,
  (String.length (ReplaceAllString_scan s "-" b) <= String.length s)%nat.
Proof.
  induction s as [|c s IH]; intros b; [simpl; lia|].
  rewrite scan_dash_cons. pose proof (IH true). pose proof (IH false).
  destruct (in_a_z_or_digit c); [simpl; lia|]. destruct b; simpl; lia.
Qed.

Lemma length_TrimLeft (s : string) :
  (String.length (strings_TrimLeft s "-") <= String.length s)%nat.
Proof.
  induction s as [|c s IH]; [simpl; lia|]. rewrite TrimLeft_cons.
  destruct (Ascii.eqb c "-"); simpl; lia.
Qed.

Lemma length_TrimRight (s : string) :
  (String.length (strings_TrimRight s "-") <= String.length s)%nat.
Proof.
  induction s as [|c s IH]; [simpl; lia|]. rewrite TrimRight_cons.
  destruct (strings_TrimRight s "-"); [destruct (Ascii.eqb c "-")|]; simpl in *; lia.
Qed.

(** Letters and digits of either case are those that are in the class
    once in lower case. *)
Lemma in_class_to_lower (c : ascii) : in_a_z_or_digit (to_lower c) = is_alnum c.
Proof. destruct c as [[] [] [] [] [] [] [] []]; reflexivity. Qed.

Lemma letters_ToLower_empty (s : string) :
  letters_and_digits (ToLower_bytes s) = "" <-> has_alnum s = false.
Proof.
  induction s as [|c s IH]; [simpl; tauto|].
  simpl. rewrite in_class_to_lower. destruct (is_alnum c); simpl.
  - split; discriminate.
  - exact IH.
Qed.

(** A shaped string without letters and digits is empty. *)
Lemma letters_empty_shape (s : string) :
  slug_chars s = true -> starts_with_dash s = false ->
  letters_and_digits s = "" -> s = "".
Proof.
  destruct s as [|c s]; [reflexivity|].
  rewrite slug_chars_cons. simpl. intros Hc Hs.
  rewrite Hs, orb_false_r in Hc. apply andb_prop in Hc as [Hc _].
  rewrite Hc. discriminate.
Qed.

Lemma EqualFold_ToLower_bytes (s t : string) :
  strings_EqualFold s t = true -> ToLower_bytes s = ToLower_bytes t.
Proof.
  revert t. induction s as [|a s IH]; intros [|b t]; simpl; try discriminate.
  - reflexivity.
  - intros H. apply andb_prop in H as [Hab Hst].
    apply Ascii.eqb_eq in Hab. rewrite Hab, (IH t Hst). reflexivity.
Qed.

Lemma to_lower_ASCII (c : ascii) :
  (N_of_ascii (to_lower c) <? 128)%N = (N_of_ascii c <? 128)%N.
Proof. destruct c as [[] [] [] [] [] [] [] []]; reflexivity. Qed.

Lemma EqualFold_isASCII (s t : string) :
  strings_EqualFold s t = true -> isASCII s = isASCII t.
Proof.
  unfold isASCII. revert t.
  induction s as [|a s IH]; intros [|b t]; simpl; try discriminate; [reflexivity|].
  intros H. apply andb_prop in H as [Hab Hst]. apply Ascii.eqb_eq in Hab.
  rewrite (IH t Hst). f_equal.
  rewrite <- (to_lower_ASCII a), <- (to_lower_ASCII b), Hab. reflexivity.
Qed.

Lemma EqualFold_empty (s t : string) :
  strings_EqualFold s t = true -> String.eqb s "" = String.eqb t "".
Proof. destruct s, t; simpl; try discriminate; reflexivity. Qed.

Lemma letters_ToLower_alnums (s : string) :
  letters_and_digits (ToLower_bytes s) = ToLower_bytes (alnums s).
Proof.
  induction s as [|c s IH]; [reflexivity|].
  simpl. rewrite in_class_to_lower. destruct (is_alnum c); simpl; congruence.
Qed.

Lemma length_Trim_scan (src : string) :
  (String.length (strings_Trim (re_ReplaceAllString src "-") "-") <= String.length src)%nat.
Proof.
  unfold strings_Trim, re_ReplaceAllString.
  pose proof (length_TrimLeft (strings_TrimRight (ReplaceAllString_scan src "-" false) "-")).
  pose proof (length_TrimRight (ReplaceAllString_scan src "-" false)).
  pose proof (length_scan src false). lia.
Qed.

(** A successful call returns the trimmed string, which is not empty. *)
Lemma Slugify_ok (U : string -> string) (s slug : string) :
  Slugify U s = (slug, None) ->
  s <> "" /\ slug <> "" /\
  slug = strings_Trim (re_ReplaceAllString (strings_ToLower U s) "-") "-".
Proof.
  rewrite Slugify_eq. destruct (String.eqb_spec s "") as [->|Hne]; [discriminate|].
  destruct (strings_Trim _ _) as [|c r]; [discriminate|].
  intros H. injection H as <-. split; [exact Hne|]. split; [discriminate|reflexivity].
Qed.

Lemma Slugify_shape (U : string -> string) (s slug : string) :
  Slugify U s = (slug, None) ->
  slug <> "" /\ slug_chars slug = true /\ starts_with_dash slug = false /\
  ends_with_dash slug = false /\ no_double_dash slug = true.
Proof.
  intros H. apply Slugify_ok in H as (_ & Hne & ->).
  destruct (Trim_scan_shape (strings_ToLower U s)) as (Hc & Hd & He & Hs).
  auto.
Qed.

(** X1.  A slug that [Slugify] returns is well formed: it is not empty, it
    is made of the letters [a-z], digits and hyphens only, it neither
    starts nor ends with a hyphen, and no two hyphens follow each other.
    This holds for every input, whatever the lower-casing does outside
    ASCII. *)
Theorem Slugify_well_formed (U : string -> string) (s slug : string) :
  Slugify U s = (slug, None) -> well_formed_slug slug.
Proof.
  intros H. apply Slugify_shape in H as (Hne & Hc & Hs & He & Hd).
  apply well_formed_slug_tests. auto.
Qed.

Lemma Slugify_well_formed_witness :
  Slugify ascii_only "NOW!!?? is the time 123" = ("now-is-the-time-123", None) /\
  well_formed_slug "now-is-the-time-123".
Proof.
  split; [reflexivity|].
  apply (Slugify_well_formed ascii_only "NOW!!?? is the time 123"). reflexivity.
Defined.

(** X2.  [Slugify] returns a well-formed slug as it is. *)
Theorem Slugify_fixed_point (U : string -> string) (s : string) :
  well_formed_slug s -> Slugify U s = (s, None).
Proof.
  intros H. apply well_formed_slug_tests in H as (Hne & Hc & Hs & He & Hd).
  apply Slugify_fixed; assumption.
Qed.

Lemma Slugify_fixed_point_witness :
  Slugify ascii_only "now-is-the-time-123" = ("now-is-the-time-123", None).
Proof.
  apply (Slugify_fixed_point ascii_only "now-is-the-time-123").
  apply well_formed_slug_tests. repeat split; try reflexivity. discriminate.
Defined.

(** X3.  [Slugify] is idempotent: a slug it has returned goes through a
    second call unchanged, and without an error. *)
Theorem Slugify_idempotent (U : string -> string) (s slug : string) :
  Slugify U s = (slug, None) -> Slugify U slug = (slug, None).
Proof.
  intros H. apply Slugify_shape in H as (Hne & Hc & Hs & He & Hd).
  apply Slugify_fixed; assumption.
Qed.

Lemma Slugify_idempotent_witness :
  Slugify ascii_only "hello-world" = ("hello-world", None).
Proof.
  apply (Slugify_idempotent ascii_only "Hello, world!"). reflexivity.
Defined.

(** X4.  The errors of [Slugify] on a string of ASCII bytes: the empty
    string is refused as empty; a string without a letter or a digit is
    refused because its slug has length zero; every other string gives a
    slug.  With an error the string returned is empty. *)
Theorem Slugify_error_cases (U : string -> string) (s : string) :
  isASCII s = true ->
  (s = "" -> Slugify U s = ("", Some (errors_New "empty string not permitted"))) /\
  (s <> "" -> has_alnum s = false ->
   Slugify U s = ("", Some (errors_New "after removing characters, slug is zero length"))) /\
  (has_alnum s = true -> exists slug, slug <> "" /\ Slugify U s = (slug, None)).
Proof.
  intros HA. split; [intros ->; reflexivity|].
  pose proof (letters_Trim_scan (ToLower_bytes s)) as Hl.
  destruct (Trim_scan_shape (ToLower_bytes s)) as (Hc & _ & _ & Hs).
  split.
  - intros Hne Hno. rewrite Slugify_eq, (ToLower_ASCII U s HA).
    apply String.eqb_neq in Hne. rewrite Hne.
    apply letters_ToLower_empty in Hno. rewrite Hno in Hl.
    rewrite (letters_empty_shape _ Hc Hs Hl). reflexivity.
  - intros Hyes. rewrite Slugify_eq, (ToLower_ASCII U s HA).
    destruct (String.eqb_spec s "") as [->|Hne]; [discriminate|].
    destruct (strings_Trim _ _) as [|c r] eqn:Htrim.
    + simpl in Hl. symmetry in Hl. apply letters_ToLower_empty in Hl. congruence.
    + eexists. split; [|reflexivity]. discriminate.
Qed.

Lemma Slugify_error_cases_witness :
  Slugify ascii_only "" = ("", Some (errors_New "empty string not permitted")) /\
  Slugify ascii_only "?! ... !?"
  = ("", Some (errors_New "after removing characters, slug is zero length")) /\
  exists slug, slug <> "" /\ Slugify ascii_only "Hello, world!" = (slug, None).
Proof.
  split.
  - apply (Slugify_error_cases ascii_only ""); reflexivity.
  - split.
    + apply (Slugify_error_cases ascii_only "?! ... !?"); [reflexivity|discriminate|reflexivity].
    + apply (Slugify_error_cases ascii_only "Hello, world!"); reflexivity.
Defined.

(** X5.  [Slugify] keeps the letters and digits of an ASCII string, in
    their order and in lower case, and the slug holds no other letter or
    digit: all it adds are hyphens. *)
Theorem Slugify_keeps_letters_and_digits (U : string -> string) (s slug : string) :
  isASCII s = true ->
  Slugify U s = (slug, None) ->
  letters_and_digits slug = ToLower_bytes (alnums s).
Proof.
  intros HA H. apply Slugify_ok in H as (_ & _ & ->).
  rewrite (ToLower_ASCII U s HA), letters_Trim_scan. apply letters_ToLower_alnums.
Qed.

Lemma Slugify_keeps_letters_and_digits_witness :
  letters_and_digits "now-is-the-time-123" = "nowisthetime123".
Proof.
  apply (Slugify_keeps_letters_and_digits ascii_only "NOW!!?? is the time 123");
    reflexivity.
Defined.

(** X6.  [Slugify] does not tell apart two ASCII strings that differ in
    the case of their letters only. *)
Theorem Slugify_ignores_case (U : string -> string) (s t : string) :
  isASCII s = true ->
  strings_EqualFold s t = true ->
  Slugify U s = Slugify U t.
Proof.
  intros HA Hst. rewrite !Slugify_eq.
  rewrite (EqualFold_empty s t Hst).
  rewrite (ToLower_ASCII U s HA).
  rewrite (ToLower_ASCII U t) by (rewrite <- (EqualFold_isASCII s t Hst); exact HA).
  rewrite (EqualFold_ToLower_bytes s t Hst). reflexivity.
Qed.

Lemma Slugify_ignores_case_witness :
  Slugify ascii_only "Hello, World!" = Slugify ascii_only "hELLO, wORLD!".
Proof.
  apply (Slugify_ignores_case ascii_only "Hello, World!" "hELLO, wORLD!"); reflexivity.
Defined.

(** X7.  The slug of an ASCII string is never longer than the string. *)
Theorem Slugify_length (U : string -> string) (s slug : string) :
  isASCII s = true ->
  Slugify U s = (slug, None) ->
  (0 < String.length slug <= String.length s)%nat.
Proof.
  intros HA H. apply Slugify_ok in H as (_ & Hne & ->).
  rewrite (ToLower_ASCII U s HA) in *.
  pose proof (length_Trim_scan (ToLower_bytes s)) as Hlen.
  rewrite length_ToLower_bytes in Hlen.
  destruct (strings_Trim _ _); [congruence|]. simpl in *. lia.
Qed.

Lemma Slugify_length_witness :
  (0 < String.length "now-is-the-time-123"
     <= String.length "NOW!!?? is the time 123")%nat.
Proof.
  apply (Slugify_length ascii_only "NOW!!?? is the time 123"); reflexivity.
Defined.

(** ** The slug as words joined by hyphens *)

Lemma append_snoc (a b : string) (c : ascii) :
  (a +:+ String c "") +:+ b = a +:+ String c b.
Proof.
  induction a as [|x a IH]; [reflexivity|].
  change (String x ((a +:+ String c "") +:+ b) = String x (a +:+ String c b)).
  f_equal. exact IH.
Qed.

Lemma append_nil_l (b : string) : "" +:+ b = b.
Proof. reflexivity. Qed.

Lemma append_cons (x : ascii) (a b : string) : String x a +:+ b = String x (a +:+ b).
Proof. reflexivity. Qed.

Lemma append_empty_r (a : string) : a +:+ "" = a.
Proof.
  induction a as [|x a IH]; [reflexivity|].
  change (String x (a +:+ "") = String x a). f_equal. exact IH.
Qed.

Lemma append_eq_empty (a b : string) : a +:+ b = "" -> a = "" /\ b = "".
Proof. destruct a; [auto|discriminate]. Qed.

Lemma all_in_class_snoc (a : string) (c : ascii) :
  all_in_class a = true -> in_a_z_or_digit c = true ->
  all_in_class (a +:+ String c "") = true.
Proof.
  induction a as [|x a IH]; intros Ha Hc.
  - rewrite append_nil_l. simpl. rewrite Hc. reflexivity.
  - rewrite append_cons. simpl in *.
    apply andb_prop in Ha as [Hx Ha]. rewrite Hx, (IH Ha Hc). reflexivity.
Qed.

Lemma TrimRight_app (a b : string) :
  strings_TrimRight (a +:+ b) "-" =
  match strings_TrimRight b "-" with
  | EmptyString => strings_TrimRight a "-"
  | r => a +:+ r
  end.
Proof.
  induction a as [|x a IH].
  - rewrite append_nil_l. destruct (strings_TrimRight b "-"); reflexivity.
  - rewrite append_cons, !TrimRight_cons, IH.
    destruct (strings_TrimRight b "-") as [|y r]; [reflexivity|].
    rewrite append_cons. destruct a; reflexivity.
Qed.

Lemma TrimRight_all_in_class (a : string) :
  all_in_class a = true -> strings_TrimRight a "-" = a.
Proof.
  induction a as [|x a IH]; [reflexivity|]. simpl all_in_class. intros H.
  apply andb_prop in H as [Hx Ha]. rewrite TrimRight_cons, (IH Ha).
  rewrite (in_class_not_dash x Hx). destruct a; reflexivity.
Qed.

Lemma split_words_not_empty (s : string) : forall cur w,
  In w (split_words s cur) -> w <> "".
Proof.
  induction s as [|c s IH]; intros cur w; simpl.
  - destruct (String.eqb_spec cur ""); simpl; [tauto|]. intros [<-|[]]. assumption.
  - destruct (in_a_z_or_digit c); [apply IH|].
    destruct (String.eqb_spec cur ""); [apply IH|].
    intros [<-|Hin]; [assumption|]. exact (IH _ _ Hin).
Qed.

Lemma Join_empty (ws : list string) :
  (forall w, In w ws -> w <> "") -> strings_Join ws "-" = "" -> ws = [].
Proof.
  destruct ws as [|x [|y ws]]; [reflexivity| |]; simpl; intros Hne H.
  - exfalso. apply (Hne x); auto.
  - apply append_eq_empty in H as [Hx _]. exfalso. apply (Hne x); simpl; auto.
Qed.

Lemma Join_cons (x : string) (ws : list string) :
  strings_Join (x :: ws) "-" =
  match ws with
  | [] => x
  | _ => x +:+ "-" +:+ strings_Join ws "-"
  end.
Proof. destruct ws; reflexivity. Qed.

(** The scan of a text after the word [cur], with the hyphens at its end
    removed, is the words joined by hyphens. *)
Lemma TrimRight_scan_words (s : string) : forall cur,
  all_in_class cur = true ->
  strings_TrimRight (cur +:+ ReplaceAllString_scan s "-" (String.eqb cur "")) "-"
  = strings_Join (split_words s cur) "-".
Proof.
  induction s as [|c s IH]; intros cur Hcur.
  - simpl ReplaceAllString_scan. rewrite append_empty_r.
    rewrite (TrimRight_all_in_class cur Hcur). simpl.
    destruct (String.eqb_spec cur "") as [->|]; reflexivity.
  - rewrite scan_dash_cons. simpl split_words.
    destruct (in_a_z_or_digit c) eqn:Hc.
    + rewrite <- append_snoc.
      rewrite <- (IH (cur +:+ String c "") (all_in_class_snoc cur c Hcur Hc)).
      replace (String.eqb (cur +:+ String c "") "") with false; [reflexivity|].
      symmetry. apply String.eqb_neq. intros H. apply append_eq_empty in H as [_ H].
      discriminate.
    + destruct (String.eqb_spec cur "") as [->|Hne].
      * exact (IH "" eq_refl).
      * pose proof (IH "" eq_refl) as IH0. rewrite append_nil_l in IH0. simpl in IH0.
        change (cur +:+ String "-" (ReplaceAllString_scan s "-" true))
          with (cur +:+ ("-" +:+ ReplaceAllString_scan s "-" true)).
        rewrite TrimRight_app.
        change ("-" +:+ ReplaceAllString_scan s "-" true)
          with (String "-" (ReplaceAllString_scan s "-" true)).
        rewrite TrimRight_cons, IH0, Join_cons.
        destruct (strings_Join (split_words s "") "-") as [|y r] eqn:HJ.
        -- rewrite (Join_empty _ (split_words_not_empty s "") HJ).
           simpl. apply TrimRight_all_in_class. exact Hcur.
        -- destruct (split_words s "") as [|w ws]; [discriminate|]. reflexivity.
Qed.

Lemma scan_false_true (s : string) :
  ReplaceAllString_scan s "-" false = ReplaceAllString_scan s "-" true \/
  ReplaceAllString_scan s "-" false = String "-" (ReplaceAllString_scan s "-" true).
Proof.
  destruct s as [|c s]; [left; reflexivity|]. rewrite !scan_dash_cons.
  destruct (in_a_z_or_digit c); [left|right]; reflexivity.
Qed.

Lemma Trim_scan_words (src : string) :
  strings_Trim (re_ReplaceAllString src "-") "-" = strings_Join (words src) "-".
Proof.
  unfold strings_Trim, re_ReplaceAllString, words.
  pose proof (TrimRight_scan_words src "" eq_refl) as Hw.
  rewrite append_nil_l in Hw. simpl in Hw.
  assert (Hfix : strings_TrimLeft (strings_TrimRight (ReplaceAllString_scan src "-" true) "-") "-"
                 = strings_TrimRight (ReplaceAllString_scan src "-" true) "-").
  { apply TrimLeft_fixed.
    destruct (starts_with_dash (strings_TrimRight _ "-")) eqn:Hs; [|reflexivity].
    apply TrimRight_starts in Hs.
    destruct (scan_shape src true) as (_ & _ & Hno). rewrite (Hno eq_refl) in Hs.
    discriminate. }
  destruct (scan_false_true src) as [-> | ->].
  - rewrite Hfix. exact Hw.
  - rewrite TrimRight_cons.
    destruct (strings_TrimRight (ReplaceAllString_scan src "-" true) "-") as [|y r] eqn:HT.
    + simpl. exact Hw.
    + rewrite TrimLeft_cons. simpl Ascii.eqb. cbv iota. rewrite Hfix in *.
      rewrite <- Hw. reflexivity.
Qed.

(** X8.  The slug of an ASCII string is its words, in lower case, joined
    by single hyphens; a word is a maximal run of letters and digits. *)
Theorem Slugify_joins_words (U : string -> string) (s slug : string) :
  isASCII s = true ->
  Slugify U s = (slug, None) ->
  slug = strings_Join (words (ToLower_bytes s)) "-".
Proof.
  intros HA H. apply Slugify_ok in H as (_ & _ & ->).
  rewrite (ToLower_ASCII U s HA). apply Trim_scan_words.
Qed.

Lemma Slugify_joins_words_witness :
  "now-is-the-time-123" = strings_Join ["now"; "is"; "the"; "time"; "123"] "-".
Proof.
  apply (Slugify_joins_words ascii_only "NOW!!?? is the time 123"); reflexivity.
Defined.

(** ** More on RandomString *)

Lemma string_get_ext (a b : string) :
  (forall i, String.get i a = String.get i b) -> a = b.
Proof.
  revert b. induction a as [|x a IH]; intros [|y b] H.
  - reflexivity.
  - specialize (H 0%nat). discriminate.
  - specialize (H 0%nat). discriminate.
  - pose proof (H 0%nat) as H0. simpl in H0. injection H0 as ->.
    f_equal. apply IH. intros i. exact (H (S i)).
Qed.

Lemma get_beyond (s : string) (i : nat) :
  (String.length s <= i)%nat -> String.get i s = None.
Proof.
  revert i. induction s as [|c s IH]; intros i Hi; [destruct i; reflexivity|].
  destruct i as [|i]; simpl in *; [lia|]. apply IH. lia.
Qed.

Lemma RandomString_loop_app (r : list ascii) (m n : nat) : forall w,
  RandomString_loop r (m + n) w =
  ((RandomString_loop r m w).1 ++ (RandomString_loop r n (RandomString_loop r m w).2).1,
   (RandomString_loop r n (RandomString_loop r m w).2).2).
Proof.
  induction m as [|m IH]; intros w.
  - simpl. destruct (RandomString_loop r n w); reflexivity.
  - simpl. rewrite IH.
    destruct (RandomString_loop r m _) as [s1 w1]. simpl.
    destruct (RandomString_loop r n w1) as [s2 w2]. reflexivity.
Qed.

Lemma string_of_list_ascii_app (a b : list ascii) :
  string_of_list_ascii (a ++ b) = string_of_list_ascii a +:+ string_of_list_ascii b.
Proof.
  induction a as [|x a IH]; [reflexivity|].
  change (String x (string_of_list_ascii (a ++ b))
          = String x (string_of_list_ascii a +:+ string_of_list_ascii b)).
  f_equal. exact IH.
Qed.

(** X9.  [RandomString(n)] returns [n] characters, each of them a
    character of [randomStringSource]; it draws [n] numbers from the
    random source and leaves the file system alone. *)
Theorem RandomString_result (n : nat) (w : World) :
  String.length (RandomString n w).1 = n /\
  (forall i c, String.get i (RandomString n w).1 = Some c ->
     exists k, (k < 64)%nat /\ String.get k randomStringSource = Some c) /\
  fs (RandomString n w).2 = fs w /\
  primes (RandomString n w).2 = primes w /\
  drawn (RandomString n w).2 = (drawn w + n)%nat.
Proof.
  split; [apply RandomString_length|]. split.
  - intros i c Hget.
    assert (Hi : (i < n)%nat).
    { destruct (Nat.lt_ge_cases i n) as [Hi|Hi]; [exact Hi|].
      rewrite get_beyond in Hget by (rewrite RandomString_length; exact Hi).
      discriminate. }
    rewrite (RandomString_get n w i Hi) in Hget.
    exists (Z.to_nat (Uint64 (primes w (drawn w + i)%nat) mod 64)). split; [|exact Hget].
    pose proof (Z.mod_pos_bound (Uint64 (primes w (drawn w + i)%nat)) 64). lia.
  - rewrite RandomString_world. auto.
Qed.

Lemma RandomString_result_witness :
  String.length (RandomString 25 sample_world).1 = 25%nat /\
  drawn (RandomString 25 sample_world).2 = 25%nat.
Proof.
  pose proof (RandomString_result 25 sample_world) as (Hlen & _ & _ & _ & Hdrawn).
  split; [exact Hlen|exact Hdrawn].
Defined.

(** X10.  A string of [m + n] random characters is a string of [m]
    characters followed by the string of [n] characters made in the world
    the first one leaves behind. *)
Theorem RandomString_add (m n : nat) (w : World) :
  RandomString (m + n) w =
  ((RandomString m w).1 +:+ (RandomString n (RandomString m w).2).1,
   (RandomString n (RandomString m w).2).2).
Proof.
  unfold RandomString. rewrite RandomString_loop_app.
  destruct (RandomString_loop _ m w) as [s1 w1]. simpl.
  destruct (RandomString_loop _ n w1) as [s2 w2]. simpl.
  rewrite string_of_list_ascii_app. reflexivity.
Qed.

(** X11.  Only the last six bits of the numbers drawn reach the result:
    two random sources whose numbers agree modulo 64 give the same
    string. *)
Theorem RandomString_low_bits (n : nat) (w w' : World) :
  (forall i, (i < n)%nat ->
     primes w (drawn w + i)%nat mod 64 = primes w' (drawn w' + i)%nat mod 64) ->
  (RandomString n w).1 = (RandomString n w').1.
Proof.
  intros H. apply string_get_ext. intros i.
  destruct (Nat.lt_ge_cases i n) as [Hi|Hi].
  - rewrite !RandomString_get by exact Hi. unfold Uint64.
    assert (Hdiv : forall p, (p mod 2 ^ 64) mod 64 = p mod 64).
    { intros p. apply Z.mod_mod_divide. exists (2 ^ 58). reflexivity. }
    rewrite !Hdiv, (H i Hi). reflexivity.
  - rewrite !get_beyond by (rewrite RandomString_length; exact Hi). reflexivity.
Qed.

Lemma RandomString_low_bits_witness :
  (RandomString 25 sample_world).1 =
  (RandomString 25 {| fs := ∅; primes := fun i => sample_source i + 64 * 3; drawn := 0 |}).1.
Proof.
  apply (RandomString_low_bits 25 sample_world).
  intros i _. simpl. symmetry. rewrite Z.mul_comm. apply Z_mod_plus_full.
Defined.

(** ** More on CreateDirIfNotExist *)

Lemma set_fs_same (w : World) : set_fs w (fs w) = w.
Proof. destruct w; reflexivity. Qed.

(** The three ways through [CreateDirIfNotExist]. *)
Lemma CreateDirIfNotExist_cases path w :
  CreateDirIfNotExist path w =
  if String.eqb path "" then (Some (PathError "mkdir" path ENOENT), w)
  else match walk (fs w) [] (resolve path) with
       | inr ENOENT =>
           (option_map (PathError "mkdir" path)
              (mkdirs perm_0755 (fs w) [] (resolve path)).2,
            set_fs w (mkdirs perm_0755 (fs w) [] (resolve path)).1)
       | _ => (None, w)
       end.
Proof.
  unfold CreateDirIfNotExist, os_Stat, os_MkdirAll, mode.
  destruct (String.eqb path "") eqn:Hpath; [destruct w; reflexivity|].
  destruct (walk (fs w) [] (resolve path)) as [n|[]]; try reflexivity.
  cbn [os_IsNotExist]. cbv zeta.
  destruct (mkdirs perm_0755 (fs w) [] (resolve path)) as [fs' [errno|]]; reflexivity.
Qed.

Lemma walk_found fs rest : forall cur n,
  walk fs cur rest = inl n -> node_at fs (cur ++ rest) = Some n.
Proof.
  induction rest as [|e rest IH]; intros cur n H; simpl in H.
  - rewrite app_nil_r. destruct (node_at fs cur); [congruence|discriminate].
  - destruct (node_at fs cur) as [[pm|d]|]; try discriminate.
    replace (cur ++ e :: rest) with ((cur ++ [e]) ++ rest)
      by (rewrite <- app_assoc; reflexivity).
    apply IH. exact H.
Qed.

(** In a well-formed tree [mkdirs] fails before it creates anything. *)
Lemma mkdirs_error_unchanged perm rest : forall fs cur,
  wf_fs fs -> owner_writable perm = true ->
  (mkdirs perm fs cur rest).2 <> None -> (mkdirs perm fs cur rest).1 = fs.
Proof.
  induction rest as [|e rest IH]; intros fs cur Hwf Hperm Herr; simpl in *.
  - destruct (node_at fs cur) as [[pm|d]|]; reflexivity.
  - destruct (node_at fs cur) as [[pm|d]|] eqn:Hcur; try reflexivity.
    destruct (fs !! (cur ++ [e])) as [n'|] eqn:Hnext; [apply IH; assumption|].
    destruct (owner_writable pm); [|reflexivity].
    exfalso. apply Herr.
    apply (mkdirs_fresh perm rest _ _ perm Hperm).
    + apply node_at_insert_eq. apply snoc_not_nil.
    + exact Hperm.
    + intros s Hs. rewrite lookup_insert_ne.
      * apply below_missing; [exact Hwf|apply snoc_not_nil|exact Hnext].
      * intros Heq. apply (f_equal length) in Heq.
        rewrite !length_app in Heq. destruct s; [congruence|simpl in Heq; lia].
Qed.

(** Adding an entry to a directory keeps the tree well formed. *)
Lemma wf_fs_insert_new fs (p : list string) (n : node) (pm : Z) :
  wf_fs fs -> p <> [] -> node_at fs (removelast p) = Some (Dir pm) ->
  fs !! p = None ->
  wf_fs (<[p := n]> fs).
Proof.
  intros Hwf Hp Hparent Hnone key m Hkey.
  assert (Hrl : removelast p <> p).
  { intros Heq. apply (f_equal length) in Heq.
    destruct (exists_last Hp) as (l & x & ->).
    rewrite removelast_last, length_app in Heq. simpl in Heq. lia. }
  destruct (decide (key = p)) as [->|Hne].
  - split; [exact Hp|]. exists pm.
    rewrite node_at_insert_ne; [exact Hparent|]. congruence.
  - rewrite lookup_insert_ne in Hkey by congruence.
    destruct (Hwf _ _ Hkey) as [Hk [pm' Hpar]]. split; [exact Hk|]. exists pm'.
    rewrite node_at_insert_ne; [exact Hpar|].
    intros ->. destruct (removelast key) as [|a l] eqn:Hr.
    + congruence.
    + unfold node_at in Hpar. congruence.
Qed.

(** Replacing a regular file by a regular file keeps the tree well
    formed. *)
Lemma wf_fs_insert_file fs (p : list string) (d d' : list byte) :
  wf_fs fs -> fs !! p = Some (RegularFile d) ->
  wf_fs (<[p := RegularFile d']> fs).
Proof.
  intros Hwf Hfile key m Hkey.
  destruct (Hwf _ _ Hfile) as [Hp [pm Hparent]].
  assert (Hrl : removelast p <> p).
  { intros Heq. apply (f_equal length) in Heq.
    destruct (exists_last Hp) as (l & x & ->).
    rewrite removelast_last, length_app in Heq. simpl in Heq. lia. }
  destruct (decide (key = p)) as [->|Hne].
  - split; [exact Hp|]. exists pm.
    rewrite node_at_insert_ne; [exact Hparent|]. congruence.
  - rewrite lookup_insert_ne in Hkey by congruence.
    destruct (Hwf _ _ Hkey) as [Hk [pm' Hpar]]. split; [exact Hk|]. exists pm'.
    rewrite node_at_insert_ne; [exact Hpar|].
    intros ->. destruct (removelast key) as [|a l] eqn:Hr.
    + congruence.
    + unfold node_at in Hpar. congruence.
Qed.

Lemma mkdirs_wf perm rest : forall fs cur,
  wf_fs fs -> wf_fs (mkdirs perm fs cur rest).1.
Proof.
  induction rest as [|e rest IH]; intros fs cur Hwf; simpl.
  - destruct (node_at fs cur) as [[pm|d]|]; exact Hwf.
  - destruct (node_at fs cur) as [[pm|d]|] eqn:Hcur; try exact Hwf.
    destruct (fs !! (cur ++ [e])) as [n'|] eqn:Hnext; [apply IH; exact Hwf|].
    destruct (owner_writable pm); [|exact Hwf].
    apply IH. apply (wf_fs_insert_new fs (cur ++ [e]) (Dir perm) pm Hwf).
    + apply snoc_not_nil.
    + rewrite removelast_last. exact Hcur.
    + exact Hnext.
Qed.

Lemma mkdirs_writable perm rest : forall fs cur,
  owner_writable perm = true ->
  dirs_writable fs -> dirs_writable (mkdirs perm fs cur rest).1.
Proof.
  intros fs cur Hperm Hw key pm Hkey.
  destruct (fs !! key) as [n|] eqn:Hold.
  - rewrite (mkdirs_keeps perm rest fs cur key n Hold) in Hkey.
    injection Hkey as ->. exact (Hw _ _ Hold).
  - destruct (mkdirs_adds perm rest fs cur key _ Hold Hkey) as [Heq _].
    injection Heq as ->. exact Hperm.
Qed.

(** X12.  [CreateDirIfNotExist] is idempotent: after a call that returned
    [nil], a second call on the same path returns [nil] as well and
    changes nothing. *)
Theorem CreateDirIfNotExist_idempotent path w w' :
  CreateDirIfNotExist path w = (None, w') ->
  CreateDirIfNotExist path w' = (None, w').
Proof.
  rewrite (CreateDirIfNotExist_cases path w), (CreateDirIfNotExist_cases path w').
  destruct (String.eqb path ""); [discriminate|].
  destruct (walk (fs w) [] (resolve path)) as [n|errno] eqn:Hwalk.
  - intros H. injection H as <-. rewrite Hwalk. reflexivity.
  - destruct errno;
      try (intros H; injection H as <-; rewrite Hwalk; reflexivity).
    pose proof (mkdirs_ok perm_0755 (resolve path) (fs w) []) as Hok.
    destruct (mkdirs perm_0755 (fs w) [] (resolve path)) as [fs' [errno|]];
      simpl in *; [discriminate|].
    intros H. injection H as <-. cbn [fs set_fs].
    destruct (Hok eq_refl) as [pm ->]. reflexivity.
Qed.

Lemma CreateDirIfNotExist_idempotent_witness :
  CreateDirIfNotExist "uploads/2024"
    {| fs := {[ ["uploads"] := Dir perm_0755; ["uploads"; "2024"] := Dir perm_0755 ]};
       primes := sample_source; drawn := 0 |}
  = (None,
     {| fs := {[ ["uploads"] := Dir perm_0755; ["uploads"; "2024"] := Dir perm_0755 ]};
        primes := sample_source; drawn := 0 |}).
Proof.
  apply (CreateDirIfNotExist_idempotent "uploads/2024" sample_world).
  vm_compute. reflexivity.
Defined.

(** X13.  In a well-formed tree, and for a path that the system takes
    as it is written ([plain_path]: no [..] element, no NUL byte, no name
    too long), [CreateDirIfNotExist] creates all of the path or nothing:
    a call that returns an error leaves the world as it was. *)
Theorem CreateDirIfNotExist_error_changes_nothing path w :
  plain_path path = true ->
  wf_fs (fs w) ->
  (CreateDirIfNotExist path w).1 <> None ->
  (CreateDirIfNotExist path w).2 = w.
Proof.
  intros _ Hwf. rewrite CreateDirIfNotExist_cases.
  destruct (String.eqb path ""); [intros _; reflexivity|].
  destruct (walk (fs w) [] (resolve path)) as [n|errno]; [intros _; reflexivity|].
  destruct errno; try (intros _; reflexivity).
  pose proof (mkdirs_error_unchanged perm_0755 (resolve path) (fs w) [] Hwf eq_refl) as Hsame.
  destruct (mkdirs perm_0755 (fs w) [] (resolve path)) as [fs' [errno|]];
    cbn [fst snd option_map] in *; [|intros H; contradiction H; reflexivity].
  intros _. rewrite Hsame by discriminate. apply set_fs_same.
Qed.

Lemma read_only_world_wf : wf_fs (fs read_only_world).
Proof.
  intros key n Hkey. simpl in Hkey.
  apply lookup_singleton_Some in Hkey as [<- _].
  split; [discriminate|]. exists perm_0755. reflexivity.
Qed.

Lemma CreateDirIfNotExist_error_changes_nothing_witness :
  (CreateDirIfNotExist "ro/uploads/2024" read_only_world).2 = read_only_world.
Proof.
  apply (CreateDirIfNotExist_error_changes_nothing "ro/uploads/2024" read_only_world).
  - reflexivity.
  - exact read_only_world_wf.
  - vm_compute. discriminate.
Defined.

Lemma CreateDirIfNotExist_wf path w :
  wf_fs (fs w) -> wf_fs (fs (CreateDirIfNotExist path w).2).
Proof.
  rewrite CreateDirIfNotExist_cases.
  destruct (String.eqb path ""); [trivial|].
  destruct (walk (fs w) [] (resolve path)) as [n|errno]; [trivial|].
  destruct errno; trivial.
  cbn [snd fs set_fs]. intros Hwf.
  exact (mkdirs_wf perm_0755 (resolve path) (fs w) [] Hwf).
Qed.

Lemma CreateDirIfNotExist_writable path w :
  dirs_writable (fs w) -> dirs_writable (fs (CreateDirIfNotExist path w).2).
Proof.
  rewrite CreateDirIfNotExist_cases.
  destruct (String.eqb path ""); [trivial|].
  destruct (walk (fs w) [] (resolve path)) as [n|errno]; [trivial|].
  destruct errno; trivial.
  cbn [snd fs set_fs]. intros Hw.
  exact (mkdirs_writable perm_0755 (resolve path) (fs w) [] eq_refl Hw).
Qed.

(** X14.  [CreateDirIfNotExist] keeps a tree well formed, and keeps every
    directory writable by its owner when every directory was. *)
Theorem CreateDirIfNotExist_keeps_tree path w :
  (wf_fs (fs w) -> wf_fs (fs (CreateDirIfNotExist path w).2)) /\
  (dirs_writable (fs w) -> dirs_writable (fs (CreateDirIfNotExist path w).2)).
Proof.
  split; [apply CreateDirIfNotExist_wf|apply CreateDirIfNotExist_writable].
Qed.

Lemma empty_fs_wf : wf_fs (∅ : gmap (list string) node).
Proof. intros key n Hkey. rewrite lookup_empty in Hkey. discriminate. Qed.

Lemma empty_fs_writable : dirs_writable (∅ : gmap (list string) node).
Proof. intros key n Hkey. rewrite lookup_empty in Hkey. discriminate. Qed.

Lemma CreateDirIfNotExist_keeps_tree_witness :
  wf_fs (fs (CreateDirIfNotExist "uploads/2024" sample_world).2) /\
  dirs_writable (fs (CreateDirIfNotExist "uploads/2024" sample_world).2).
Proof.
  split.
  - apply (CreateDirIfNotExist_keeps_tree "uploads/2024" sample_world). exact empty_fs_wf.
  - apply (CreateDirIfNotExist_keeps_tree "uploads/2024" sample_world).
    exact empty_fs_writable.
Defined.

(** ** The world across an upload *)

Lemma stored_name_world rn hdr w :
  fs (stored_name rn hdr w).2 = fs w /\
  primes (stored_name rn hdr w).2 = primes w /\
  drawn (stored_name rn hdr w).2 = (drawn w + if rn then 25 else 0)%nat.
Proof.
  unfold stored_name. destruct rn.
  - pose proof (RandomString_world 25 w) as H.
    destruct (RandomString 25 w) as [rs w1]. cbn [fst snd] in *. subst w1.
    cbn [fs primes drawn]. auto.
  - cbn [fst snd]. rewrite Nat.add_0_r. auto.
Qed.

(** [os.Create] changes nothing when it fails, and its error is an
    [open] error. *)
Lemma os_Create_error fs name fs1 e :
  os_Create fs name = (fs1, inr e) ->
  fs1 = fs /\ exists p errno, e = PathError "open" p errno.
Proof.
  unfold os_Create.
  destruct (String.eqb name ""); [intros H; injection H as <- <-; eauto|].
  destruct (resolve name) as [|x p]; [intros H; injection H as <- <-; eauto|].
  destruct (walk fs [] (removelast (x :: p))) as [[pm|d]|err];
    try (intros H; injection H as <- <-; eauto).
  destruct (fs !! (x :: p)) as [[pm'|d]|]; try discriminate;
    try (intros H; injection H as <- <-; eauto).
  destruct (owner_writable pm); [discriminate|].
  intros H; injection H as <- <-; eauto.
Qed.

Lemma os_Create_not_dir fs name fs1 handle :
  os_Create fs name = (fs1, inl handle) ->
  fs !! handle = None \/ exists d, fs !! handle = Some (RegularFile d).
Proof.
  unfold os_Create.
  destruct (String.eqb name ""); [discriminate|].
  destruct (resolve name) as [|x p]; [discriminate|].
  destruct (walk fs [] (removelast (x :: p))) as [[pm|d]|err]; try discriminate.
  destruct (fs !! (x :: p)) as [[pm'|d]|] eqn:Hl; try discriminate.
  - intros H. injection H as _ <-. right. eauto.
  - destruct (owner_writable pm); [|discriminate].
    intros H. injection H as _ <-. left. exact Hl.
Qed.

(** What one call of the function literal does to the world. *)
Lemma upload_one_world t rn dir hdr acc w :
  part_effect (resolve (filepath_Join dir (stored_name rn hdr w).1))
              (if rn then 25 else 0) w (upload_one t rn dir hdr acc w).2.
Proof.
  rewrite upload_one_eq. unfold upload_one_stages.
  destruct (stored_name_world rn hdr w) as (Hfs & Hpr & Hdr).
  destruct (stored_name rn hdr w) as [name w1]. cbn [fst snd] in *.
  set (dst := resolve (filepath_Join dir name)).
  set (k := if rn then 25%nat else 0%nat) in *.
  assert (Hnone : part_effect dst k w w) by (left; reflexivity).
  assert (Hstay : part_effect dst k w (set_fs w1 (fs w1))).
  { right. cbn [set_fs primes drawn fs]. auto. }
  assert (Hwrite : forall fs1 h bs,
            os_Create (fs w1) (filepath_Join dir name) = (fs1, inl h) ->
            part_effect dst k w (set_fs w1 (file_Write fs1 h bs))).
  { intros fs1 h bs Hc. pose proof (os_Create_not_dir _ _ _ _ Hc) as Hnd.
    apply os_Create_ok in Hc as (_ & Hh & Hne & Hfs1 & pm & Hparent).
    subst h fs1. fold dst in Hnd, Hne, Hparent |- *.
    rewrite file_Write_created. rewrite Hfs in *.
    right. cbn [set_fs primes drawn fs].
    split; [exact Hpr|]. split; [exact Hdr|]. right. exists bs, pm.
    split; [reflexivity|]. split; [exact Hne|]. split; [exact Hparent|exact Hnd]. }
  destruct (os_Create (fs w1) (filepath_Join dir name)) as [fs1 [h|e]] eqn:Hcreate.
  - specialize (fun bs => Hwrite fs1 h bs eq_refl).
    destruct (fault hdr) as [[eo|er|es|j ec]|]; try exact Hnone;
      (destruct (content hdr) as [|b0 bs]; [exact Hnone|]);
      (destruct (type_allowed t _); cbn [negb]; [|exact Hnone]);
      try exact Hnone; apply Hwrite.
  - apply os_Create_error in Hcreate as [-> _].
    destruct (fault hdr) as [[eo|er|es|j ec]|]; try exact Hnone;
      (destruct (content hdr) as [|b0 bs]; [exact Hnone|]);
      (destruct (type_allowed t _); cbn [negb]; [|exact Hnone]);
      try exact Hnone; exact Hstay.
Qed.

Section WorldRelation.

Variables (t : Tools) (rn : bool) (dir : string).

(** [R] relates the world before a step to the world after it; [Q] is
    what is known of the file headers. *)
Variable R : World -> World -> Prop.
Variable Q : FileHeader -> Prop.
Hypothesis R_refl : forall w, R w w.
Hypothesis R_trans : forall a b c, R a b -> R b c -> R a c.
Hypothesis R_one : forall hdr acc w, Q hdr -> R w (upload_one t rn dir hdr acc w).2.

Lemma headers_loop_world hdrs : forall acc w,
  Forall Q hdrs -> R w (headers_loop t rn dir hdrs acc w).2.
Proof.
  induction hdrs as [|hdr hdrs IH]; intros acc w HQ; simpl.
  - apply R_refl.
  - apply Forall_cons in HQ as [Hhdr HQ].
    pose proof (R_one hdr acc w Hhdr) as Hone.
    destruct (upload_one t rn dir hdr acc w) as [[res1 [e1|]] w1]; cbn [fst snd] in *.
    + exact Hone.
    + apply (R_trans _ w1); [exact Hone|]. apply IH. exact HQ.
Qed.

Lemma form_loop_world files : forall acc w,
  Forall Q (concat (map snd files)) -> R w (form_loop t rn dir files acc w).2.
Proof.
  induction files as [|[name hdrs] files IH]; intros acc w HQ; simpl.
  - apply R_refl.
  - simpl in HQ. apply Forall_app in HQ as [Hh HQ].
    pose proof (headers_loop_world hdrs acc w Hh) as Hloop.
    destruct (headers_loop t rn dir hdrs acc w) as [[res1 [e1|]] w1]; cbn [fst snd] in *.
    + exact Hloop.
    + apply (R_trans _ w1); [exact Hloop|]. apply IH. exact HQ.
Qed.

End WorldRelation.

(** A relation between worlds that holds across the creation of the
    directory and across every part holds across the call. *)
Lemma UploadFiles_world (R : World -> World -> Prop) (Q : FileHeader -> Prop)
    t r dir rename w :
  (forall w0, R w0 w0) ->
  (forall a b c, R a b -> R b c -> R a c) ->
  (forall t' hdr acc w0,
     Q hdr -> R w0 (upload_one t' (renameFile_of rename) dir hdr acc w0).2) ->
  R w (CreateDirIfNotExist dir w).2 ->
  (forall form,
     ParseMultipartForm r (int64 (MaxFileSize (effective_policy t))) = inl form ->
     Forall Q (headers_of form)) ->
  R w (UploadFiles t r dir rename w).2.
Proof.
  intros Hrefl Htrans Hone Hdir HQ. unfold UploadFiles.
  fold (effective_policy t).
  destruct (CreateDirIfNotExist dir w) as [[e|] w1]; cbn [fst snd] in *; [exact Hdir|].
  destruct (ParseMultipartForm r (int64 (MaxFileSize (effective_policy t))))
    as [form|e] eqn:Hparse; [|exact Hdir].
  pose proof (form_loop_world (effective_policy t) (renameFile_of rename) dir R Q
                Hrefl Htrans (Hone _) (File form) [] w1 (HQ form eq_refl)) as Hloop.
  destruct (form_loop _ _ _ _ _ _) as [res w2]. cbn [fst snd] in *.
  apply (Htrans _ w1); assumption.
Qed.

Lemma CreateDirIfNotExist_keeps path w key n :
  fs w !! key = Some n -> fs (CreateDirIfNotExist path w).2 !! key = Some n.
Proof.
  rewrite CreateDirIfNotExist_cases.
  destruct (String.eqb path ""); [trivial|].
  destruct (walk (fs w) [] (resolve path)) as [m|errno]; [trivial|].
  destruct errno; trivial. cbn [snd fs set_fs]. apply mkdirs_keeps.
Qed.

Lemma CreateDirIfNotExist_adds path w key n :
  fs w !! key = None -> fs (CreateDirIfNotExist path w).2 !! key = Some n ->
  n = Dir perm_0755 /\ key `prefix_of` resolve path.
Proof.
  rewrite CreateDirIfNotExist_cases.
  destruct (String.eqb path ""); [cbn [snd]; congruence|].
  destruct (walk (fs w) [] (resolve path)) as [m|errno]; [cbn [snd]; congruence|].
  destruct errno; try (cbn [snd]; congruence). cbn [snd fs set_fs].
  apply (mkdirs_adds perm_0755 (resolve path) (fs w) []).
Qed.

Lemma same_kind_refl (n : node) : same_kind n n.
Proof. destruct n; simpl; eauto. Qed.

Lemma same_kind_trans (a b c : node) : same_kind a b -> same_kind b c -> same_kind a c.
Proof.
  destruct a; simpl.
  - intros ->. simpl. trivial.
  - intros [d ->]. simpl. trivial.
Qed.

Lemma dirs_writable_insert_file fs (p : list string) (bs : list byte) :
  dirs_writable fs -> dirs_writable (<[p := RegularFile bs]> fs).
Proof.
  intros Hw key pm Hkey. destruct (decide (key = p)) as [->|Hne].
  - rewrite lookup_insert_eq in Hkey. discriminate.
  - rewrite lookup_insert_ne in Hkey by congruence. exact (Hw _ _ Hkey).
Qed.

(** X15.  [UploadFiles] keeps the tree well formed, and keeps every
    directory writable by its owner when every directory was. *)
Theorem UploadFiles_keeps_tree t r dir rename w :
  (wf_fs (fs w) -> wf_fs (fs (UploadFiles t r dir rename w).2)) /\
  (dirs_writable (fs w) -> dirs_writable (fs (UploadFiles t r dir rename w).2)).
Proof.
  apply (UploadFiles_world
           (fun a b => (wf_fs (fs a) -> wf_fs (fs b)) /\
                       (dirs_writable (fs a) -> dirs_writable (fs b)))
           (fun _ => True)).
  - intros w0. split; trivial.
  - intros a b c [H1 H2] [H3 H4]. split; auto.
  - intros t' hdr acc w0 _.
    destruct (upload_one_world t' (renameFile_of rename) dir hdr acc w0)
      as [-> | (_ & _ & [-> | (bs & pm & -> & Hne & Hparent & Hold)])];
      try (split; trivial).
    + intros Hwf. destruct Hold as [Hnone | [d Hfile]].
      * apply (wf_fs_insert_new _ _ _ pm Hwf Hne); [|exact Hnone].
        exact (walk_found _ _ _ _ Hparent).
      * exact (wf_fs_insert_file _ _ d bs Hwf Hfile).
    + apply dirs_writable_insert_file.
  - split; [apply CreateDirIfNotExist_wf|apply CreateDirIfNotExist_writable].
  - intros form _. apply Forall_forall. trivial.
Qed.

Lemma UploadFiles_keeps_tree_witness :
  wf_fs (fs (UploadFiles image_tools (request_of [png_part]) "uploads" [] sample_world).2).
Proof.
  apply (UploadFiles_keeps_tree image_tools (request_of [png_part]) "uploads" []
           sample_world).
  exact empty_fs_wf.
Defined.

(** X16.  [UploadFiles] removes nothing: every entry of the tree is still
    there after the call, a directory as the same directory and a regular
    file as a regular file. *)
Theorem UploadFiles_removes_nothing t r dir rename w key n :
  fs w !! key = Some n ->
  exists n', fs (UploadFiles t r dir rename w).2 !! key = Some n' /\ same_kind n n'.
Proof.
  revert key n.
  apply (UploadFiles_world
           (fun a b => forall key n, fs a !! key = Some n ->
                         exists n', fs b !! key = Some n' /\ same_kind n n')
           (fun _ => True)).
  - intros w0 key n Hkey. exists n. split; [exact Hkey|apply same_kind_refl].
  - intros a b c Hab Hbc key n Hkey.
    destruct (Hab _ _ Hkey) as (n1 & Hk1 & Hs1).
    destruct (Hbc _ _ Hk1) as (n2 & Hk2 & Hs2).
    exists n2. split; [exact Hk2|]. exact (same_kind_trans _ _ _ Hs1 Hs2).
  - intros t' hdr acc w0 _ key n Hkey.
    destruct (upload_one_world t' (renameFile_of rename) dir hdr acc w0)
      as [-> | (_ & _ & [-> | (bs & pm & -> & Hne & Hparent & Hold)])].
    + exists n. split; [exact Hkey|apply same_kind_refl].
    + exists n. split; [exact Hkey|apply same_kind_refl].
    + destruct (decide (key = resolve (filepath_Join dir
                  (stored_name (renameFile_of rename) hdr w0).1))) as [->|Hother].
      * rewrite lookup_insert_eq. exists (RegularFile bs). split; [reflexivity|].
        destruct Hold as [Hnone | [d Hfile]]; [congruence|].
        rewrite Hfile in Hkey. injection Hkey as <-. simpl. eauto.
      * rewrite lookup_insert_ne by congruence.
        exists n. split; [exact Hkey|apply same_kind_refl].
  - intros key n Hkey. exists n.
    split; [apply CreateDirIfNotExist_keeps; exact Hkey|apply same_kind_refl].
  - intros form _. apply Forall_forall. trivial.
Qed.

Lemma UploadFiles_removes_nothing_witness :
  exists n',
    fs (UploadFiles image_tools (request_of [png_part]) "uploads" [] file_world).2
      !! ["uploads"] = Some n' /\
    same_kind (RegularFile (bytes "not a directory")) n'.
Proof.
  apply (UploadFiles_removes_nothing image_tools (request_of [png_part]) "uploads" []
           file_world ["uploads"]).
  vm_compute. reflexivity.
Defined.

(** ** Where an upload writes *)

Lemma split_slash_app (a b : string) : forall cur,
  split_slash (a +:+ String "/" b) cur = split_slash a cur ++ split_slash b "".
Proof.
  induction a as [|c a IH]; intros cur.
  - reflexivity.
  - rewrite append_cons. simpl. destruct (Ascii.eqb c "/"); rewrite IH; reflexivity.
Qed.

Lemma split_slash_plain (b : string) : forall cur,
  forallb (fun c => negb (Ascii.eqb c "/")) (list_ascii_of_string b) = true ->
  split_slash b cur = [cur +:+ b].
Proof.
  induction b as [|c b IH]; intros cur H; simpl in *.
  - rewrite append_empty_r. reflexivity.
  - apply andb_prop in H as [Hc Hb]. apply negb_true_iff in Hc. rewrite Hc.
    rewrite (IH _ Hb), append_snoc. reflexivity.
Qed.

Lemma enter_plain (racc : list string) (e : string) :
  plain_name e = true -> enter racc e = e :: racc.
Proof.
  unfold plain_name, enter. intros H.
  apply andb_prop in H as [H H3]. apply andb_prop in H as [H H2].
  apply andb_prop in H as [_ H1].
  apply negb_true_iff in H1, H2, H3. rewrite H1, H2, H3. reflexivity.
Qed.

(** A plain name joined to a directory resolves to an entry of that
    directory. *)
Lemma resolve_Join (dir name : string) :
  plain_name name = true ->
  resolve (filepath_Join dir name) = resolve dir ++ [name].
Proof.
  intros Hplain. pose proof Hplain as Hp. unfold plain_name in Hp.
  apply andb_prop in Hp as [Hp _]. apply andb_prop in Hp as [Hp _].
  apply andb_prop in Hp as [Hslash Hne]. apply negb_true_iff in Hne.
  unfold filepath_Join, resolve. rewrite Hne.
  destruct (String.eqb dir "") eqn:Hdir.
  - apply String.eqb_eq in Hdir as ->.
    rewrite (split_slash_plain name "" Hslash), append_nil_l. simpl.
    rewrite (enter_plain [] name Hplain). reflexivity.
  - change (dir +:+ "/" +:+ name) with (dir +:+ String "/" name).
    rewrite split_slash_app, (split_slash_plain name "" Hslash), append_nil_l.
    rewrite fold_left_app. simpl. rewrite (enter_plain _ name Hplain).
    reflexivity.
Qed.

Lemma list_ascii_of_string_app (a b : string) :
  list_ascii_of_string (a +:+ b) = list_ascii_of_string a ++ list_ascii_of_string b.
Proof.
  induction a as [|c a IH]; [reflexivity|].
  rewrite append_cons. simpl. rewrite IH. reflexivity.
Qed.

Lemma Ext_scan_no_slash (rpath : list ascii) : forall acc,
  forallb (fun c => negb (Ascii.eqb c "/")) acc = true ->
  forallb (fun c => negb (Ascii.eqb c "/")) (Ext_scan rpath acc) = true.
Proof.
  induction rpath as [|c rpath IH]; intros acc Hacc; simpl; [reflexivity|].
  destruct (Ascii.eqb c "/") eqn:Hs; [reflexivity|].
  destruct (Ascii.eqb c "."); simpl.
  - rewrite Hs, Hacc. reflexivity.
  - apply IH. simpl. rewrite Hs, Hacc. reflexivity.
Qed.

Lemma filepath_Ext_no_slash (path : string) :
  forallb (fun c => negb (Ascii.eqb c "/")) (list_ascii_of_string (filepath_Ext path))
  = true.
Proof.
  unfold filepath_Ext. rewrite list_ascii_of_string_of_list_ascii.
  apply Ext_scan_no_slash. reflexivity.
Qed.

Lemma RandomString_no_slash (n : nat) (w : World) :
  forallb (fun c => negb (Ascii.eqb c "/")) (list_ascii_of_string (RandomString n w).1)
  = true.
Proof.
  apply forallb_forall. intros c Hin.
  apply list_elem_of_In, list_elem_of_lookup in Hin as [i Hi].
  rewrite <- get_list_ascii_of_string in Hi.
  apply RandomString_alphabet in Hi as [k Hk].
  rewrite get_list_ascii_of_string in Hk.
  assert (Hsrc : forallb (fun c => negb (Ascii.eqb c "/"))
                   (list_ascii_of_string randomStringSource) = true) by reflexivity.
  rewrite forallb_forall in Hsrc. apply Hsrc.
  apply list_elem_of_In, list_elem_of_lookup. eauto.
Qed.

(** The name of a renamed file is a plain name, whatever the name the
    client sent. *)
Lemma renamed_plain (hdr : FileHeader) (w : World) :
  plain_name (stored_name true hdr w).1 = true.
Proof.
  unfold stored_name, plain_name. cbn [fst].
  set (rs := (RandomString 25 w).1). set (ext := filepath_Ext (Filename hdr)).
  assert (Hlen : (25 <= String.length (rs +:+ ext))%nat).
  { rewrite length_append. subst rs. rewrite RandomString_length. lia. }
  rewrite list_ascii_of_string_app, forallb_app.
  subst rs ext. rewrite RandomString_no_slash, filepath_Ext_no_slash.
  set (name := _ +:+ _) in *.
  assert (Hne : forall s, (String.length s < 25)%nat -> String.eqb name s = false).
  { intros s Hs. apply String.eqb_neq. intros Heq. rewrite Heq in Hlen. lia. }
  rewrite !Hne by (simpl; lia). reflexivity.
Qed.

Lemma stored_name_plain rn hdr w :
  rn = true \/ plain_name (Filename hdr) = true ->
  plain_name (stored_name rn hdr w).1 = true.
Proof.
  intros [-> | H]; [apply renamed_plain|].
  destruct rn; [apply renamed_plain|exact H].
Qed.

(** X17.  For an upload directory whose path has no [..] element and a
    body whose file parts are all kept in memory: with renaming, or with
    file names that are plain names, all that [UploadFiles] changes lies
    in the upload directory or on the way to it; every other entry of the
    tree is what it was, and no entry is added elsewhere.  With renaming
    this holds whatever file names the client sends. *)
Theorem UploadFiles_writes_in_upload_dir t r dir rename w key :
  no_dotdot dir = true ->
  no_temporary_file t r = true ->
  renameFile_of rename = true \/
  Forall (fun p => plain_name (FileName p) = true) (file_parts r) ->
  ~ upload_place dir key ->
  fs (UploadFiles t r dir rename w).2 !! key = fs w !! key.
Proof.
  intros _ _ Hnames Hkey. revert key Hkey.
  apply (UploadFiles_world
           (fun a b => forall key, ~ upload_place dir key -> fs b !! key = fs a !! key)
           (fun hdr => renameFile_of rename = true \/ plain_name (Filename hdr) = true)).
  - reflexivity.
  - intros a b c Hab Hbc key Hkey. rewrite (Hbc key Hkey). exact (Hab key Hkey).
  - intros t' hdr acc w0 Hhdr key Hkey.
    pose proof (stored_name_plain _ hdr w0 Hhdr) as Hplain.
    destruct (upload_one_world t' (renameFile_of rename) dir hdr acc w0)
      as [-> | (_ & _ & [-> | (bs & pm & -> & _)])]; try reflexivity.
    rewrite (resolve_Join dir _ Hplain).
    apply lookup_insert_ne. intros <-. apply Hkey. right. eauto.
  - intros key Hkey.
    destruct (fs w !! key) as [n|] eqn:Hold.
    + apply CreateDirIfNotExist_keeps. exact Hold.
    + destruct (fs (CreateDirIfNotExist dir w).2 !! key) as [n|] eqn:Hnew; [|reflexivity].
      exfalso. apply Hkey. left.
      exact (proj2 (CreateDirIfNotExist_adds dir w key n Hold Hnew)).
  - intros form Hparse.
    destruct Hnames as [Hrn | Hplain]; [apply Forall_forall; auto|].
    apply Forall_forall. intros hdr Hin. right.
    apply ParseMultipartForm_headers in Hparse as [Hparts _].
    apply list_elem_of_In in Hin.
    destruct (Hparts hdr Hin) as (p & Hp & Hfile & Hname & _).
    rewrite Hname. rewrite Forall_forall in Hplain. apply Hplain.
    apply list_elem_of_In. apply filter_In. auto.
Qed.

Lemma UploadFiles_writes_in_upload_dir_witness :
  fs (UploadFiles image_tools
        (request_of [ {| FormName := "file"; FileName := "../../etc/passwd.png";
                         PartHeader := []; body := png_bytes;
                         storage_fault := None |} ])
        "uploads" [] sample_world).2 !! ["etc"; "passwd.png"]
  = fs sample_world !! ["etc"; "passwd.png"].
Proof.
  apply UploadFiles_writes_in_upload_dir.
  - reflexivity.
  - vm_compute. reflexivity.
  - left. reflexivity.
  - intros [[s Hpre] | [x Hx]]; [|discriminate Hx].
    vm_compute in Hpre. discriminate Hpre.
Defined.

(** ** The errors of a batch *)

(** [UploadFiles], step by step. *)
Lemma UploadFiles_eq t r dir rename w :
  UploadFiles t r dir rename w =
  match CreateDirIfNotExist dir w with
  | (Some e, w1) => (([], Some e), effective_policy t, w1)
  | (None, w1) =>
      match ParseMultipartForm r (int64 (MaxFileSize (effective_policy t))) with
      | inr _ => (([], Some ErrTooBig), effective_policy t, w1)
      | inl form =>
          ((form_loop (effective_policy t) (renameFile_of rename) dir (File form) [] w1).1,
           effective_policy t,
           (form_loop (effective_policy t) (renameFile_of rename) dir (File form) [] w1).2)
      end
  end.
Proof.
  unfold UploadFiles. fold (effective_policy t).
  destruct (CreateDirIfNotExist dir w) as [[e|] w1]; [reflexivity|].
  destruct (ParseMultipartForm r _) as [form|e]; [|reflexivity].
  destruct (form_loop _ _ _ _ _ _) as [res w2]. reflexivity.
Qed.

(** An error of [CreateDirIfNotExist] is a [mkdir] error. *)
Lemma CreateDirIfNotExist_error path w e :
  (CreateDirIfNotExist path w).1 = Some e ->
  exists p errno, e = PathError "mkdir" p errno.
Proof.
  rewrite CreateDirIfNotExist_cases.
  destruct (String.eqb path ""); [intros H; injection H as <-; eauto|].
  destruct (walk (fs w) [] (resolve path)) as [m|errno]; [discriminate|].
  destruct errno; try discriminate. cbn [fst].
  destruct (mkdirs perm_0755 (fs w) [] (resolve path)).2 as [errno|]; [|discriminate].
  intros H; injection H as <-; eauto.
Qed.

(** The error of a part is one of those listed in [part_error]. *)
Lemma upload_one_error t rn dir hdr acc w e p :
  header_of_part hdr p ->
  (upload_one t rn dir hdr acc w).1.2 = Some e ->
  part_error t p e.
Proof.
  intros (Hname & _ & Hcontent & Hfault).
  rewrite upload_one_eq. unfold upload_one_stages, part_error, ErrTypeNotPermitted.
  rewrite <- Hcontent, <- Hfault.
  assert (Hlist : forall ft, type_allowed t ft = false -> AllowedFileTypes t <> []).
  { intros ft Hft Hnil. unfold type_allowed in Hft. rewrite Hnil in Hft. discriminate. }
  destruct (stored_name rn hdr w) as [name w1].
  destruct (os_Create (fs w1) (filepath_Join dir name)) as [fs1 [h|e1]] eqn:Hcreate.
  - destruct (fault hdr) as [[eo|er|es|j ec]|];
      cbn [fst snd]; try (intros H; injection H as ->; auto 10; fail);
      (destruct (content hdr) as [|b0 bs] eqn:Hc;
       [cbn [fst snd]; intros H; injection H as <-; auto 10|]);
      (destruct (type_allowed t _) eqn:Ha; cbn [negb fst snd];
       [|intros H; injection H as <-; apply Hlist in Ha;
         do 5 right; left; split; [discriminate|split; [exact Ha|reflexivity]]]);
      try (intros H; injection H as ->; eauto 10; fail);
      discriminate.
  - apply os_Create_error in Hcreate as [_ (p0 & errno & ->)].
    destruct (fault hdr) as [[eo|er|es|j ec]|];
      cbn [fst snd]; try (intros H; injection H as ->; auto 10; fail);
      (destruct (content hdr) as [|b0 bs] eqn:Hc;
       [cbn [fst snd]; intros H; injection H as <-; auto 10|]);
      (destruct (type_allowed t _) eqn:Ha; cbn [negb fst snd];
       [|intros H; injection H as <-; apply Hlist in Ha;
         do 5 right; left; split; [discriminate|split; [exact Ha|reflexivity]]]);
      try (intros H; injection H as ->; eauto 10; fail);
      intros H; injection H as <-; eauto 12.
Qed.

Lemma headers_loop_error t rn dir hdrs : forall acc w e,
  (headers_loop t rn dir hdrs acc w).1.2 = Some e ->
  exists hdr acc0 w0, In hdr hdrs /\ (upload_one t rn dir hdr acc0 w0).1.2 = Some e.
Proof.
  induction hdrs as [|hdr hdrs IH]; intros acc w e; simpl; [discriminate|].
  destruct (upload_one t rn dir hdr acc w) as [[res1 [e1|]] w1] eqn:Hone; cbn [fst snd].
  - intros H. injection H as <-. exists hdr, acc, w. rewrite Hone. auto.
  - intros H. destruct (IH _ _ _ H) as (h & a & w0 & Hin & Hh). eauto 8.
Qed.

Lemma form_loop_error t rn dir files : forall acc w e,
  (form_loop t rn dir files acc w).1.2 = Some e ->
  exists hdr acc0 w0,
    In hdr (concat (map snd files)) /\ (upload_one t rn dir hdr acc0 w0).1.2 = Some e.
Proof.
  induction files as [|[name hdrs] files IH]; intros acc w e; simpl; [discriminate|].
  destruct (headers_loop t rn dir hdrs acc w) as [[res1 [e1|]] w1] eqn:Hh; cbn [fst snd].
  - intros H. injection H as ->.
    destruct (headers_loop_error t rn dir hdrs acc w e) as (h & a & w0 & Hin & Hone).
    { rewrite Hh. reflexivity. }
    exists h, a, w0. split; [apply in_or_app; auto|exact Hone].
  - intros H. destruct (IH _ _ _ H) as (h & a & w0 & Hin & Hone).
    exists h, a, w0. split; [apply in_or_app; auto|exact Hone].
Qed.

Lemma part_error_effective t p e :
  part_error (effective_policy t) p e -> part_error t p e.
Proof.
  unfold part_error.
  replace (AllowedFileTypes (effective_policy t)) with (AllowedFileTypes t);
    [trivial|].
  unfold effective_policy. destruct (MaxFileSize t =? 0); reflexivity.
Qed.

(** X18.  Every error of [UploadFiles] is a [mkdir] error of [MkdirAll],
    the error [the uploaded file is too big], or the error of one of the
    file parts of the request: a failure of the storage behind the part,
    [io.EOF] for a part without content, the refusal of the type of a part
    with content under a policy that names types, or an [open] error for
    its destination file. *)
Theorem UploadFiles_errors t r dir rename w e :
  (UploadFiles t r dir rename w).1.1.2 = Some e ->
  (exists path errno, e = PathError "mkdir" path errno) \/
  e = ErrTooBig \/
  exists p, In p (file_parts r) /\ part_error t p e.
Proof.
  rewrite UploadFiles_eq.
  pose proof (CreateDirIfNotExist_error dir w) as Hdir.
  destruct (CreateDirIfNotExist dir w) as [[e0|] w1]; cbn [fst snd] in *.
  { intros H. injection H as <-. left. apply Hdir. reflexivity. }
  destruct (ParseMultipartForm r _) as [form|e1] eqn:Hparse; cbn [fst snd].
  2:{ intros H. injection H as <-. right. left. reflexivity. }
  intros H. right. right.
  apply form_loop_error in H as (hdr & acc0 & w0 & Hin & Hone).
  apply ParseMultipartForm_headers in Hparse as [Hparts _].
  destruct (Hparts hdr Hin) as (p & Hp & Hfile & Hhdr).
  exists p. split; [apply filter_In; auto|].
  apply part_error_effective. exact (upload_one_error _ _ _ _ _ _ _ _ Hhdr Hone).
Qed.

Lemma UploadFiles_errors_witness :
  (exists path errno, ErrTypeNotPermitted = PathError "mkdir" path errno) \/
  ErrTypeNotPermitted = ErrTooBig \/
  exists p, In p (file_parts (request_of [png_part; hello_part])) /\
            part_error image_tools p ErrTypeNotPermitted.
Proof.
  apply (UploadFiles_errors image_tools (request_of [png_part; hello_part]) "uploads"
           [false] sample_world).
  vm_compute. reflexivity.
Defined.

(** ** The file parts of a parsed form *)

Lemma form_append_Permutation {A : Type} (m : list (string * list A)) (name : string) (x : A) :
  Permutation (concat (map snd (form_append m name x))) (concat (map snd m) ++ [x]).
Proof.
  induction m as [|[k xs] m IH]; simpl.
  - reflexivity.
  - destruct (String.eqb k name); simpl.
    + rewrite <- !app_assoc. apply Permutation_app_head. apply Permutation_app_comm.
    + rewrite <- app_assoc. apply Permutation_app_head. exact IH.
Qed.

Lemma readForm_loop_cores parts : forall maxMemory maxValueBytes form form',
  readForm_loop parts maxMemory maxValueBytes form = inl form' ->
  Permutation (map header_core (headers_of form'))
              (map header_core (headers_of form)
               ++ map part_core (List.filter is_file_part parts)).
Proof.
  unfold headers_of, is_file_part.
  induction parts as [|p parts IH]; intros maxMemory maxValueBytes form form' H;
    simpl in H.
  - injection H as <-. simpl. rewrite app_nil_r. reflexivity.
  - cbn [List.filter].
    destruct (String.eqb (FormName p) "") eqn:Hn; cbn [negb andb].
    { exact (IH _ _ _ _ H). }
    destruct (String.eqb (FileName p) "") eqn:Hf; cbn [negb andb].
    { destruct (_ <? 0); [discriminate|]. exact (IH _ _ _ _ H). }
    destruct (maxMemory <? _); apply IH in H; cbn [File] in H;
      rewrite H; cbn [map];
      rewrite (Permutation_map header_core (form_append_Permutation _ _ _));
      rewrite map_app, <- app_assoc; reflexivity.
Qed.

Lemma ParseMultipartForm_cores r maxMemory form :
  ParseMultipartForm r maxMemory = inl form ->
  Permutation (map header_core (headers_of form)) (map part_core (file_parts r)).
Proof.
  unfold ParseMultipartForm, readForm.
  destruct (BodyError r); [discriminate|]. intros H.
  apply readForm_loop_cores in H. exact H.
Qed.

(** ** The random numbers a batch takes *)

Lemma upload_one_ok_drawn t rn dir hdr acc w :
  (upload_one t rn dir hdr acc w).1.2 = None ->
  drawn (upload_one t rn dir hdr acc w).2 = (drawn w + if rn then 25 else 0)%nat.
Proof.
  destruct (upload_one_world t rn dir hdr acc w) as [Hsame | (_ & Hd & _)];
    [|intros _; exact Hd].
  revert Hsame. rewrite upload_one_eq. unfold upload_one_stages.
  destruct (stored_name_world rn hdr w) as (_ & _ & Hdr).
  destruct (stored_name rn hdr w) as [name w1]. cbn [fst snd] in *.
  destruct (os_Create (fs w1) (filepath_Join dir name)) as [fs1 [h|e1]];
    (destruct (fault hdr) as [[eo|er|es|j ec]|]; try discriminate;
     (destruct (content hdr) as [|b0 bs]; [discriminate|]);
     (destruct (type_allowed t _); cbn [negb]; [|discriminate]);
     try discriminate);
    intros _ _; cbn [snd set_fs drawn]; exact Hdr.
Qed.

Lemma upload_one_drawn t rn dir hdr acc w :
  primes (upload_one t rn dir hdr acc w).2 = primes w /\
  (drawn w <= drawn (upload_one t rn dir hdr acc w).2
           <= drawn w + if rn then 25 else 0)%nat.
Proof.
  destruct (upload_one_world t rn dir hdr acc w) as [-> | (Hp & Hd & _)].
  - split; [reflexivity|lia].
  - split; [exact Hp|lia].
Qed.

Lemma headers_loop_drawn t rn dir hdrs : forall acc w,
  let out := headers_loop t rn dir hdrs acc w in
  let k := if rn then 25%nat else 0%nat in
  primes out.2 = primes w /\
  (drawn w <= drawn out.2 <= drawn w + k * length hdrs)%nat /\
  (out.1.2 = None -> drawn out.2 = (drawn w + k * length hdrs)%nat).
Proof.
  cbv zeta.
  induction hdrs as [|hdr hdrs IH]; intros acc w; simpl headers_loop; simpl length.
  - cbn [fst snd]. split; [reflexivity|]. split; lia.
  - pose proof (upload_one_drawn t rn dir hdr acc w) as (Hp & Hd).
    pose proof (upload_one_ok_drawn t rn dir hdr acc w) as Hok.
    destruct (upload_one t rn dir hdr acc w) as [[res1 [e1|]] w1]; cbn [fst snd] in *.
    + split; [exact Hp|]. split; [nia|discriminate].
    + destruct (IH res1 w1) as (Hp' & Hd' & Hok'). specialize (Hok eq_refl).
      split; [congruence|]. split; [nia|].
      intros He. rewrite (Hok' He). nia.
Qed.

Lemma form_loop_drawn t rn dir files : forall acc w,
  let out := form_loop t rn dir files acc w in
  let k := if rn then 25%nat else 0%nat in
  primes out.2 = primes w /\
  (drawn w <= drawn out.2 <= drawn w + k * length (concat (map snd files)))%nat /\
  (out.1.2 = None -> drawn out.2 = (drawn w + k * length (concat (map snd files)))%nat).
Proof.
  cbv zeta.
  induction files as [|[name hdrs] files IH]; intros acc w; simpl form_loop.
  - cbn [fst snd]. simpl. split; [reflexivity|]. split; lia.
  - simpl map. simpl concat. rewrite length_app.
    pose proof (headers_loop_drawn t rn dir hdrs acc w) as (Hp & Hd & Hok).
    destruct (headers_loop t rn dir hdrs acc w) as [[res1 [e1|]] w1]; cbn [fst snd] in *.
    + split; [exact Hp|]. split; [nia|discriminate].
    + destruct (IH res1 w1) as (Hp' & Hd' & Hok'). specialize (Hok eq_refl).
      split; [congruence|]. split; [nia|].
      intros He. rewrite (Hok' He). nia.
Qed.

Lemma CreateDirIfNotExist_random path w :
  primes (CreateDirIfNotExist path w).2 = primes w /\
  drawn (CreateDirIfNotExist path w).2 = drawn w.
Proof.
  rewrite CreateDirIfNotExist_cases.
  destruct (String.eqb path ""); [auto|].
  destruct (walk (fs w) [] (resolve path)) as [m|errno]; [auto|].
  destruct errno; auto.
Qed.

(** X19.  [UploadFiles] never changes the random source and draws from
    it only to rename: without renaming no number is drawn; with
    renaming a batch that succeeds draws 25 numbers for each file part of
    the request, and a batch that fails draws no more than that. *)
Theorem UploadFiles_random_numbers t r dir rename w :
  let out := UploadFiles t r dir rename w in
  let k := if renameFile_of rename then 25%nat else 0%nat in
  primes out.2 = primes w /\
  (drawn w <= drawn out.2 <= drawn w + k * length (file_parts r))%nat /\
  (out.1.1.2 = None -> drawn out.2 = (drawn w + k * length (file_parts r))%nat).
Proof.
  cbv zeta. rewrite UploadFiles_eq.
  pose proof (CreateDirIfNotExist_random dir w) as (Hp & Hd).
  destruct (CreateDirIfNotExist dir w) as [[e0|] w1]; cbn [fst snd] in *.
  { split; [exact Hp|]. split; [lia|discriminate]. }
  destruct (ParseMultipartForm r _) as [form|e1] eqn:Hparse; cbn [fst snd].
  2:{ split; [exact Hp|]. split; [lia|discriminate]. }
  apply ParseMultipartForm_headers in Hparse as [_ Hlen].
  unfold file_parts. rewrite <- Hlen. unfold headers_of.
  destruct (form_loop_drawn (effective_policy t) (renameFile_of rename) dir (File form) [] w1)
    as (Hp' & Hd' & Hok').
  split; [congruence|]. split; [lia|].
  intros He. rewrite (Hok' He). lia.
Qed.

Lemma UploadFiles_random_numbers_witness :
  drawn (UploadFiles image_tools (request_of three_files) "uploads" [] sample_world).2
  = 75%nat.
Proof.
  assert (H : (UploadFiles image_tools (request_of three_files) "uploads" []
                 sample_world).1.1.2 = None) by (vm_compute; reflexivity).
  exact (proj2 (proj2 (UploadFiles_random_numbers image_tools (request_of three_files)
                         "uploads" [] sample_world)) H).
Defined.

(** ** The records of a batch *)

Lemma Forall2_summaries (hdrs : list FileHeader) (recs : list UploadedFile) :
  Forall2 (fun hdr rec => OriginalFileName rec = Filename hdr /\
                          FileSize rec = Z.of_nat (length (content hdr))) hdrs recs ->
  map record_summary recs = map header_summary hdrs.
Proof.
  induction 1 as [|hdr rec hdrs recs [Hn Hs] _ IH]; [reflexivity|].
  simpl. rewrite IH. unfold record_summary, header_summary. rewrite Hn, Hs. reflexivity.
Qed.

Lemma result_without_error {A E T W : Type} (x : (A * option E) * T * W) :
  x.1.1.2 = None -> x = ((x.1.1.1, None), x.1.2, x.2).
Proof. destruct x as [[[a e] t0] w0]. simpl. intros ->. reflexivity. Qed.

(** X20.  A batch that succeeds reports every file part of the request
    exactly once: the names and sizes of the records are, up to their
    order, the file names and content lengths of the file parts. *)
Theorem UploadFiles_reports_every_part t r dir rename w :
  (UploadFiles t r dir rename w).1.1.2 = None ->
  Permutation (map record_summary (UploadFiles t r dir rename w).1.1.1)
              (map part_summary (file_parts r)).
Proof.
  intros H. apply result_without_error in H.
  destruct (UploadFiles_records _ _ _ _ _ _ _ _ H) as (form & Hparse & Hall).
  rewrite (Forall2_summaries _ _ Hall).
  apply ParseMultipartForm_cores in Hparse.
  apply (Permutation_map (fun c : string * list byte * option Fault =>
                            (c.1.1, Z.of_nat (length c.1.2)))) in Hparse.
  rewrite !map_map in Hparse. exact Hparse.
Qed.

Lemma UploadFiles_reports_every_part_witness :
  Permutation
    (map record_summary
       (UploadFiles image_tools (request_of three_files) "uploads" [false]
          sample_world).1.1.1)
    [("a.png", 16); ("b.png", 16); ("c.png", 16)].
Proof.
  apply (UploadFiles_reports_every_part image_tools (request_of three_files) "uploads"
           [false] sample_world).
  vm_compute. reflexivity.
Defined.

(** ** More on UploadOneFile *)

Lemma UploadFiles_rename_argument t r dir rename w :
  UploadFiles t r dir [renameFile_of rename] w = UploadFiles t r dir rename w.
Proof. rewrite !UploadFiles_eq. reflexivity. Qed.

(** X21.  When [UploadOneFile] returns a record, the record carries the
    file name and the content length of one of the file parts of the
    request, and every file part has been processed, not only the one
    reported: with renaming, 25 random numbers have been drawn for each
    file part of the request, and without renaming none. *)
Theorem UploadOneFile_reports_a_part t r dir rename w f :
  (UploadOneFile t r dir rename w).1.1 = Returns (Some f, None) ->
  In (record_summary f) (map part_summary (file_parts r)) /\
  drawn (UploadOneFile t r dir rename w).2
  = (drawn w + (if renameFile_of rename then 25 else 0) * length (file_parts r))%nat.
Proof.
  rewrite UploadOneFile_eq, UploadFiles_rename_argument. cbv zeta. cbn [fst snd].
  destruct (UploadFiles t r dir rename w) as [[[files oe] t1] w1] eqn:Hup.
  cbn [fst snd].
  destruct oe as [e|]; [discriminate|].
  destruct files as [|f0 files]; [discriminate|].
  intros H. injection H as ->.
  split.
  - destruct (UploadFiles_records _ _ _ _ _ _ _ _ Hup) as (form & Hparse & Hall).
    apply Forall2_summaries in Hall.
    apply ParseMultipartForm_cores in Hparse.
    apply (Permutation_map (fun c : string * list byte * option Fault =>
                              (c.1.1, Z.of_nat (length c.1.2)))) in Hparse.
    rewrite !map_map in Hparse.
    apply (Permutation_in (record_summary f)) in Hparse; [exact Hparse|].
    change (map _ (headers_of form)) with (map header_summary (headers_of form)).
    rewrite <- Hall. left. reflexivity.
  - revert Hup. rewrite UploadFiles_eq.
    pose proof (CreateDirIfNotExist_random dir w) as (_ & Hd).
    destruct (CreateDirIfNotExist dir w) as [[e0|] w0]; cbn [fst snd] in *;
      [discriminate|].
    destruct (ParseMultipartForm r _) as [form|e1] eqn:Hparse; [|discriminate].
    apply ParseMultipartForm_headers in Hparse as [_ Hlen].
    unfold file_parts. rewrite <- Hlen. unfold headers_of.
    destruct (form_loop_drawn (effective_policy t) (renameFile_of rename) dir
                (File form) [] w0) as (_ & _ & Hok).
    destruct (form_loop _ _ _ _ _ _) as [[res oe] w2]; cbn [fst snd] in *.
    intros H. injection H as -> -> _ ->.
    rewrite (Hok eq_refl). lia.
Qed.

Lemma UploadOneFile_reports_a_part_witness :
  In ("a.png", 16)
     (map part_summary
        (file_parts (request_of [png_part; name_field; hello_part]))) /\
  drawn (UploadOneFile zero_tools (request_of [png_part; name_field; hello_part])
           "uploads" [false] sample_world).2
  = (drawn sample_world + 0 * 2)%nat.
Proof.
  apply (UploadOneFile_reports_a_part zero_tools
           (request_of [png_part; name_field; hello_part]) "uploads" [false] sample_world
           {| NewFileName := "a.png"; OriginalFileName := "a.png"; FileSize := 16 |}).
  vm_compute. reflexivity.
Defined.

Lemma form_loop_no_headers t rn dir files : forall acc w,
  concat (map snd files) = [] ->
  form_loop t rn dir files acc w = ((acc, None), w).
Proof.
  induction files as [|[name hdrs] files IH]; intros acc w H; [reflexivity|].
  simpl in H. apply app_eq_nil in H as [-> H]. simpl. apply IH. exact H.
Qed.

(** Without a file part there is nothing to store. *)
Lemma UploadFiles_without_files t r dir rename w form :
  (CreateDirIfNotExist dir w).1 = None ->
  ParseMultipartForm r (int64 (MaxFileSize (effective_policy t))) = inl form ->
  file_parts r = [] ->
  UploadFiles t r dir rename w
  = (([], None), effective_policy t, (CreateDirIfNotExist dir w).2).
Proof.
  intros Hdir Hparse Hnone. rewrite UploadFiles_eq.
  destruct (CreateDirIfNotExist dir w) as [[e0|] w1]; cbn [fst snd] in *; [discriminate|].
  rewrite Hparse.
  apply ParseMultipartForm_headers in Hparse as [_ Hlen].
  unfold file_parts in Hnone. rewrite Hnone in Hlen.
  rewrite form_loop_no_headers; [reflexivity|].
  unfold headers_of in Hlen. destruct (concat _); [reflexivity|discriminate].
Qed.

(** X22.  [UploadOneFile] panics in one case only, on [files[0]]: when
    [CreateDirIfNotExist] has returned no error, the body has been parsed,
    and the request holds no file part.  (That [CreateDirIfNotExist]
    returns no error does not say that the upload directory is there: it
    also returns none when a parent of the directory is a regular file.) *)
Theorem UploadOneFile_panic_cases t r dir rename w msg :
  (UploadOneFile t r dir rename w).1.1 = Panics msg <->
  msg = "runtime error: index out of range [0] with length 0" /\
  (CreateDirIfNotExist dir w).1 = None /\
  (exists form,
     ParseMultipartForm r (int64 (MaxFileSize (effective_policy t))) = inl form) /\
  file_parts r = [].
Proof.
  rewrite UploadOneFile_eq, UploadFiles_rename_argument. cbv zeta. cbn [fst snd].
  split.
  - pose proof (UploadFiles_record_count t r dir rename w) as Hcount.
    rewrite UploadFiles_eq in *.
    destruct (CreateDirIfNotExist dir w) as [[e0|] w1]; cbn [fst snd] in *;
      [discriminate|].
    destruct (ParseMultipartForm r _) as [form|e1] eqn:Hparse; cbn [fst snd] in *;
      [|discriminate].
    destruct (form_loop _ _ _ _ _ _) as [[res [e|]] w2] eqn:Hloop;
      cbn [fst snd] in *; [discriminate|].
    destruct res as [|f res]; [|discriminate].
    intros H. injection H as <-. split; [reflexivity|]. split; [reflexivity|].
    split; [eauto|].
    specialize (Hcount [] (effective_policy t) w2 eq_refl).
    unfold file_parts. destruct (List.filter is_file_part (Parts r)); [reflexivity|].
    discriminate.
  - intros (-> & Hdir & [form Hparse] & Hnone).
    rewrite (UploadFiles_without_files t r dir rename w form Hdir Hparse Hnone).
    reflexivity.
Qed.

Lemma UploadOneFile_panic_cases_witness :
  (UploadOneFile image_tools (request_of [name_field]) "uploads" [] sample_world).1.1
  = Panics "runtime error: index out of range [0] with length 0".
Proof.
  apply (UploadOneFile_panic_cases image_tools (request_of [name_field]) "uploads" []
           sample_world).
  split; [reflexivity|]. split; [vm_compute; reflexivity|]. split; [|reflexivity].
  exists {| Value := [("name", [bytes "holiday"])]; File := [] |}.
  vm_compute. reflexivity.
Defined.

(** ** What a successful batch says of the request *)

(** A part that has been stored was accepted. *)
Lemma upload_one_ok_accepted t rn dir hdr acc w :
  (upload_one t rn dir hdr acc w).1.2 = None -> accepted t (header_core hdr).
Proof.
  unfold accepted, header_core. cbn [fst snd].
  rewrite upload_one_eq. unfold upload_one_stages.
  destruct (stored_name rn hdr w) as [name w1].
  destruct (os_Create (fs w1) (filepath_Join dir name)) as [fs1 [h|e1]];
    (destruct (fault hdr) as [[eo|er|es|j ec]|]; try discriminate;
     (destruct (content hdr) as [|b0 bs]; [discriminate|]);
     (destruct (type_allowed t _) eqn:Ha; cbn [negb]; [|discriminate]);
     try discriminate);
    intros _; split; [reflexivity|]; split; [discriminate|reflexivity].
Qed.

Lemma Forall2_left {A B : Type} (Q : A -> Prop) (l : list A) (k : list B) :
  Forall2 (fun x _ => Q x) l k -> Forall Q l.
Proof. induction 1; constructor; assumption. Qed.

Lemma accepted_effective t c : accepted (effective_policy t) c -> accepted t c.
Proof. unfold accepted. rewrite type_allowed_effective. trivial. Qed.

(** A batch succeeds only if every file part of the request is accepted. *)
Lemma UploadFiles_ok_accepted t r dir rename w :
  (UploadFiles t r dir rename w).1.1.2 = None ->
  Forall (fun p => accepted t (part_core p)) (file_parts r).
Proof.
  rewrite UploadFiles_eq.
  destruct (CreateDirIfNotExist dir w) as [[e0|] w1]; cbn [fst snd]; [discriminate|].
  destruct (ParseMultipartForm r _) as [form|e1] eqn:Hparse; cbn [fst snd];
    [|discriminate].
  destruct (form_loop _ _ _ _ _ _) as [[res e] w2] eqn:Hloop. cbn [fst snd].
  intros ->.
  pose proof (form_loop_result (effective_policy t) (renameFile_of rename) dir
                (fun hdr _ => accepted t (header_core hdr))
                (fun hdr acc w0 Hok =>
                   accepted_effective t _ (upload_one_ok_accepted _ _ _ hdr acc w0 Hok))
                _ _ _ _ _ _ Hloop) as (recs & _ & Hall).
  apply Forall2_left in Hall. fold (headers_of form) in Hall.
  apply ParseMultipartForm_cores in Hparse.
  apply Forall_map. rewrite <- Hparse. apply Forall_map. exact Hall.
Qed.

(** X23.  Under a policy that names no other types than PDF, GIF, PNG
    and JPEG (in any case of the letters), one file part that is not
    accepted fails the whole batch: if the storage behind a part of the
    request fails, or the part has no content, or the type sniffed from
    it is not allowed, [UploadFiles] returns an error and no record,
    wherever the part is in the body. *)
Theorem UploadFiles_one_bad_part_fails t r dir rename w p :
  known_policy t ->
  In p (file_parts r) ->
  ~ accepted t (part_core p) ->
  exists e, (UploadFiles t r dir rename w).1.1 = ([], Some e).
Proof.
  intros _ Hin Hbad.
  pose proof (UploadFiles_ok_accepted t r dir rename w) as Hok.
  pose proof (UploadFiles_result (fun _ _ => True) t r dir rename w
                (fun _ _ _ _ _ => I)) as Hnil.
  cbv zeta in Hnil.
  destruct (UploadFiles t r dir rename w) as [[[res [e|]] t'] w']; cbn [fst snd] in *.
  - exists e. rewrite Hnil. reflexivity.
  - exfalso. apply Hbad. specialize (Hok eq_refl).
    rewrite Forall_forall in Hok. apply Hok. apply list_elem_of_In. exact Hin.
Qed.

Lemma UploadFiles_one_bad_part_fails_witness :
  exists e,
    (UploadFiles image_tools (request_of [png_part; hello_part; png_part]) "uploads" []
       sample_world).1.1 = ([], Some e).
Proof.
  apply (UploadFiles_one_bad_part_fails image_tools
           (request_of [png_part; hello_part; png_part]) "uploads" [] sample_world
           hello_part).
  - apply (bool_decide_unpack _). vm_compute. exact I.
  - right. left. reflexivity.
  - intros (_ & _ & Ha). vm_compute in Ha. discriminate Ha.
Defined.

(** ** What a batch without renaming stores *)

Lemma upload_one_ok_stored t rn dir hdr acc w :
  (upload_one t rn dir hdr acc w).1.2 = None ->
  os_ReadFile (fs (upload_one t rn dir hdr acc w).2)
              (filepath_Join dir (stored_name rn hdr w).1) = Some (content hdr).
Proof.
  rewrite upload_one_eq. unfold upload_one_stages.
  destruct (stored_name rn hdr w) as [name w1]. cbn [fst snd].
  destruct (os_Create (fs w1) (filepath_Join dir name)) as [fs1 [h|e1]] eqn:Hcreate;
    (destruct (fault hdr) as [[eo|er|es|j ec]|]; try discriminate;
     (destruct (content hdr) as [|b0 bs]; [discriminate|]);
     (destruct (type_allowed t _); cbn [negb]; [|discriminate]);
     try discriminate);
    intros _; cbn [snd fs set_fs]; eapply os_ReadFile_written; exact Hcreate.
Qed.

(** Writing a file does not change what is read from another entry of
    the same directory. *)
Lemma os_ReadFile_insert_sibling fs (rd : list string) (name name' : string)
    (n : node) (path : string) :
  resolve path = rd ++ [name] -> name <> name' ->
  os_ReadFile (<[rd ++ [name'] := n]> fs) path = os_ReadFile fs path.
Proof.
  intros Hres Hne. unfold os_ReadFile. rewrite Hres, !walk_snoc.
  rewrite walk_insert_deeper by (rewrite !length_app; simpl; lia).
  rewrite node_at_insert_ne; [reflexivity|].
  intros Heq. apply app_inj_tail in Heq as [_ Heq]. congruence.
Qed.

Lemma upload_one_keeps_other t dir hdr acc w name :
  plain_name (Filename hdr) = true -> plain_name name = true ->
  name <> Filename hdr ->
  os_ReadFile (fs (upload_one t false dir hdr acc w).2) (filepath_Join dir name)
  = os_ReadFile (fs w) (filepath_Join dir name).
Proof.
  intros Hhdr Hname Hne.
  pose proof (upload_one_world t false dir hdr acc w) as Hw.
  change (stored_name false hdr w).1 with (Filename hdr) in Hw.
  rewrite (resolve_Join dir _ Hhdr) in Hw.
  destruct Hw as [-> | (_ & _ & [-> | (bs & pm & -> & _)])]; try reflexivity.
  apply (os_ReadFile_insert_sibling _ (resolve dir) name).
  - apply resolve_Join. exact Hname.
  - exact Hne.
Qed.

Lemma headers_loop_stored t dir hdrs : forall acc w,
  NoDup (map Filename hdrs) ->
  Forall (fun h => plain_name (Filename h) = true) hdrs ->
  (headers_loop t false dir hdrs acc w).1.2 = None ->
  (forall hdr, In hdr hdrs ->
     os_ReadFile (fs (headers_loop t false dir hdrs acc w).2)
                 (filepath_Join dir (Filename hdr)) = Some (content hdr)) /\
  (forall name, plain_name name = true -> ~ In name (map Filename hdrs) ->
     os_ReadFile (fs (headers_loop t false dir hdrs acc w).2) (filepath_Join dir name)
     = os_ReadFile (fs w) (filepath_Join dir name)).
Proof.
  induction hdrs as [|hdr hdrs IH]; intros acc w Hnd Hplain; simpl headers_loop.
  - intros _. split; [intros hdr []|reflexivity].
  - simpl in Hnd. apply NoDup_cons in Hnd as [Hnotin Hnd].
    apply Forall_cons in Hplain as [Hp Hplain].
    pose proof (upload_one_ok_stored t false dir hdr acc w) as Hstored.
    pose proof (upload_one_keeps_other t dir hdr acc w) as Hkeeps.
    change (stored_name false hdr w).1 with (Filename hdr) in Hstored.
    destruct (upload_one t false dir hdr acc w) as [[res1 [e1|]] w1];
      cbn [fst snd] in *; [discriminate|].
    intros Hok. destruct (IH res1 w1 Hnd Hplain Hok) as [IHin IHout].
    split.
    + intros h [<-|Hin]; [|exact (IHin h Hin)].
      rewrite (IHout _ Hp).
      * exact (Hstored eq_refl).
      * intros Hin. apply Hnotin. apply list_elem_of_In. exact Hin.
    + intros name Hname Hnot. rewrite (IHout name Hname).
      * apply Hkeeps; [exact Hp|exact Hname|].
        intros ->. apply Hnot. simpl. auto.
      * intros Hin. apply Hnot. simpl. auto.
Qed.

Lemma headers_loop_app t rn dir (a b : list FileHeader) : forall acc w,
  headers_loop t rn dir (a ++ b) acc w =
  match headers_loop t rn dir a acc w with
  | ((res, Some e), w1) => ((res, Some e), w1)
  | ((res, None), w1) => headers_loop t rn dir b res w1
  end.
Proof.
  induction a as [|hdr a IH]; intros acc w; simpl; [reflexivity|].
  destruct (upload_one t rn dir hdr acc w) as [[res1 [e1|]] w1]; [reflexivity|].
  apply IH.
Qed.

(** The two loops of [UploadFiles] are one loop over the file headers of
    the form. *)
Lemma form_loop_headers t rn dir files : forall acc w,
  form_loop t rn dir files acc w
  = headers_loop t rn dir (concat (map snd files)) acc w.
Proof.
  induction files as [|[name hdrs] files IH]; intros acc w; simpl; [reflexivity|].
  rewrite headers_loop_app.
  destruct (headers_loop t rn dir hdrs acc w) as [[res1 [e1|]] w1]; [reflexivity|].
  apply IH.
Qed.

(** X24.  Without renaming, a batch that succeeds on file parts with
    distinct plain names has stored every one of them: each file part of
    the request can be read back from the upload directory under its own
    name, with its whole content. *)
Theorem UploadFiles_stores_every_part t r dir rename w :
  renameFile_of rename = false ->
  NoDup (map FileName (file_parts r)) ->
  Forall (fun p => plain_name (FileName p) = true) (file_parts r) ->
  (UploadFiles t r dir rename w).1.1.2 = None ->
  forall p, In p (file_parts r) ->
    os_ReadFile (fs (UploadFiles t r dir rename w).2) (filepath_Join dir (FileName p))
    = Some (body p).
Proof.
  intros Hrn Hnd Hplain. rewrite UploadFiles_eq, Hrn.
  destruct (CreateDirIfNotExist dir w) as [[e0|] w1]; cbn [fst snd]; [discriminate|].
  destruct (ParseMultipartForm r _) as [form|e1] eqn:Hparse; cbn [fst snd];
    [|discriminate].
  rewrite form_loop_headers. fold (headers_of form).
  apply ParseMultipartForm_cores in Hparse.
  assert (Hnames : Permutation (map Filename (headers_of form))
                               (map FileName (file_parts r))).
  { apply (Permutation_map (fun c : string * list byte * option Fault => c.1.1)) in Hparse.
    rewrite !map_map in Hparse. exact Hparse. }
  intros Hok p Hin.
  assert (Hhdr : exists hdr, In hdr (headers_of form) /\ header_core hdr = part_core p).
  { apply (in_map part_core) in Hin.
    apply list_elem_of_In in Hin. rewrite <- Hparse in Hin. apply list_elem_of_In in Hin.
    apply in_map_iff in Hin as (hdr & Heq & Hin). eauto. }
  destruct Hhdr as (hdr & Hin' & Hcore).
  injection Hcore as Hname Hcontent _. rewrite <- Hname, <- Hcontent.
  apply (headers_loop_stored (effective_policy t) dir (headers_of form) [] w1);
    [| |exact Hok|exact Hin'].
  - rewrite Hnames. exact Hnd.
  - apply Forall_forall. intros h Hh.
    apply (list_elem_of_fmap_2 Filename) in Hh.
    change (Filename <$> headers_of form) with (map Filename (headers_of form)) in Hh.
    rewrite Hnames in Hh.
    apply list_elem_of_In, in_map_iff in Hh as (q & Hq & Hqin).
    rewrite <- Hq. rewrite Forall_forall in Hplain. apply Hplain.
    apply list_elem_of_In. exact Hqin.
Qed.

Lemma UploadFiles_stores_every_part_witness :
  os_ReadFile
    (fs (UploadFiles image_tools (request_of three_files) "uploads" [false]
           sample_world).2) "uploads/a.png" = Some png_bytes /\
  os_ReadFile
    (fs (UploadFiles image_tools (request_of three_files) "uploads" [false]
           sample_world).2) "uploads/b.png" = Some png_bytes.
Proof.
  pose proof (UploadFiles_stores_every_part image_tools (request_of three_files)
                "uploads" [false] sample_world eq_refl) as H.
  assert (Hnd : NoDup (map FileName (file_parts (request_of three_files))))
    by (apply (bool_decide_unpack _); vm_compute; exact I).
  assert (Hplain : Forall (fun p => plain_name (FileName p) = true)
                          (file_parts (request_of three_files)))
    by (apply (bool_decide_unpack _); vm_compute; exact I).
  assert (Hok : (UploadFiles image_tools (request_of three_files) "uploads" [false]
                   sample_world).1.1.2 = None) by (vm_compute; reflexivity).
  specialize (H Hnd Hplain Hok). split.
  - apply (H {| FormName := "file"; FileName := "a.png"; PartHeader := [];
                body := png_bytes; storage_fault := None |}).
    simpl. auto.
  - apply (H {| FormName := "other"; FileName := "b.png"; PartHeader := [];
                body := png_bytes; storage_fault := None |}).
    simpl. auto.
Defined.

(** ** The handlers of app-upload *)

Lemma WriteHeader_fresh (w : ResponseWriter) (code : Z) :
  Code w = None ->
  WriteHeader w code =
  {| HeaderMap := HeaderMap w; Code := Some code; Body := Body w; broken := broken w |}.
Proof. unfold WriteHeader. intros ->. reflexivity. Qed.

(** What [http.Error] leaves in a writer whose header has not been
    written. *)
Lemma http_Error_fresh (w : ResponseWriter) (msg : string) (code : Z) :
  Code w = None ->
  Code (http_Error w msg code) = Some code /\
  HeaderMap (http_Error w msg code) !! "Content-Type" = Some ["text/plain; charset=utf-8"] /\
  (broken w = None -> Body (http_Error w msg code) = Body w +:+ msg +:+ newline).
Proof.
  intros Hc. unfold http_Error, Write. cbv zeta.
  rewrite (WriteHeader_fresh _ code) by exact Hc.
  unfold WriteHeader. cbn [Code broken Header_Set Header_Del HeaderMap Body].
  destruct (broken w) as [e|]; cbn [snd Code HeaderMap Body].
  - split; [reflexivity|]. split; [|discriminate].
    rewrite lookup_insert_ne by discriminate. apply lookup_insert_eq.
  - split; [reflexivity|]. split; [|reflexivity].
    rewrite lookup_insert_ne by discriminate. apply lookup_insert_eq.
Qed.

(** X25.  Both handlers refuse every method other than POST with status
    405 and the text [Method not allowed]; they do so before they touch
    anything: the file system, the random source and the standard output
    are what they were. *)
Theorem handlers_refuse_other_methods (w : ResponseWriter) (r : Incoming)
    (out0 : string) (world : World) :
  Method r <> "POST" -> Code w = None -> broken w = None ->
  let refused (s : Served) :=
    result s = Returns tt /\ after s = world /\ stdout s = out0 /\
    Code (response s) = Some 405 /\
    Body (response s) = Body w +:+ "Method not allowed" +:+ newline in
  refused (uploadFiles w r out0 world) /\ refused (uploadOneFile w r out0 world).
Proof.
  intros Hm Hc Hb. cbv zeta. unfold uploadFiles, uploadOneFile.
  apply String.eqb_neq in Hm. rewrite Hm. cbn [negb result after stdout response].
  destruct (http_Error_fresh w "Method not allowed" StatusMethodNotAllowed Hc)
    as (Hcode & _ & Hbody).
  rewrite Hcode, (Hbody Hb). auto 10.
Qed.

Lemma handlers_refuse_other_methods_witness :
  Body (response (uploadFiles fresh_writer
                    {| Method := "GET"; request := request_of three_files |}
                    "" sample_world))
  = "Method not allowed" +:+ newline /\
  after (uploadOneFile fresh_writer
           {| Method := "PUT"; request := request_of three_files |} "" sample_world)
  = sample_world.
Proof.
  split.
  - apply (handlers_refuse_other_methods fresh_writer
             {| Method := "GET"; request := request_of three_files |} "" sample_world);
      [discriminate|reflexivity|reflexivity].
  - apply (handlers_refuse_other_methods fresh_writer
             {| Method := "PUT"; request := request_of three_files |} "" sample_world);
      [discriminate|reflexivity|reflexivity].
Defined.

(** X26.  A POST to [/upload-one] whose body parses and holds no file
    part makes the handler panic whenever [CreateDirIfNotExist] returns
    no error for [./uploads]: nothing has been written to the response
    or to the standard output, and the world is the one
    [CreateDirIfNotExist] leaves. *)
Theorem uploadOneFile_handler_panics (w : ResponseWriter) (r : Incoming)
    (out0 : string) (world : World) form :
  Method r = "POST" ->
  (CreateDirIfNotExist "./uploads" world).1 = None ->
  ParseMultipartForm (request r) (1024 * 1024 * 1024) = inl form ->
  file_parts (request r) = [] ->
  let s := uploadOneFile w r out0 world in
  result s = Panics "runtime error: index out of range [0] with length 0" /\
  response s = w /\ stdout s = out0 /\
  after s = (CreateDirIfNotExist "./uploads" world).2.
Proof.
  intros Hm Hdir Hparse Hnone. cbv zeta. unfold uploadOneFile.
  rewrite Hm. change (String.eqb "POST" "POST") with true. cbn [negb]. cbv zeta.
  rewrite UploadOneFile_eq, UploadFiles_rename_argument. cbv zeta.
  rewrite (UploadFiles_without_files handler_tools (request r) "./uploads" [] world form
             Hdir Hparse Hnone).
  cbn [fst snd result response stdout after]. auto.
Qed.

Lemma uploadOneFile_handler_panics_witness :
  result (uploadOneFile fresh_writer
            {| Method := "POST"; request := request_of [name_field] |} "" sample_world)
  = Panics "runtime error: index out of range [0] with length 0".
Proof.
  apply (uploadOneFile_handler_panics fresh_writer
           {| Method := "POST"; request := request_of [name_field] |} "" sample_world
           {| Value := [("name", [bytes "holiday"])]; File := [] |});
    [reflexivity | vm_compute; reflexivity | reflexivity | reflexivity].
Defined.

Lemma append_assoc (a b c : string) : (a +:+ b) +:+ c = a +:+ (b +:+ c).
Proof.
  induction a as [|x a IH]; [reflexivity|].
  rewrite !append_cons, IH. reflexivity.
Qed.

Lemma fold_left_uploaded_lines (files : list UploadedFile) : forall out,
  fold_left (fun out item => out +:+ uploaded_line item) files out
  = out +:+ uploaded_lines files.
Proof.
  induction files as [|item files IH]; intros out; simpl.
  - rewrite append_empty_r. reflexivity.
  - rewrite IH, append_assoc. reflexivity.
Qed.

Lemma Write_fresh (w : ResponseWriter) (b : string) :
  Code w = None -> broken w = None ->
  Code (Write w b).2 = Some 200 /\ Body (Write w b).2 = Body w +:+ b /\
  HeaderMap (Write w b).2 = HeaderMap w.
Proof.
  intros Hc Hb. unfold Write. cbv zeta. rewrite (WriteHeader_fresh _ _ Hc).
  cbn [broken]. rewrite Hb. cbn [snd Code Body HeaderMap]. auto.
Qed.

(** X27.  What [uploadFiles] answers to a POST.  When [UploadFiles]
    fails, the status is 400, nothing is printed, and for an error made
    with [errors.New] the body is its text and a newline.  When
    [UploadFiles] succeeds, the status is 200, the body holds one line for
    each record, in order, and the number of file parts of the request is
    printed on the standard output.  Either way the world is the one
    [UploadFiles] leaves. *)
Theorem uploadFiles_handler_answer (w : ResponseWriter) (r : Incoming)
    (out0 : string) (world : World) :
  Method r = "POST" -> Code w = None -> broken w = None ->
  let s := uploadFiles w r out0 world in
  let up := UploadFiles handler_tools (request r) "./uploads" [] world in
  result s = Returns tt /\ after s = up.2 /\
  match up.1.1.2 with
  | Some e =>
      Code (response s) = Some 400 /\ stdout s = out0 /\
      (forall msg, e = errors_New msg -> Body (response s) = Body w +:+ msg +:+ newline)
  | None =>
      Code (response s) = Some 200 /\
      stdout s = out0 +:+ Itoa (length (file_parts (request r))) +:+ newline /\
      Body (response s) = Body w +:+ uploaded_lines up.1.1.1
  end.
Proof.
  intros Hm Hc Hb. cbv zeta. unfold uploadFiles.
  rewrite Hm. change (String.eqb "POST" "POST") with true. cbn [negb]. cbv zeta.
  pose proof (UploadFiles_record_count handler_tools (request r) "./uploads" [] world)
    as Hcount.
  destruct (UploadFiles handler_tools (request r) "./uploads" [] world)
    as [[[files [e|]] t'] world']; cbn [fst snd result after response stdout].
  - destruct (http_Error_fresh w (error_Error e) StatusBadRequest Hc) as (Hcode & _ & Hbody).
    split; [reflexivity|]. split; [reflexivity|]. split; [exact Hcode|].
    split; [reflexivity|]. intros msg ->. exact (Hbody Hb).
  - destruct (Write_fresh w (fold_left (fun out item => out +:+ uploaded_line item) files "")
                Hc Hb) as (Hcode & Hbody & _).
    split; [reflexivity|]. split; [reflexivity|]. split; [exact Hcode|].
    rewrite (Hcount files t' world' eq_refl). split; [reflexivity|].
    rewrite Hbody, fold_left_uploaded_lines. reflexivity.
Qed.

Lemma uploadFiles_handler_answer_witness :
  Body (response (uploadFiles fresh_writer
                    {| Method := "POST"; request := request_of [png_part; hello_part] |}
                    "" sample_world))
  = "the uploaded file type is not permitted" +:+ newline.
Proof.
  pose proof (uploadFiles_handler_answer fresh_writer
                {| Method := "POST"; request := request_of [png_part; hello_part] |}
                "" sample_world eq_refl eq_refl eq_refl) as H.
  cbv zeta in H. destruct H as (_ & _ & H).
  assert (He : (UploadFiles handler_tools
                  (request {| Method := "POST";
                              request := request_of [png_part; hello_part] |})
                  "./uploads" [] sample_world).1.1.2
               = Some (errors_New "the uploaded file type is not permitted"))
    by (vm_compute; reflexivity).
  rewrite He in H. destruct H as (_ & _ & H). exact (H _ eq_refl).
Defined.

(** ** Only images are stored *)

Lemma hasPrefix_take (sig : list byte) : forall (n : nat) (l : list byte),
  (length sig <= n)%nat -> hasPrefix (take n l) sig = hasPrefix l sig.
Proof.
  induction sig as [|s sig IH]; intros n l Hn; [destruct (take n l), l; reflexivity|].
  destruct n as [|n]; [simpl in Hn; lia|].
  destruct l as [|d l]; [reflexivity|].
  simpl. rewrite IH by (simpl in Hn; lia). reflexivity.
Qed.

Lemma hasPrefix_padded (sig : list byte) : forall (l : list byte) (k : nat),
  forallb (fun b => negb (Byte.eqb b x00)) sig = true ->
  hasPrefix (l ++ replicate k x00) sig = hasPrefix l sig.
Proof.
  induction sig as [|s sig IH]; intros l k Hsig; [destruct (l ++ _), l; reflexivity|].
  simpl in Hsig. apply andb_prop in Hsig as [Hs Hsig]. apply negb_true_iff in Hs.
  destruct l as [|d l].
  - destruct k as [|k]; [reflexivity|]. simpl. rewrite Hs. reflexivity.
  - simpl. rewrite (IH l k Hsig). reflexivity.
Qed.

(** The sniffer sees a signature without a zero byte in the buffer
    exactly when the content begins with it. *)
Lemma hasPrefix_sniff_buffer (sig cnt : list byte) :
  (length sig <= 512)%nat ->
  forallb (fun b => negb (Byte.eqb b x00)) sig = true ->
  hasPrefix (take sniffLen (sniff_buffer cnt)) sig = hasPrefix cnt sig.
Proof.
  intros Hlen Hsig. rewrite (hasPrefix_take sig sniffLen _ Hlen).
  destruct (Nat.lt_ge_cases (length cnt) 512) as [Hshort|Hlong].
  - rewrite (sniff_buffer_short cnt Hshort). apply hasPrefix_padded. exact Hsig.
  - rewrite (sniff_buffer_long cnt Hlong). apply hasPrefix_take. exact Hlen.
Qed.

(** What the policy of the handlers accepts begins with the signature of
    a GIF, PNG or JPEG image. *)
Lemma accepted_image (c : string * list byte * option Fault) :
  accepted handler_tools c -> has_image_signature c.1.2 = true.
Proof.
  intros (_ & _ & Ha). revert Ha. generalize (c.1.2). clear c. intros cnt.
  unfold http_DetectContentType, has_image_signature. cbv zeta.
  rewrite !hasPrefix_sniff_buffer by (first [simpl; lia | reflexivity]).
  destruct (hasPrefix cnt (bytes "%PDF-")); [vm_compute; discriminate|].
  destruct (hasPrefix cnt (bytes "GIF87a")); [reflexivity|].
  destruct (hasPrefix cnt (bytes "GIF89a")); [reflexivity|].
  destruct (hasPrefix cnt [x89; x50; x4e; x47; x0d; x0a; x1a; x0a]%byte); [reflexivity|].
  destruct (hasPrefix cnt [xff; xd8; xff]%byte); [reflexivity|].
  destruct (forallb _ _); vm_compute; discriminate.
Qed.

(** X28.  The handlers store images only: whenever one of them answers
    with status 200, every file part of the request begins with the
    signature of a GIF, PNG or JPEG image, whatever its name and whatever
    content type the client declares for it. *)
Theorem handlers_store_images_only (w : ResponseWriter) (r : Incoming)
    (out0 : string) (world : World) :
  Code w = None ->
  Code (response (uploadFiles w r out0 world)) = Some 200 \/
  Code (response (uploadOneFile w r out0 world)) = Some 200 ->
  Forall (fun p => has_image_signature (body p) = true) (file_parts (request r)).
Proof.
  intros Hc Hok.
  assert (Hup : (UploadFiles handler_tools (request r) "./uploads" [] world).1.1.2 = None).
  { destruct Hok as [Hok|Hok]; revert Hok.
    - unfold uploadFiles.
      destruct (negb (String.eqb (Method r) "POST")).
      { cbn [response].
        destruct (http_Error_fresh w "Method not allowed" StatusMethodNotAllowed Hc)
          as (-> & _). discriminate. }
      cbv zeta.
      destruct (UploadFiles handler_tools (request r) "./uploads" [] world)
        as [[[files [e|]] t'] world']; cbn [fst snd response]; [|reflexivity].
      destruct (http_Error_fresh w (error_Error e) StatusBadRequest Hc) as (-> & _).
      discriminate.
    - unfold uploadOneFile.
      destruct (negb (String.eqb (Method r) "POST")).
      { cbn [response].
        destruct (http_Error_fresh w "Method not allowed" StatusMethodNotAllowed Hc)
          as (-> & _). discriminate. }
      cbv zeta. rewrite UploadOneFile_eq, UploadFiles_rename_argument. cbv zeta.
      destruct (UploadFiles handler_tools (request r) "./uploads" [] world)
        as [[[files [e|]] t'] world']; cbn [fst snd response]; [|reflexivity].
      destruct (http_Error_fresh w (error_Error e) StatusBadRequest Hc) as (-> & _).
      discriminate. }
  apply UploadFiles_ok_accepted in Hup.
  eapply Forall_impl; [exact Hup|].
  intros p Hp. exact (accepted_image _ Hp).
Qed.

Lemma handlers_store_images_only_witness :
  Forall (fun p => has_image_signature (body p) = true)
         (file_parts (request_of three_files)).
Proof.
  apply (handlers_store_images_only fresh_writer
           {| Method := "POST"; request := request_of three_files |} "" sample_world).
  - reflexivity.
  - left. vm_compute. reflexivity.
Defined.

(** ** WriteJSON and ErrorJSON *)

(** The loop over the custom headers overwrites the keys it holds and
    keeps the others. *)
Lemma range_headers_lookup (h0 hm : gmap string (list string)) (key : string) :
  map_fold (fun key value hm => <[key := value]> hm) hm h0 !! key
  = match h0 !! key with
    | Some v => Some v
    | None => hm !! key
    end.
Proof.
  revert key.
  apply (map_fold_weak_ind
           (fun (r h : gmap string (list string)) =>
              forall key, r !! key = match h !! key with
                                     | Some v => Some v
                                     | None => hm !! key
                                     end)).
  - intros key. rewrite lookup_empty. reflexivity.
  - intros i x m r Hnone IH key. destruct (decide (i = key)) as [->|Hne].
    + rewrite !lookup_insert_eq. reflexivity.
    + rewrite !lookup_insert_ne by exact Hne. apply IH.
Qed.




